(** * py_xre_tiff: XRE TIFF read / write, shallow embedding and properties

The development follows [py_xre_tiff/__init__.py]:
- [read_xre_tif], [write_xre_tif], [_extract_slope_offset] and
  [get_metadata] are embedded function by function;
- NumPy arrays are a tagged union over the element types the module
  handles (uint16, float32, float64);
- IEEE-754 numbers are [spec_float] values of the Standard Library's
  [SpecFloat], binary32 for [np.float32] and binary64 for Python floats;
- the file system is a finite map from paths to TIFF containers, and the
  functions that touch it live in a small state-and-exception monad.

What the module takes from its libraries is modelled as follows:
- a Python float that meets a float32 array is taken to float32 and the
  operation is done in float32;
- [astype(np.uint16)] truncates toward zero and does not clamp;
- [format(x, '.6E')] and [float(text)] are correctly rounded;
- a description is a text of one-byte characters, and [re.search] is the
  greedy, backtracking, leftmost match. *)

From Stdlib Require Import ZArith QArith Qround Qabs Qpower List Ascii String
  Bool.
From Stdlib Require Import Lia Lqa.
From Stdlib Require Import SpecFloat.
From stdpp Require Import gmap strings.

Local Open Scope Z_scope.

(** ** IEEE-754 formats *)

Module Fmt.

Record t := Make { prec : Z; emax : Z }.

(** [np.float32] *)
Definition binary32 : t := Make 24 128.
(** Python [float], [np.float64] *)
Definition binary64 : t := Make 53 1024.

End Fmt.

Definition float := spec_float.

Module Float.

Definition add (f : Fmt.t) : float -> float -> float :=
  SFadd (Fmt.prec f) (Fmt.emax f).
Definition sub (f : Fmt.t) : float -> float -> float :=
  SFsub (Fmt.prec f) (Fmt.emax f).
Definition mul (f : Fmt.t) : float -> float -> float :=
  SFmul (Fmt.prec f) (Fmt.emax f).
Definition div (f : Fmt.t) : float -> float -> float :=
  SFdiv (Fmt.prec f) (Fmt.emax f).

Definition valid (f : Fmt.t) (x : float) : bool :=
  valid_binary (Fmt.prec f) (Fmt.emax f) x.

Definition is_nan (x : float) : bool :=
  match x with S754_nan => true | _ => false end.

Definition is_finite (x : float) : bool :=
  match x with S754_zero _ | S754_finite _ _ _ => true | _ => false end.

(** Conversion of a value to format [f] with round-to-nearest-even: what a
    cast between float types does. *)
Definition cast (f : Fmt.t) (x : float) : float :=
  match x with
  | S754_finite s m e => binary_round (Fmt.prec f) (Fmt.emax f) s m e
  | _ => x
  end.

(** An integer as a float of format [f] (rounded when it does not fit). *)
Definition of_Z (f : Fmt.t) (n : Z) : float :=
  binary_normalize (Fmt.prec f) (Fmt.emax f) n 0 false.

(** The integer part of a float, rounding toward zero: the mantissa is
    shifted by the exponent and the sign applied afterwards. *)
Definition trunc (x : float) : option Z :=
  match x with
  | S754_zero _ => Some 0
  | S754_finite s m e => Some (cond_Zopp s (Z.shiftl (Zpos m) e))
  | S754_infinity _ | S754_nan => None
  end.

(** The exact rational value of a finite float ([0] for the others). *)
Definition to_Q (x : float) : Q :=
  match x with
  | S754_finite s m (Zneg p) => Qmake (cond_Zopp s (Zpos m)) (2 ^ p)
  | S754_finite s m e => inject_Z (cond_Zopp s (Zpos m) * 2 ^ e)
  | _ => 0%Q
  end.

Definition ltb (x y : float) : bool := SFltb x y.
Definition eqb (x y : float) : bool := SFeqb x y.

(** Python float literals used by the module. *)
Definition zero : float := S754_zero false.
Definition one : float := S754_finite false 4503599627370496 (-52).

End Float.

(** Truncation of a rational toward zero. *)
Definition Qtrunc (q : Q) : Z :=
  if Qle_bool 0 q then Qfloor q else Qceiling q.

(** Clamping of a rational into [[lo, hi]]. *)
Definition Qclamp (lo hi q : Q) : Q :=
  if Qle_bool q lo then lo else if Qle_bool hi q then hi else q.

(** ** NumPy arrays *)

Inductive dtype := uint16 | float32 | float64.

Definition dtype_eqb (a b : dtype) : bool :=
  match a, b with
  | uint16, uint16 | float32, float32 | float64, float64 => true
  | _, _ => false
  end.

(** A two-dimensional array: its shape [(rows, columns)] and its elements in
    row-major order.  A uint16 element is an integer in [[0, 65535]]. *)
Inductive ndarray :=
| U16Array (shape : nat * nat) (buf : list Z)
| F32Array (shape : nat * nat) (buf : list float)
| F64Array (shape : nat * nat) (buf : list float).

Definition ndarray_dtype (a : ndarray) : dtype :=
  match a with
  | U16Array _ _ => uint16
  | F32Array _ _ => float32
  | F64Array _ _ => float64
  end.

Definition ndarray_shape (a : ndarray) : nat * nat :=
  match a with
  | U16Array s _ | F32Array s _ | F64Array s _ => s
  end.

Definition is_uint16 (v : Z) : bool := (0 <=? v) && (v <=? 65535).

(** The invariant of a uint16 pixel grid: positive width and height, one
    element per pixel, every element a 16-bit unsigned value. *)
Definition u16_grid_ok (shape : nat * nat) (buf : list Z) : Prop :=
  (0 < fst shape)%nat /\ (0 < snd shape)%nat /\
  length buf = (fst shape * snd shape)%nat /\
  Forall (fun v => is_uint16 v = true) buf.

Module np.

(** [x.astype(np.uint16)] on one float element.  NumPy performs the C cast:
    the value is truncated toward zero; a value outside the target range is
    not clamped (the conversion goes through a 32-bit integer whose low 16
    bits are kept, and NaN, infinities and values outside the 32-bit range
    give 0). *)
Definition float_to_uint16 (x : float) : Z :=
  match Float.trunc x with
  | Some t =>
      if (- 2 ^ 31 <=? t) && (t <? 2 ^ 31) then t mod 65536 else 0
  | None => 0
  end.

(** [v.astype(np.float32)] on one uint16 element. *)
Definition uint16_to_float32 (v : Z) : float := Float.of_Z Fmt.binary32 v.

(** The format in which NumPy computes when an array of the given float
    dtype meets a Python scalar: the array's own. *)
Definition fmt_of (d : dtype) : Fmt.t :=
  match d with
  | float64 => Fmt.binary64
  | _ => Fmt.binary32
  end.

(** A Python float scalar taking part in an operation with an array of
    format [f]. *)
Definition scalar (f : Fmt.t) (x : float) : float := Float.cast f x.

(** [np.clip] on one element: [min(max(x, lo), hi)], NaN kept. *)
Definition maximum (a b : float) : float :=
  if Float.is_nan a then a else if Float.ltb b a then a else b.
Definition minimum (a b : float) : float :=
  if Float.is_nan a then a else if Float.ltb a b then a else b.
Definition clip1 (f : Fmt.t) (lo hi : Z) (x : float) : float :=
  minimum (maximum x (Float.of_Z f lo)) (Float.of_Z f hi).

End np.

(** ** Python text: number formatting, [float(...)] and [re.search] *)

Module py.

Inductive exn :=
| ValueError (msg : string)
| TypeError
| FileNotFoundError
| MalformedContainer.

Inductive result (A : Type) :=
| Ok (a : A)
| Raise (e : exn).
Arguments Ok {A} a.
Arguments Raise {A} e.

(** *** Decimal digits *)

Definition digit_char (d : Z) : ascii := ascii_of_nat (Z.to_nat (48 + d)).

Definition is_digit (c : ascii) : bool :=
  let n := Z.of_nat (nat_of_ascii c) in (48 <=? n) && (n <=? 57).

Definition digit_val (c : ascii) : Z := Z.of_nat (nat_of_ascii c) - 48.

(** The [n] low decimal digits of [v], most significant first. *)
Fixpoint fixed_digits (n : nat) (v : Z) : string :=
  match n with
  | O => EmptyString
  | S k => fixed_digits k (v / 10) +:+ String (digit_char (v mod 10)) EmptyString
  end.

(** The number of decimal digits of [v], at most [fuel]. *)
Fixpoint num_digits (fuel : nat) (v : Z) : nat :=
  match fuel with
  | O => O
  | S k => if v <? 10 then 1%nat else S (num_digits k (v / 10))
  end.

(** A decimal exponent as C's [%+03d] prints it: a sign and at least two
    digits. *)
Definition exponent_string (x : Z) : string :=
  let a := Z.abs x in
  let n := Nat.max 2 (num_digits (S (Z.to_nat (Z.log2 a))) a) in
  String (if x <? 0 then "-"%char else "+"%char) (fixed_digits n a).

(** *** [format(x, '.6E')] *)

(** [floor (log10 (n / d))] for [n >= d > 0]: the largest [k] with
    [d * 10 ^ k <= n]. *)
Fixpoint log10_up (fuel : nat) (n d k : Z) : Z :=
  match fuel with
  | O => k
  | S f => if d * 10 <=? n then log10_up f n (d * 10) (k + 1) else k
  end.

(** [floor (log10 (n / d))] for [0 < n < d]: minus the least [k] with
    [d <= n * 10 ^ k]. *)
Fixpoint log10_down (fuel : nat) (n d k : Z) : Z :=
  match fuel with
  | O => k
  | S f => if d <=? n then k else log10_down f (n * 10) d (k - 1)
  end.

Definition ilog10 (n d : Z) : Z :=
  if d <=? n then log10_up (S (Z.to_nat (Z.log2 n))) n d 0
  else log10_down (S (Z.to_nat (Z.log2 d))) n d 0.

(** [n / d] rounded to the nearest integer, ties to even. *)
Definition round_half_even (n d : Z) : Z :=
  let q := n / d in
  match 2 * (n mod d) ?= d with
  | Lt => q
  | Gt => q + 1
  | Eq => if Z.even q then q else q + 1
  end.

(** The seven significant digits and the decimal exponent of the positive
    rational [n / d]. *)
Definition sci_digits (n d : Z) : Z * Z :=
  let x := ilog10 n d in
  let m :=
    if 0 <=? 6 - x then round_half_even (n * 10 ^ (6 - x)) d
    else round_half_even n (d * 10 ^ (x - 6)) in
  if 10 ^ 7 <=? m then (m / 10, x + 1) else (m, x).

Definition sci_string (neg : bool) (m x : Z) : string :=
  (if neg then "-" else "") +:+
  fixed_digits 1 (m / 10 ^ 6) +:+ "." +:+ fixed_digits 6 m +:+
  "E" +:+ exponent_string x.

(** [f"{x:.6E}"] for a Python float. *)
Definition format_6E (x : float) : string :=
  match x with
  | S754_nan => "NAN"
  | S754_infinity s => if s then "-INF" else "INF"
  | S754_zero s => sci_string s 0 0
  | S754_finite s m e =>
      let '(d, x) :=
        sci_digits (Zpos m * 2 ^ Z.max e 0) (2 ^ Z.max (- e) 0) in
      sci_string s d x
  end.

(** *** [float(text)] *)

Fixpoint take_digits (s : string) : string * string :=
  match s with
  | String c s' =>
      if is_digit c then
        let '(ds, rest) := take_digits s' in (String c ds, rest)
      else (EmptyString, s)
  | EmptyString => (EmptyString, EmptyString)
  end.

Fixpoint digits_value (acc : Z) (s : string) : Z :=
  match s with
  | String c s' => digits_value (10 * acc + digit_val c) s'
  | EmptyString => acc
  end.

Definition take_sign (s : string) : bool * string :=
  match s with
  | String "-" s' => (true, s')
  | String "+" s' => (false, s')
  | _ => (false, s)
  end.

(** The syntax of a float literal, over the characters the calibration
    patterns can capture: sign, digits with an optional point, optional
    exponent.  The result is the sign, the digits without the point and the
    decimal exponent that applies to them. *)
Definition parse_float_literal (s : string) : option (bool * Z * Z) :=
  let '(neg, r0) := take_sign s in
  let '(intd, r1) := take_digits r0 in
  let '(fracd, r2) :=
    match r1 with
    | String "." t => take_digits t
    | _ => (EmptyString, r1)
    end in
  if (String.length intd + String.length fracd =? 0)%nat then None else
  let mant := digits_value 0 (intd +:+ fracd) in
  let shift := Z.of_nat (String.length fracd) in
  match r2 with
  | EmptyString => Some (neg, mant, - shift)
  | String c t =>
      if (c =? "e")%char || (c =? "E")%char then
        let '(eneg, r3) := take_sign t in
        let '(expd, r4) := take_digits r3 in
        match expd, r4 with
        | String _ _, EmptyString =>
            let x := digits_value 0 expd in
            Some (neg, mant, (if eneg then - x else x) - shift)
        | _, _ => None
        end
      else None
  end.

(** The binary64 value nearest to [mant * 10 ^ x] (ties to even, overflow
    to infinity): an integer is rounded directly, a fraction is the
    correctly rounded quotient of two integers. *)
Definition decimal_to_float (neg : bool) (mant x : Z) : float :=
  match mant with
  | Zpos m =>
      if 0 <=? x then
        binary_round 53 1024 neg (Z.to_pos (Zpos m * 10 ^ x)) 0
      else
        SFdiv 53 1024 (S754_finite neg m 0)
              (S754_finite false (Z.to_pos (10 ^ (- x))) 0)
  | _ => S754_zero neg
  end.

(** [float(s)]: the value of the literal, [ValueError] when [s] is not
    one. *)
Definition float_of_string (s : string) : result float :=
  match parse_float_literal s with
  | Some (neg, mant, x) => Ok (decimal_to_float neg mant x)
  | None => Raise (ValueError "could not convert string to float")
  end.

(** *** [re.search] for the calibration patterns *)

(** The pattern items the module's two regular expressions are made of. *)
Inductive re_item :=
| RLit (c : ascii)                    (* a literal character *)
| RStar (cls : ascii -> bool)         (* [cls*], greedy *)
| RGroupPlus (cls : ascii -> bool).   (* [(cls+)], greedy, captured *)

Definition lower (c : ascii) : ascii :=
  let n := nat_of_ascii c in
  if (65 <=? n)%nat && (n <=? 90)%nat then ascii_of_nat (n + 32) else c.

(** Character equality under [re.IGNORECASE]. *)
Definition ci_eqb (a b : ascii) : bool := (lower a =? lower b)%char.

(** [\s] on a text decoded from one byte per character. *)
Definition is_space (c : ascii) : bool :=
  let n := nat_of_ascii c in
  ((9 <=? n)%nat && (n <=? 13)%nat) || ((28 <=? n)%nat && (n <=? 32)%nat)
  || (n =? 133)%nat || (n =? 160)%nat.

(** [[\d.Ee+-]] *)
Definition is_number_char (c : ascii) : bool :=
  is_digit c || (c =? ".")%char || (c =? "E")%char || (c =? "e")%char
  || (c =? "+")%char || (c =? "-")%char.

(** [cls*] followed by the continuation [k]: the longest run first, then
    shorter ones. *)
Fixpoint star_try {R : Type} (cls : ascii -> bool) (k : string -> option R)
         (s : string) : option R :=
  match s with
  | String c s' =>
      if cls c then
        match star_try cls k s' with
        | Some r => Some r
        | None => k s
        end
      else k s
  | EmptyString => k s
  end.

(** [(cls+)] followed by [k], which receives the captured text. *)
Fixpoint plus_try {R : Type} (cls : ascii -> bool)
         (k : string -> string -> option R) (acc : string) (s : string)
  : option R :=
  match s with
  | String c s' =>
      if cls c then
        let acc' := acc +:+ String c EmptyString in
        match plus_try cls k acc' s' with
        | Some r => Some r
        | None => k acc' s'
        end
      else None
  | EmptyString => None
  end.

(** A match of the whole pattern at the start of [s]; the result is the
    text of the group. *)
Fixpoint match_here (p : list re_item) (cap : string) (s : string)
  : option string :=
  match p with
  | [] => Some cap
  | RLit c :: p' =>
      match s with
      | String a s' => if ci_eqb c a then match_here p' cap s' else None
      | EmptyString => None
      end
  | RStar cls :: p' => star_try cls (match_here p' cap) s
  | RGroupPlus cls :: p' =>
      plus_try cls (fun g rest => match_here p' g rest) EmptyString s
  end.

(** [re.search(p, s, re.IGNORECASE)]: the leftmost match; [None] when no
    position matches, otherwise [group(1)]. *)
Fixpoint re_search (p : list re_item) (s : string) : option string :=
  match match_here p EmptyString s with
  | Some g => Some g
  | None =>
      match s with
      | String _ s' => re_search p s'
      | EmptyString => None
      end
  end.

Definition literal (w : string) : list re_item :=
  map RLit (list_ascii_of_string w).

(** [name\s*=\s*([\d.Ee+-]+)] *)
Definition field_pattern (name : string) : list re_item :=
  literal name ++
  [RStar is_space; RLit "="; RStar is_space; RGroupPlus is_number_char].

End py.

(** ** The TIFF container and the image library

Modelled from the spec: the container codec (sections 3, 4.3 and 6 of the
specification).  In the source it is the imaging library behind
[Image.open], [Image.fromarray], [img.save], [img.tag_v2] and
[np.array(img)], which is not part of the repository.  A container is
kept at the level of the specification's data model: the entries of the
image file directory, and the bytes of the single pixel strip. *)

Module TIFF.

Inductive tag_value :=
| Short (v : Z)
| Long (v : Z)
| Ascii (s : string).

(** Modelled from the spec: the container file of section 3 (byte-order
    marker, directory entries, pixel strip); the codec that reads and writes
    it is absent from the repository. *)
Record container := Container {
  little_endian : bool;            (* byte-order marker: [II] or [MM] *)
  tags : gmap Z tag_value;         (* the image file directory *)
  strip : list Z                   (* the bytes of the pixel strip *)
}.

Definition ImageWidth := 256.
Definition ImageLength := 257.
Definition BitsPerSample := 258.
Definition Compression := 259.
Definition PhotometricInterpretation := 262.
Definition ImageDescription := 270.
Definition StripOffsets := 273.
Definition SamplesPerPixel := 277.
Definition RowsPerStrip := 278.
Definition StripByteCounts := 279.
Definition Software := 305.

(** One 16-bit sample as two bytes. *)
Definition sample_bytes (le : bool) (v : Z) : list Z :=
  let lo := v mod 256 in
  let hi := (v / 256) mod 256 in
  if le then [lo; hi] else [hi; lo].

Definition pack (le : bool) (buf : list Z) : list Z :=
  flat_map (sample_bytes le) buf.

Fixpoint unpack (le : bool) (bs : list Z) : list Z :=
  match bs with
  | b0 :: b1 :: rest =>
      (if le then b0 + 256 * b1 else b1 + 256 * b0) :: unpack le rest
  | _ => []
  end.

Definition numeric (v : option tag_value) : option Z :=
  match v with
  | Some (Short n) | Some (Long n) => Some n
  | _ => None
  end.

(** Modelled from the spec: the tag set that the encoder of section 4.3 must
    write (the encoder itself is absent from the repository), for a 16-bit
    grayscale image of the given size whose strip follows the 8-byte
    header. *)
Definition directory (width height : nat) (description software : string)
  : gmap Z tag_value :=
  <[ImageWidth := Long (Z.of_nat width)]>
  (<[ImageLength := Long (Z.of_nat height)]>
  (<[BitsPerSample := Short 16]>
  (<[Compression := Short 1]>
  (<[PhotometricInterpretation := Short 1]>
  (<[ImageDescription := Ascii description]>
  (<[StripOffsets := Long 8]>
  (<[SamplesPerPixel := Short 1]>
  (<[RowsPerStrip := Long (Z.of_nat height)]>
  (<[StripByteCounts := Long (2 * Z.of_nat width * Z.of_nat height)]>
  (<[Software := Ascii software]> ∅)))))))))).

(** Modelled from the spec: the header-level checks of the decoder of
    section 4.3 (absent from the repository): the mandatory tags are present
    and have the supported values.  The result is (width, height). *)
Definition check_directory (t : gmap Z tag_value) : option (nat * nat) :=
  match numeric (t !! ImageWidth), numeric (t !! ImageLength),
        numeric (t !! BitsPerSample), numeric (t !! Compression),
        numeric (t !! PhotometricInterpretation),
        numeric (t !! SamplesPerPixel), numeric (t !! StripOffsets),
        numeric (t !! StripByteCounts) with
  | Some w, Some h, Some 16, Some 1, Some 1, Some 1, Some _, Some _ =>
      if (0 <? w) && (0 <? h) then Some (Z.to_nat w, Z.to_nat h) else None
  | _, _, _, _, _, _, _, _ => None
  end.

End TIFF.

(** An image object of the imaging library. *)
Module Image.

Record t := Make {
  mode : string;
  size : nat * nat;                            (* (width, height) *)
  raw : list Z;                                (* sample bytes *)
  raw_le : bool;
  tag_v2 : option (gmap Z TIFF.tag_value)      (* present on TIFF images *)
}.

End Image.

(** ** The file system and the monad of the entry points *)

Definition IO (A : Type) : Type :=
  gmap string TIFF.container -> py.result A * gmap string TIFF.container.

Definition ret {A} (a : A) : IO A := fun fs => (py.Ok a, fs).

Definition bind {A B} (m : IO A) (k : A -> IO B) : IO B :=
  fun fs =>
    match m fs with
    | (py.Ok a, fs') => k a fs'
    | (py.Raise e, fs') => (py.Raise e, fs')
    end.

Definition lift {A} (r : py.result A) : IO A := fun fs => (r, fs).

Notation "x <- m ;; k" := (bind m (fun x => k))
  (at level 100, m at next level, right associativity).

Module PIL.

(** Modelled from the spec: [Image.open(path)] of the absent imaging
    library, as the header and directory parse of section 4.3. *)
Definition open (path : string) : IO Image.t :=
  fun fs =>
    match fs !! path with
    | None => (py.Raise py.FileNotFoundError, fs)
    | Some c =>
        match TIFF.check_directory (TIFF.tags c) with
        | Some sz =>
            (py.Ok (Image.Make "I;16" sz (TIFF.strip c) (TIFF.little_endian c)
                            (Some (TIFF.tags c))), fs)
        | None => (py.Raise py.MalformedContainer, fs)
        end
    end.

(** Modelled from the spec: [np.array(img, dtype=np.uint16)] on an image of
    the absent imaging library, as the strip decoding of section 4.3; the
    strip must hold width x height x 2 bytes. *)
Definition to_array (img : Image.t) : py.result ndarray :=
  let '(w, h) := Image.size img in
  if (length (Image.raw img) =? 2 * w * h)%nat then
    py.Ok (U16Array (h, w) (TIFF.unpack (Image.raw_le img) (Image.raw img)))
  else py.Raise py.MalformedContainer.

(** Modelled from the spec: [Image.fromarray(a, mode='I;16')] of the absent
    imaging library, for a uint16 array: little-endian 16-bit samples. *)
Definition fromarray (shape : nat * nat) (buf : list Z) : Image.t :=
  Image.Make "I;16" (snd shape, fst shape) (TIFF.pack true buf) true None.

(** Modelled from the spec: [img.save(path, format='TIFF',
    compression=None, description=..., software=...)] of the absent imaging
    library, as the encoder of section 4.3. *)
Definition save (img : Image.t) (path description software : string)
  : IO unit :=
  fun fs =>
    let c := TIFF.Container true
               (TIFF.directory (fst (Image.size img)) (snd (Image.size img))
                               description software)
               (Image.raw img) in
    (py.Ok tt, <[path := c]> fs).

End PIL.

(** ** The module [py_xre_tiff] *)

(** [_extract_slope_offset(img)] *)
Definition _extract_slope_offset (img : Image.t) : py.result (float * float) :=
  let slope := Float.one in
  let offset := Float.zero in
  match Image.tag_v2 img with                                  (* hasattr(img, 'tag_v2') *)
  | Some t =>
      match t !! TIFF.ImageDescription with              (* img.tag_v2.get(270) *)
      | Some (TIFF.Ascii desc) =>
          if (String.length desc =? 0)%nat then py.Ok (slope, offset)
          else
            let slope_match := py.re_search (py.field_pattern "slope") desc in
            let offset_match := py.re_search (py.field_pattern "offset") desc in
            match
              match slope_match with
              | Some g => py.float_of_string g
              | None => py.Ok slope
              end
            with
            | py.Raise e => py.Raise e
            | py.Ok slope =>
                match
                  match offset_match with
                  | Some g => py.float_of_string g
                  | None => py.Ok offset
                  end
                with
                | py.Raise e => py.Raise e
                | py.Ok offset => py.Ok (slope, offset)
                end
            end
      | Some (TIFF.Short n) | Some (TIFF.Long n) =>
          (* a number is not a text: [re.search] rejects it when it is
             truthy *)
          if n =? 0 then py.Ok (slope, offset) else py.Raise py.TypeError
      | None => py.Ok (slope, offset)
      end
  | None => py.Ok (slope, offset)
  end.

(** [data.astype(np.float32) * slope + offset] on one element. *)
Definition to_physical (slope offset : float) (v : Z) : float :=
  let f := Fmt.binary32 in
  Float.add f (Float.mul f (np.uint16_to_float32 v) (np.scalar f slope))
            (np.scalar f offset).

(** [read_xre_tif(path, rescale)] *)
Definition read_xre_tif (path : string) (rescale : bool) : IO ndarray :=
  img <- PIL.open path ;;
  data <- lift (PIL.to_array img) ;;
  if rescale then
    so <- lift (_extract_slope_offset img) ;;
    match data with
    | U16Array shape buf =>
        ret (F32Array shape (map (to_physical (fst so) (snd so)) buf))
    | _ => ret data
    end
  else ret data.

(** [(x - offset) / slope] on one element of an array of format [f]. *)
Definition quotient (f : Fmt.t) (slope offset : float) (x : float) : float :=
  Float.div f (Float.sub f x (np.scalar f offset)) (np.scalar f slope).

(** [((x - offset) / slope).astype(np.uint16)] on one element. *)
Definition to_stored (f : Fmt.t) (slope offset : float) (x : float) : Z :=
  np.float_to_uint16 (quotient f slope offset x).

(** [np.clip(x, 0, 65535).astype(np.uint16)] on one element. *)
Definition clip_to_stored (f : Fmt.t) (x : float) : Z :=
  np.float_to_uint16 (np.clip1 f 0 65535 x).

(** The conversion of the data to uint16 at the head of [write_xre_tif]. *)
Definition convert_to_u16 (data : ndarray) (rescale : bool)
           (slope offset : float) : py.result (nat * nat * list Z) :=
  let d := ndarray_dtype data in
  let f := np.fmt_of d in
  if rescale && negb (dtype_eqb d uint16) then
    if Float.eqb slope Float.zero then                   (* slope == 0 *)
      py.Raise (py.ValueError "Slope cannot be zero when rescaling")
    else
      match data with
      | U16Array shape buf => py.Ok (shape, buf)
      | F32Array shape buf | F64Array shape buf =>
          py.Ok (shape, map (to_stored f slope offset) buf)
      end
  else
    match data with
    | U16Array shape buf => py.Ok (shape, buf)
    | F32Array shape buf | F64Array shape buf =>
        py.Ok (shape, map (clip_to_stored f) buf)
    end.

(** [f"slope = {slope:.6E} offset = {offset:.6E}"] *)
Definition description_tag (slope offset : float) : string :=
  "slope = " +:+ py.format_6E slope +:+ " offset = " +:+ py.format_6E offset.

(** [write_xre_tif(path, data, rescale, slope, offset)] *)
Definition write_xre_tif (path : string) (data : ndarray) (rescale : bool)
           (slope offset : float) : IO unit :=
  u16_data <- lift (convert_to_u16 data rescale slope offset) ;;
  let img := PIL.fromarray (fst u16_data) (snd u16_data) in
  let description := description_tag slope offset in
  PIL.save img path description "py_xre_tiff".

Record metadata := MkMetadata {
  md_slope : float;
  md_offset : float;
  md_width : nat;
  md_height : nat;
  md_dtype : string
}.

(** [get_metadata(path)] *)
Definition get_metadata (path : string) : IO metadata :=
  img <- PIL.open path ;;
  so <- lift (_extract_slope_offset img) ;;
  ret (MkMetadata (fst so) (snd so) (fst (Image.size img))
                  (snd (Image.size img)) (Image.mode img)).

(** The samples stored in the file at [path], if there is one. *)
Definition stored_samples (fs : gmap string TIFF.container) (path : string)
  : option (list Z) :=
  match fs !! path with
  | Some c => Some (TIFF.unpack (TIFF.little_endian c) (TIFF.strip c))
  | None => None
  end.

(** The description text of the file at [path], if it has one. *)
Definition stored_description (fs : gmap string TIFF.container)
           (path : string) : option string :=
  match fs !! path with
  | Some c =>
      match TIFF.tags c !! TIFF.ImageDescription with
      | Some (TIFF.Ascii s) => Some s
      | _ => None
      end
  | None => None
  end.

(** ** Notions used to state the properties *)

(** Well-formed arrays: uint16 elements are 16-bit values, float elements are
    values of their format. *)
Definition ndarray_ok (a : ndarray) : Prop :=
  match a with
  | U16Array _ buf => Forall (fun v => is_uint16 v = true) buf
  | F32Array _ buf => Forall (fun x => Float.valid Fmt.binary32 x = true) buf
  | F64Array _ buf => Forall (fun x => Float.valid Fmt.binary64 x = true) buf
  end.

Definition float_elements (a : ndarray) : list float :=
  match a with
  | U16Array _ _ => []
  | F32Array _ buf | F64Array _ buf => buf
  end.

(** The store policy of the non-rescaled path, in the specification's words:
    the value clamped into [[0, 65535]], then truncated toward zero. *)
Definition clamp_trunc_spec (x : float) : Z :=
  match x with
  | S754_infinity s => if s then 0 else 65535
  | _ => Qtrunc (Qclamp 0 65535 (Float.to_Q x))
  end.

(** The inverse conversion in the specification's words: the quotient
    truncated toward zero and clamped into [[0, 65535]]. *)
Definition spec_to_stored (q : Q) : Z := Z.max 0 (Z.min 65535 (Qtrunc q)).

(** "A rescaled write with slope 0.0 and offset 0.0 fails with the
    calibration error and leaves the files as they were." *)
Definition zero_slope_rejected (data : ndarray) : Prop :=
  forall path fs,
    write_xre_tif path data true (S754_zero false) (S754_zero false) fs =
    (py.Raise (py.ValueError "Slope cannot be zero when rescaling"), fs).

(** "Writing the float32 grid with rescaling and reading it back with
    rescaling gives, element by element, a finite value within
    [tol * |slope|] of the original." *)
Definition rescaled_roundtrip_within (tol : Q) (shape : nat * nat)
           (buf : list float) (slope offset : float) : Prop :=
  forall path fs,
  exists fs' back,
    write_xre_tif path (F32Array shape buf) true slope offset fs =
      (py.Ok tt, fs') /\
    read_xre_tif path true fs' = (py.Ok (F32Array shape back), fs') /\
    Forall2 (fun x y =>
               Float.is_finite y = true /\
               (Qabs (Float.to_Q y - Float.to_Q x)
                <= tol * Qabs (Float.to_Q slope))%Q) buf back.

(** A float32 element whose truncation is a uint16: a finite value strictly
    between -1 and 65536. *)
Definition in_sample_range (x : float) : bool :=
  Float.valid Fmt.binary32 x && Float.is_finite x &&
  negb (Qle_bool (Float.to_Q x) (-1)) && negb (Qle_bool 65536 (Float.to_Q x)).

(** The calibration read from an image whose description tag is [desc]. *)
Definition calibration_of_text (desc : string) : py.result (float * float) :=
  _extract_slope_offset
    (Image.Make "I;16" (1%nat, 1%nat) [0; 0] true
                (Some {[TIFF.ImageDescription := TIFF.Ascii desc]})).

Definition float_beq (a b : float) : bool :=
  match a, b with
  | S754_zero s, S754_zero s' => Bool.eqb s s'
  | S754_infinity s, S754_infinity s' => Bool.eqb s s'
  | S754_nan, S754_nan => true
  | S754_finite s m e, S754_finite s' m' e' =>
      Bool.eqb s s' && (m =? m')%positive && (e =? e')
  | _, _ => false
  end.

(** The forward conversion under the default calibration returns the sample
    itself as a float32: a check on one sample. *)
Definition default_forward_exact (v : Z) : bool :=
  float_beq (to_physical Float.one Float.zero v) (np.uint16_to_float32 v) &&
  Float.is_finite (np.uint16_to_float32 v) &&
  Qeq_bool (Float.to_Q (np.uint16_to_float32 v)) (inject_Z v).

(** [f] holds on the [n] integers from [v] on. *)
Fixpoint all_from (n : nat) (v : Z) (f : Z -> bool) : bool :=
  match n with
  | O => true
  | S k => f v && all_from k (v + 1) f
  end.

(** [np.scalar] of the Python float [1.0] in binary32. *)
Definition one32 : float := S754_finite false 8388608 (-23).

(** *** Six-fractional-digit scientific notation *)

(** [10 ^ x <= n / d < 10 ^ (x + 1)], without fractions. *)
Definition decade (n d x : Z) : Prop :=
  if 0 <=? x then d * 10 ^ x <= n < d * 10 ^ (x + 1)
  else d <= n * 10 ^ (- x) /\ n * 10 ^ (- x - 1) < d.

(** [|n / d - m * 10 ^ (x - 6)| <= 10 ^ (x - 6) / 2], without fractions. *)
Definition within_half_unit (n d m x : Z) : Prop :=
  if 0 <=? x - 6 then
    2 * Z.abs (n - m * 10 ^ (x - 6) * d) <= 10 ^ (x - 6) * d
  else 2 * Z.abs (n * 10 ^ (6 - x) - m * d) <= d.

Fixpoint all_digits (s : string) : bool :=
  match s with
  | EmptyString => true
  | String c s' => py.is_digit c && all_digits s'
  end.

Definition is_exponent (s : string) : bool :=
  match s with
  | String "E" (String sg ds) =>
      ((sg =? "+")%char || (sg =? "-")%char) &&
      (2 <=? String.length ds)%nat && all_digits ds
  | _ => false
  end.

(** Six-fractional-digit scientific notation: an optional minus sign, one
    digit, a point, six digits, [E], a sign and at least two digits. *)
Definition is_sci6 (s : string) : bool :=
  let u := match s with String "-" t => t | _ => s end in
  match u with
  | String d (String "." t) =>
      py.is_digit d &&
      (String.length (substring 0 6 t) =? 6)%nat &&
      all_digits (substring 0 6 t) &&
      is_exponent (substring 6 (String.length t - 6) t)
  | _ => false
  end.

(** "[text] is [x] in six-fractional-digit scientific notation": the text
    has the shape above and, read as a decimal literal, it has the sign of
    [x] and denotes [d * 10 ^ (e10 - 6)], where [d] is zero for a zero and
    otherwise has seven digits, the first one not zero, and is within half a
    unit of its last digit of the value of [x]. *)
Definition sci6_of (x : float) (text : string) : Prop :=
  is_sci6 text = true /\
  match x with
  | S754_zero s => py.parse_float_literal text = Some (s, 0, -6)
  | S754_finite s m e =>
      exists d e10,
        py.parse_float_literal text = Some (s, d, e10 - 6) /\
        10 ^ 6 <= d < 10 ^ 7 /\
        within_half_unit (Zpos m * 2 ^ Z.max e 0) (2 ^ Z.max (- e) 0) d e10
  | _ => False
  end.

(** "[text] is what the description holds for the value [x]": the
    six-fractional-digit scientific notation of a finite number; an infinity
    and a NaN, which have none, are written by name. *)
Definition formatted_as (x : float) (text : string) : Prop :=
  match x with
  | S754_nan => text = "NAN"%string
  | S754_infinity s => text = (if s then "-INF" else "INF")%string
  | _ => sci6_of x text
  end.


(** The samples that a write without rescaling stores. *)
Definition unrescaled_samples (data : ndarray) : list Z :=
  match data with
  | U16Array _ buf => buf
  | F32Array _ buf => map (clip_to_stored Fmt.binary32) buf
  | F64Array _ buf => map (clip_to_stored Fmt.binary64) buf
  end.

(** *** Example values *)

(** A one-row, two-pixel file holding the samples 7 and 9, with the given
    description. *)
Definition example_file (description : string) : TIFF.container :=
  TIFF.Container true (TIFF.directory 2 1 description "py_xre_tiff")
                 [7; 0; 9; 0].

(** The float32 values 70000.0, -10.0, 3.0 and 65535.0. *)
Definition f32_70000 : float := S754_finite false 8960000 (-7).
Definition f32_minus_10 : float := S754_finite true 10485760 (-20).
Definition f32_3 : float := S754_finite false 12582912 (-22).
Definition f32_65535 : float := S754_finite false 16776960 (-8).

(** The float32 value 123456792.0 and the Python float 123456789.0. *)
Definition f32_123456792 : float := S754_finite false 15432099 3.
Definition py_123456789 : float := Float.of_Z Fmt.binary64 123456789.

(** The float32 value 100000232.0 and the Python floats 5.3 and
    100000000.0. *)
Definition f32_100000232 : float := S754_finite false 12500029 3.
Definition py_5_3 : float := S754_finite false 5967269506265907 (-50).
Definition py_100000000 : float := Float.of_Z Fmt.binary64 100000000.

(** ** Notions used to state the further properties *)

(** *** Texts *)

(** Every character of [s] satisfies [P]. *)
Fixpoint string_forall (P : ascii -> bool) (s : string) : bool :=
  match s with
  | EmptyString => true
  | String c s' => P c && string_forall P s'
  end.

(** [s] is empty or its first character does not satisfy [P]: a run of
    [P]-characters ends where [s] starts. *)
Definition stops (P : ascii -> bool) (s : string) : bool :=
  match s with
  | EmptyString => true
  | String c _ => negb (P c)
  end.

Definition nonempty (s : string) : bool :=
  match s with
  | EmptyString => false
  | _ => true
  end.

(** Equality of two texts under [re.IGNORECASE]. *)
Fixpoint ci_string_eqb (a b : string) : bool :=
  match a, b with
  | EmptyString, EmptyString => true
  | String x a', String y b' => py.ci_eqb x y && ci_string_eqb a' b'
  | _, _ => false
  end.

(** The letter [l] occurs in [s] in neither case. *)
Definition no_letter (l : ascii) (s : string) : bool :=
  string_forall (fun c => negb (py.ci_eqb l c)) s.

(** The text has no equals sign. *)
Definition no_equals (s : string) : bool :=
  string_forall (fun c => negb (c =? "=")%char) s.

(** A number text: a run of the characters of [[\d.Ee+-]] that is not
    empty, which is what the group of a calibration pattern captures. *)
Definition number_text (g : string) : bool :=
  nonempty g && string_forall py.is_number_char g.

Fixpoint string_map (f : ascii -> ascii) (s : string) : string :=
  match s with
  | EmptyString => EmptyString
  | String c s' => String (f c) (string_map f s')
  end.

(** The text with its ASCII capitals turned into small letters. *)
Definition lower_string (s : string) : string := string_map py.lower s.

(** The character class of a pattern item does not tell a capital from its
    small letter. *)
Definition caseless_item (i : py.re_item) : Prop :=
  match i with
  | py.RLit _ => True
  | py.RStar cls | py.RGroupPlus cls => forall c, cls (py.lower c) = cls c
  end.

(** *** Calibrations *)

(** What [_extract_slope_offset] makes of the outcomes of its two fields:
    the slope is converted first, and the first failure is the result. *)
Definition both_fields (slope offset : py.result float)
  : py.result (float * float) :=
  match slope with
  | py.Raise e => py.Raise e
  | py.Ok s =>
      match offset with
      | py.Raise e => py.Raise e
      | py.Ok o => py.Ok (s, o)
      end
  end.

(** The text that a calibration pattern captures in what [format_6E] writes
    for [x]: all of it for a finite number, the sign alone for minus
    infinity, and no match for plus infinity and for a NaN. *)
Definition captured (x : float) : option string :=
  match x with
  | S754_nan => None
  | S754_infinity s => if s then Some "-"%string else None
  | _ => Some (py.format_6E x)
  end.

(** What a reader gets back for a value [x] that the writer has formatted
    into the description: the parsed text for a finite number, the default
    for plus infinity and for a NaN, and the conversion error for minus
    infinity. *)
Definition reread (default x : float) : py.result float :=
  match x with
  | S754_nan => py.Ok default
  | S754_infinity s =>
      if s then py.Raise (py.ValueError "could not convert string to float")
      else py.Ok default
  | _ => py.float_of_string (py.format_6E x)
  end.

(** [v] is the binary64 value of a seven-significant-digit decimal nearest
    to the finite [x]; a zero keeps its sign. *)
Definition decimal7 (x v : float) : Prop :=
  match x with
  | S754_zero s => v = S754_zero s
  | S754_finite s m e =>
      exists d e10,
        10 ^ 6 <= d < 10 ^ 7 /\
        within_half_unit (Zpos m * 2 ^ Z.max e 0) (2 ^ Z.max (- e) 0) d e10 /\
        v = py.decimal_to_float s d (e10 - 6)
  | _ => False
  end.

(** [x == 0] for a float: a zero of either sign. *)
Definition is_zero (x : float) : bool :=
  match x with
  | S754_zero _ => true
  | _ => false
  end.

(** *** Grids and files *)

Definition ndarray_length (a : ndarray) : nat :=
  match a with
  | U16Array _ buf => length buf
  | F32Array _ buf | F64Array _ buf => length buf
  end.

(** A pixel grid as the writer receives it: positive height and width, one
    element per pixel, and for a uint16 grid every element a 16-bit unsigned
    value. *)
Definition writable (a : ndarray) : Prop :=
  (0 < fst (ndarray_shape a))%nat /\ (0 < snd (ndarray_shape a))%nat /\
  ndarray_length a = (fst (ndarray_shape a) * snd (ndarray_shape a))%nat /\
  match a with
  | U16Array _ buf => Forall (fun v => is_uint16 v = true) buf
  | _ => True
  end.

(** The file that a successful [write_xre_tif] leaves at its path. *)
Definition written_file (shape : nat * nat) (samples : list Z)
           (slope offset : float) : TIFF.container :=
  TIFF.Container true
    (TIFF.directory (snd shape) (fst shape) (description_tag slope offset)
                    "py_xre_tiff")
    (TIFF.pack true samples).

(** [data.astype(np.float32) * metadata['slope'] + metadata['offset']]: the
    forward conversion with the calibration that [get_metadata] reports, as
    the callers of the module compute it to check a rescaled read. *)
Definition apply_calibration (md : metadata) (data : ndarray) : ndarray :=
  match data with
  | U16Array shape buf =>
      F32Array shape (map (to_physical (md_slope md) (md_offset md)) buf)
  | _ => data
  end.

(** A sample survives the conversion to float32 and back under the default
    calibration: a check on one sample. *)
Definition default_cycle_exact (v : Z) : bool :=
  to_stored Fmt.binary32 Float.one Float.zero
            (to_physical Float.one Float.zero v) =? v.

(** A file of two pixels without a description tag. *)
Definition bare_file : TIFF.container :=
  TIFF.Container true
    (delete TIFF.ImageDescription (TIFF.tags (example_file "")))
    [7; 0; 9; 0].

(** ** Notions used to bound the rescaled round trip *)

(** [2 ^ e] as a rational. *)
Definition bpow (e : Z) : Q := (2 ^ e)%Q.

(** A magnitude with the sign of a float. *)
Definition sgnQ (s : bool) (q : Q) : Q := if s then (- q)%Q else q.

(** The float that a rounded mantissa [m1] at exponent [E] makes. *)
Definition finish (prec emax : Z) (sx : bool) (m1 E : Z) : float :=
  match m1 with
  | Z0 => S754_zero sx
  | Zpos p =>
      if m1 =? 2 ^ prec then
        if E + 1 <=? emax - prec
        then S754_finite sx (Z.to_pos (2 ^ (prec - 1))) (E + 1)
        else S754_infinity sx
      else
        if E <=? emax - prec then S754_finite sx p E else S754_infinity sx
  | Zneg _ => S754_nan
  end.

(** [r] is the value [W] rounded to the format, up to one unit in the last
    place. *)
Definition rounded (prec emax : Z) (r : float) (W : Q) : Prop :=
  (Qabs (Float.to_Q r - W)
   <= bpow (1 - prec) * Qabs (Float.to_Q r) + bpow (3 - emax - prec))%Q.

(** The value of the decimal [d * 10 ^ x]. *)
Definition decimal_value (d x : Z) : Q :=
  if 0 <=? x then inject_Z (d * 10 ^ x)
  else (inject_Z d / inject_Z (10 ^ (- x)))%Q.

(** A calibration that the float32 arithmetic and the seven-digit
    description both keep: a finite offset, a slope whose magnitude lies
    between 2^-100 and 2^100, and an offset of at most 262144 slopes. *)
Definition calibration_in_range (slope offset : float) : bool :=
  Float.is_finite offset &&
  Qle_bool (2 ^ (-100)) (Qabs (Float.to_Q slope)) &&
  Qle_bool (Qabs (Float.to_Q slope)) (2 ^ 100) &&
  Qle_bool (Qabs (Float.to_Q offset)) (262144 * Qabs (Float.to_Q slope)).

(** The element is stored without wrapping: its float32 quotient
    [(x - offset) / slope] is finite and strictly between -1 and 65536. *)
Definition stored_in_range (slope offset x : float) : bool :=
  let q := quotient Fmt.binary32 slope offset x in
  Float.is_finite q &&
  negb (Qle_bool (Float.to_Q q) (-1)) && negb (Qle_bool 65536 (Float.to_Q q)).

(** The Python floats 0.01 and 50.0, the calibration of the repository's
    own rescale test, and the float32 values 69.1 and 123.5. *)
Definition py_0_01 : float := S754_finite false 5764607523034235 (-59).
Definition py_50 : float := S754_finite false 7036874417766400 (-47).
Definition f32_69_1 : float := S754_finite false 9057075 (-17).
Definition f32_123_5 : float := S754_finite false 16187392 (-17).

(** * Properties *)

Ltac tag_ids :=
  unfold TIFF.ImageWidth, TIFF.ImageLength, TIFF.BitsPerSample,
    TIFF.Compression, TIFF.PhotometricInterpretation, TIFF.ImageDescription,
    TIFF.StripOffsets, TIFF.SamplesPerPixel, TIFF.RowsPerStrip,
    TIFF.StripByteCounts, TIFF.Software in *.

Ltac leb_true := symmetry; apply Z.leb_le.
Ltac leb_false := symmetry; apply Z.leb_gt.

(** ** The float literals *)

Lemma float_literals :
  Float.one = Float.of_Z Fmt.binary64 1 /\
  Float.zero = Float.of_Z Fmt.binary64 0 /\
  one32 = Float.of_Z Fmt.binary32 1 /\
  f32_3 = Float.of_Z Fmt.binary32 3 /\
  f32_minus_10 = Float.of_Z Fmt.binary32 (-10) /\
  f32_65535 = Float.of_Z Fmt.binary32 65535 /\
  f32_70000 = Float.of_Z Fmt.binary32 70000 /\
  f32_123456792 = Float.of_Z Fmt.binary32 123456792 /\
  f32_123456792 = np.scalar Fmt.binary32 py_123456789 /\
  f32_100000232 = Float.of_Z Fmt.binary32 100000232 /\
  py.float_of_string "5.3" = py.Ok py_5_3.
Proof. vm_compute. repeat split. Qed.

(** ** The container *)

Lemma check_directory_directory w h d s :
  (0 < w)%nat -> (0 < h)%nat ->
  TIFF.check_directory (TIFF.directory w h d s) = Some (w, h).
Proof.
  intros Hw Hh. unfold TIFF.check_directory, TIFF.directory. tag_ids.
  simplify_map_eq. cbn.
  replace (0 <? Z.of_nat w) with true by (symmetry; apply Z.ltb_lt; lia).
  replace (0 <? Z.of_nat h) with true by (symmetry; apply Z.ltb_lt; lia).
  cbn. by rewrite !Nat2Z.id.
Qed.

Lemma directory_description w h d s :
  TIFF.directory w h d s !! TIFF.ImageDescription = Some (TIFF.Ascii d).
Proof. unfold TIFF.directory. tag_ids. by simplify_map_eq. Qed.

Lemma length_pack le buf : length (TIFF.pack le buf) = (2 * length buf)%nat.
Proof.
  induction buf as [|v buf IH]; [done|].
  unfold TIFF.pack in *. cbn [flat_map]. rewrite length_app, IH.
  unfold TIFF.sample_bytes. destruct le; cbn; lia.
Qed.

Lemma unpack_sample le v rest :
  is_uint16 v = true ->
  TIFF.unpack le (TIFF.sample_bytes le v ++ rest) = v :: TIFF.unpack le rest.
Proof.
  intros Hv. unfold is_uint16 in Hv. apply andb_true_iff in Hv as [H0 H1].
  apply Z.leb_le in H0, H1.
  assert (Hs : v mod 256 + 256 * ((v / 256) mod 256) = v).
  { rewrite (Z.mod_small (v / 256)).
    - pose proof (Z.div_mod v 256). lia.
    - split; [apply Z.div_pos; lia | apply Z.div_lt_upper_bound; lia]. }
  unfold TIFF.sample_bytes. destruct le; cbn [app TIFF.unpack]; f_equal; lia.
Qed.

Lemma unpack_pack le buf :
  Forall (fun v => is_uint16 v = true) buf ->
  TIFF.unpack le (TIFF.pack le buf) = buf.
Proof.
  induction 1 as [|v buf Hv _ IH]; [done|].
  unfold TIFF.pack in *. cbn [flat_map].
  by rewrite unpack_sample, IH.
Qed.

(** ** Writing and reading back *)

Lemma write_uint16_result path shape buf rescale slope offset fs :
  write_xre_tif path (U16Array shape buf) rescale slope offset fs =
  (py.Ok tt,
   <[path := TIFF.Container true
               (TIFF.directory (snd shape) (fst shape)
                               (description_tag slope offset) "py_xre_tiff")
               (TIFF.pack true buf)]> fs).
Proof.
  unfold write_xre_tif, bind, lift, convert_to_u16.
  cbn [ndarray_dtype dtype_eqb negb]. rewrite andb_false_r. reflexivity.
Qed.

Lemma read_written path w h d s bytes le fs :
  (0 < w)%nat -> (0 < h)%nat -> length bytes = (2 * w * h)%nat ->
  read_xre_tif path false
    (<[path := TIFF.Container le (TIFF.directory w h d s) bytes]> fs) =
  (py.Ok (U16Array (h, w) (TIFF.unpack le bytes)),
   <[path := TIFF.Container le (TIFF.directory w h d s) bytes]> fs).
Proof.
  intros Hw Hh Hlen. unfold read_xre_tif, bind, PIL.open.
  rewrite lookup_insert_eq. cbn [TIFF.tags TIFF.strip TIFF.little_endian].
  rewrite check_directory_directory by done.
  unfold lift, PIL.to_array. cbn [Image.size Image.raw Image.raw_le].
  rewrite Hlen, Nat.eqb_refl. reflexivity.
Qed.

Lemma float_to_uint16_range x : is_uint16 (np.float_to_uint16 x) = true.
Proof.
  unfold np.float_to_uint16, is_uint16.
  destruct (Float.trunc x) as [t|]; [|reflexivity].
  destruct ((- 2 ^ 31 <=? t) && (t <? 2 ^ 31)); [|reflexivity].
  pose proof (Z.mod_pos_bound t 65536 eq_refl).
  apply andb_true_iff. split; apply Z.leb_le; lia.
Qed.

Lemma Forall_map_float_to_uint16 (g : float -> float) buf :
  Forall (fun v => is_uint16 v = true)
         (map (fun x => np.float_to_uint16 (g x)) buf).
Proof.
  induction buf as [|x buf IH]; cbn [map]; constructor;
    [apply float_to_uint16_range | exact IH].
Qed.

Lemma write_float_result path data rescale slope offset fs samples :
  convert_to_u16 data rescale slope offset = py.Ok (ndarray_shape data, samples) ->
  Forall (fun v => is_uint16 v = true) samples ->
  let out := write_xre_tif path data rescale slope offset fs in
  fst out = py.Ok tt /\
  stored_samples (snd out) path = Some samples /\
  stored_description (snd out) path = Some (description_tag slope offset).
Proof.
  intros Hc Hs out. subst out. unfold write_xre_tif, bind, lift.
  rewrite Hc. cbn [fst snd PIL.save]. unfold PIL.save. cbn [fst snd].
  unfold stored_samples, stored_description. rewrite lookup_insert_eq.
  cbn [TIFF.tags TIFF.strip TIFF.little_endian PIL.fromarray Image.raw Image.size].
  by rewrite unpack_pack, directory_description.
Qed.


(** C1: a uint16 pixel grid written without rescaling and read back without
    rescaling is returned unchanged, element for element, whatever slope and
    offset were passed to the writer. *)
Theorem roundtrip_without_rescale path shape buf slope offset fs :
  u16_grid_ok shape buf ->
  exists fs',
    write_xre_tif path (U16Array shape buf) false slope offset fs =
      (py.Ok tt, fs') /\
    read_xre_tif path false fs' = (py.Ok (U16Array shape buf), fs').
Proof.
  intros (Hh & Hw & Hlen & Hbuf). destruct shape as [h w]. cbn [fst snd] in *.
  eexists. split; [apply write_uint16_result|]. cbn [fst snd].
  rewrite read_written; [|done|done|rewrite length_pack; lia].
  by rewrite unpack_pack.
Qed.

Lemma roundtrip_without_rescale_witness :
  exists fs',
    write_xre_tif "scan.tif" (U16Array (1, 2)%nat [0; 65535]) false
                  Float.one Float.zero ∅ = (py.Ok tt, fs') /\
    read_xre_tif "scan.tif" false fs' =
      (py.Ok (U16Array (1, 2)%nat [0; 65535]), fs').
Proof.
  apply (roundtrip_without_rescale "scan.tif" (1, 2)%nat [0; 65535]).
  unfold u16_grid_ok; cbn; repeat split; try lia; repeat constructor.
Defined.

(** C3, as stated, fails: a uint16 grid written with [rescale=True] and slope
    0.0 is accepted and the file is written. *)
Lemma zero_slope_uint16_not_rejected :
  ~ zero_slope_rejected (U16Array (1, 1)%nat [5]).
Proof.
  intros H. specialize (H "out.tif" ∅).
  rewrite write_uint16_result in H. discriminate H.
Qed.

(** C3, amended: for every grid whose element type is not uint16, a write
    with [rescale=True], slope 0.0 and offset 0.0 fails with the calibration
    error before anything is written: the files are as they were. *)
Theorem zero_slope_float_rejected data :
  ndarray_dtype data <> uint16 -> zero_slope_rejected data.
Proof.
  intros Hd path fs. unfold write_xre_tif, bind, lift, convert_to_u16.
  destruct data; cbn in *; congruence.
Qed.

Lemma zero_slope_float_rejected_witness :
  zero_slope_rejected (F32Array (1, 1)%nat [f32_3]).
Proof. apply zero_slope_float_rejected. cbn. discriminate. Defined.

(** C10: two files that differ at most in the image-description tag (its
    text or its presence) give equal results when read without rescaling. *)
Theorem read_without_rescale_ignores_description path fs1 fs2 c1 c2 :
  fs1 !! path = Some c1 -> fs2 !! path = Some c2 ->
  TIFF.little_endian c1 = TIFF.little_endian c2 ->
  TIFF.strip c1 = TIFF.strip c2 ->
  delete TIFF.ImageDescription (TIFF.tags c1) =
    delete TIFF.ImageDescription (TIFF.tags c2) ->
  fst (read_xre_tif path false fs1) = fst (read_xre_tif path false fs2).
Proof.
  intros H1 H2 Hle Hstrip Htags.
  assert (Hk : forall k, k <> TIFF.ImageDescription ->
                         TIFF.tags c1 !! k = TIFF.tags c2 !! k).
  { intros k Hk.
    rewrite <- (lookup_delete_ne (TIFF.tags c1) TIFF.ImageDescription k) by done.
    rewrite Htags. by rewrite lookup_delete_ne. }
  assert (Hc : TIFF.check_directory (TIFF.tags c1) =
               TIFF.check_directory (TIFF.tags c2)).
  { unfold TIFF.check_directory. rewrite !Hk by (tag_ids; lia). done. }
  unfold read_xre_tif, bind, PIL.open. rewrite H1, H2, Hc.
  destruct (TIFF.check_directory (TIFF.tags c2)) as [[w h]|]; [|done].
  unfold lift, PIL.to_array. cbn [Image.size Image.raw Image.raw_le]. rewrite Hle, Hstrip.
  by destruct (_ =? _)%nat.
Qed.

Lemma read_without_rescale_ignores_description_witness :
  fst (read_xre_tif "scan.tif" false
         {["scan.tif"%string := example_file "slope = 2.000000E+00"]}) =
  fst (read_xre_tif "scan.tif" false
         {["scan.tif"%string :=
             TIFF.Container true
               (delete TIFF.ImageDescription
                       (TIFF.tags (example_file "offset = e")))
               [7; 0; 9; 0]]}).
Proof.
  eapply read_without_rescale_ignores_description;
    [apply lookup_singleton_eq|apply lookup_singleton_eq| | |];
    vm_compute; reflexivity.
Defined.

(** ** Floats: truncation, comparison and clipping *)

Lemma digits2_pos_bounds m :
  2 ^ (Zpos (digits2_pos m) - 1) <= Zpos m < 2 ^ Zpos (digits2_pos m).
Proof.
  induction m as [p IH|p IH|]; cbn [digits2_pos]; [| |cbn; lia].
  all: rewrite Pos2Z.inj_succ.
  all: replace (Z.succ (Z.pos (digits2_pos p)) - 1)
         with (Z.succ (Z.pos (digits2_pos p) - 1)) by lia.
  all: rewrite !Z.pow_succ_r by lia.
  all: set (a := 2 ^ (Z.pos (digits2_pos p) - 1)) in *.
  all: set (b := 2 ^ Z.pos (digits2_pos p)) in *.
  all: lia.
Qed.

Lemma Qtrunc_inject_Z z : Qtrunc (inject_Z z) = z.
Proof.
  unfold Qtrunc. destruct (Qle_bool 0 (inject_Z z)).
  - apply Qfloor_Z.
  - apply Qceiling_Z.
Qed.

Lemma cond_Zopp_mul s a b : cond_Zopp s a * b = cond_Zopp s (a * b).
Proof. destruct s; cbn; lia. Qed.

Lemma Qtrunc_Qmake s m d :
  Qtrunc (Qmake (cond_Zopp s (Zpos m)) d) = cond_Zopp s (Zpos m / Zpos d).
Proof.
  unfold Qtrunc, Qle_bool. cbn [Qnum Qden].
  destruct s; cbn [cond_Zopp].
  - replace (0 * Z.pos d <=? - Z.pos m * 1) with false
      by (symmetry; apply Z.leb_gt; lia).
    unfold Qceiling, Qfloor, Qopp. cbn [Qnum Qden].
    by rewrite Z.opp_involutive.
  - replace (0 * Z.pos d <=? Z.pos m * 1) with true
      by (symmetry; apply Z.leb_le; lia).
    reflexivity.
Qed.

Lemma trunc_to_Q x t :
  Float.trunc x = Some t -> Qtrunc (Float.to_Q x) = t.
Proof.
  destruct x as [s|s| |s m e]; cbn [Float.trunc Float.to_Q]; intros [= <-].
  - reflexivity.
  - destruct e as [|p|p].
    + rewrite Qtrunc_inject_Z, Z.shiftl_0_r. by rewrite Z.mul_1_r.
    + rewrite Qtrunc_inject_Z, Z.shiftl_mul_pow2 by lia. apply cond_Zopp_mul.
    + rewrite Qtrunc_Qmake. f_equal.
      change (Z.shiftl (Z.pos m) (Z.neg p)) with (Z.shiftr (Z.pos m) (Z.pos p)).
      rewrite Z.shiftr_div_pow2 by lia. by rewrite Pos2Z.inj_pow.
Qed.

Lemma canonical_digits prec emax m e :
  canonical_mantissa prec emax m e = true ->
  Zpos (digits2_pos m) <= prec /\
  (3 - emax - prec < e -> Zpos (digits2_pos m) = prec).
Proof.
  unfold canonical_mantissa, fexp, emin. intros H. apply Z.eqb_eq in H. lia.
Qed.

Lemma float_to_uint16_small x t :
  Float.trunc x = Some t -> 0 <= t <= 65535 -> np.float_to_uint16 x = t.
Proof.
  intros Ht Hr. unfold np.float_to_uint16. rewrite Ht.
  replace (- 2 ^ 31 <=? t) with true by (symmetry; apply Z.leb_le; lia).
  replace (t <? 2 ^ 31) with true by (symmetry; apply Z.ltb_lt; lia).
  cbn [andb]. apply Z.mod_small. lia.
Qed.

Lemma trunc_neg_exp m p :
  Float.trunc (S754_finite false m (Zneg p)) = Some (Zpos m / 2 ^ Zpos p).
Proof.
  cbn [Float.trunc cond_Zopp]. f_equal.
  change (Z.shiftl (Z.pos m) (Z.neg p)) with (Z.shiftr (Z.pos m) (Z.pos p)).
  apply Z.shiftr_div_pow2. lia.
Qed.

Section Clip.
Variables (prec emax : Z) (mH : positive).
Hypothesis Hprec : 16 < prec.
Hypothesis Hemax : 0 < emax.
Hypothesis HmH : Zpos mH = 65535 * 2 ^ (prec - 16).

Lemma clip_hi :
  np.float_to_uint16 (S754_finite false mH (16 - prec)) = 65535.
Proof.
  destruct (16 - prec) as [|p|p] eqn:Hp; try lia.
  apply float_to_uint16_small; [|lia].
  rewrite trunc_neg_exp, HmH. f_equal.
  replace (Z.pos p) with (prec - 16) by lia. apply Z.div_mul.
  apply Z.pow_nonzero; lia.
Qed.

Lemma clip_positive_finite m e :
  bounded prec emax m e = true ->
  np.float_to_uint16
    (np.minimum (S754_finite false m e) (S754_finite false mH (16 - prec))) =
  Qtrunc (Qclamp 0 65535 (Float.to_Q (S754_finite false m e))).
Proof.
  intros Hb. apply andb_true_iff in Hb as [Hc _].
  apply canonical_digits in Hc as [Hd Hn].
  pose proof (digits2_pos_bounds m) as Hm.
  assert (HK : 2 ^ prec = 65536 * 2 ^ (prec - 16)).
  { replace prec with ((prec - 16) + 16) at 1 by lia.
    rewrite Z.pow_add_r by lia. change (2 ^ 16) with 65536. ring. }
  assert (HK2 : 2 ^ (prec - 1) = 32768 * 2 ^ (prec - 16)).
  { replace (prec - 1) with ((prec - 16) + 15) by lia.
    rewrite Z.pow_add_r by lia. change (2 ^ 15) with 32768. ring. }
  assert (Hmlt : Zpos m < 2 ^ prec).
  { eapply Z.lt_le_trans; [apply Hm|]. apply Z.pow_le_mono_r; lia. }
  assert (HK1 : 2 ^ 1 <= 2 ^ (prec - 16)) by (apply Z.pow_le_mono_r; lia).
  change (2 ^ 1) with 2 in HK1.
  pose proof clip_hi as Hhi.
  unfold np.minimum. cbn [Float.is_nan]. unfold Float.ltb, SFltb in *.
  cbn [SFcompare].
  destruct (Z.compare_spec e (16 - prec)) as [He|He|He].
  - (* same exponent: the mantissas decide *)
    subst e. destruct (16 - prec) as [|p|p] eqn:Hp; try lia.
    assert (H2p : 2 ^ Zpos p = 2 ^ (prec - 16)) by (f_equal; clear - Hp; lia).
    unfold Qclamp, Qle_bool. cbn [Float.to_Q cond_Zopp Qnum Qden].
    rewrite Pos2Z.inj_pow, H2p.
    rewrite Pos.compare_cont_spec. cbn [Pos.switch_Eq].
    rewrite HK in Hmlt. clear Hm Hn Hd HK HK2.
    set (K := 2 ^ (prec - 16)) in *. clearbody K.
    replace (Z.pos m * 1 <=? 0 * K) with false by (leb_false; lia).
    destruct (Pos.compare_spec m mH) as [Hm'|Hm'|Hm']; cbn [Pos.switch_Eq]; cbv beta iota.
    + subst m. replace (65535 * K <=? Z.pos mH * 1) with true by (leb_true; lia).
      rewrite Hhi. reflexivity.
    + assert (Zpos m < Zpos mH) by lia.
      replace (65535 * K <=? Z.pos m * 1) with false by (leb_false; lia).
      pose proof (trunc_to_Q (S754_finite false m (Z.neg p)) _ (trunc_neg_exp m p)) as Ht.
      cbn [Float.to_Q cond_Zopp] in Ht. rewrite H2p in Ht. rewrite Ht.
      apply float_to_uint16_small; [by rewrite trunc_neg_exp, H2p|].
      split; [apply Z.div_pos; lia|].
      enough (Z.pos m / K < 65535) by lia. apply Z.div_lt_upper_bound; lia.
    + assert (Zpos mH < Zpos m) by lia.
      replace (65535 * K <=? Z.pos m * 1) with true by (leb_true; lia).
      rewrite Hhi. reflexivity.
  - (* smaller exponent: the value is below 2^15 *)
    destruct e as [|p|p]; try lia.
    assert (H2p : 2 * 2 ^ (prec - 16) <= 2 ^ Zpos p).
    { replace (2 * 2 ^ (prec - 16)) with (2 ^ (prec - 15)).
      - apply Z.pow_le_mono_r; lia.
      - replace (prec - 15) with (Z.succ (prec - 16)) by lia.
        apply Z.pow_succ_r. lia. }
    replace (match Z.neg p ?= 16 - prec with Lt => true | _ => false end)
      with true by (destruct (Z.compare_spec (Z.neg p) (16 - prec)); [lia|done|lia]).
    cbv beta iota.
    pose proof (trunc_to_Q (S754_finite false m (Z.neg p)) _ (trunc_neg_exp m p)) as Ht.
    unfold Qclamp, Qle_bool. cbn [Float.to_Q cond_Zopp Qnum Qden] in *.
    rewrite Pos2Z.inj_pow in *.
    rewrite HK in Hmlt. clear Hm Hn Hd HK HK2.
    set (K := 2 ^ (prec - 16)) in *. clearbody K.
    set (P := 2 ^ Z.pos p) in *.
    replace (Z.pos m * 1 <=? 0 * P) with false by (leb_false; lia).
    replace (65535 * P <=? Z.pos m * 1) with false by (leb_false; lia).
    rewrite Ht.
    apply float_to_uint16_small; [by rewrite trunc_neg_exp|]. fold P. clearbody P.
    split; [apply Z.div_pos; lia|].
    enough (Z.pos m / P < 65535) by lia. apply Z.div_lt_upper_bound; lia.
  - (* larger exponent: the value is at least 2^16 *)
    assert (Hdig : Zpos (digits2_pos m) = prec) by (apply Hn; lia).
    rewrite Hdig, HK2 in Hm.
    replace (match e ?= 16 - prec with Lt => true | _ => false end)
      with false by (destruct (Z.compare_spec e (16 - prec)); [lia|lia|done]).
    cbv beta iota.
    rewrite Hhi. unfold Qclamp, Qle_bool.
    destruct e as [|p|p]; cbn [Float.to_Q cond_Zopp Qnum Qden inject_Z].
    + clear Hn Hd HK HK2 Hmlt Hdig. set (K := 2 ^ (prec - 16)) in *. clearbody K.
      change (2 ^ 0) with 1.
      replace (Z.pos m * 1 * 1 <=? 0 * 1) with false by (leb_false; lia).
      replace (65535 * 1 <=? Z.pos m * 1 * 1) with true by (leb_true; lia).
      reflexivity.
    + assert (0 < 2 ^ Zpos p) by (apply Z.pow_pos_nonneg; lia).
      clear Hn Hd HK HK2 Hmlt Hdig. set (K := 2 ^ (prec - 16)) in *. clearbody K.
      set (P := 2 ^ Z.pos p) in *. clearbody P.
      replace (Z.pos m * P * 1 <=? 0 * 1) with false by (leb_false; nia).
      replace (65535 * 1 <=? Z.pos m * P * 1) with true by (leb_true; nia).
      reflexivity.
    + rewrite Pos2Z.inj_pow.
      assert (H2p : 2 * 2 ^ Zpos p <= 2 ^ (prec - 16)).
      { replace (2 * 2 ^ Z.pos p) with (2 ^ Z.succ (Z.pos p))
          by (apply Z.pow_succ_r; lia).
        apply Z.pow_le_mono_r; lia. }
      assert (0 < 2 ^ Zpos p) by (apply Z.pow_pos_nonneg; lia).
      clear Hn Hd HK HK2 Hmlt Hdig. set (K := 2 ^ (prec - 16)) in *. clearbody K.
      set (P := 2 ^ Z.pos p) in *. clearbody P.
      replace (Z.pos m * 1 <=? 0 * P) with false by (leb_false; lia).
      replace (65535 * P <=? Z.pos m * 1) with true by (leb_true; lia).
      reflexivity.
Qed.
End Clip.

Lemma Qclamp_nonpos z d :
  z <= 0 -> Qtrunc (Qclamp 0 65535 (Qmake z d)) = 0.
Proof.
  intros Hz. unfold Qclamp, Qle_bool. cbn [Qnum Qden].
  replace (z * 1 <=? 0 * Z.pos d) with true by (leb_true; lia).
  reflexivity.
Qed.

Lemma clip_to_stored_spec f x :
  f = Fmt.binary32 \/ f = Fmt.binary64 ->
  Float.valid f x = true -> Float.is_nan x = false ->
  clip_to_stored f x = clamp_trunc_spec x.
Proof.
  intros Hf Hv Hn. unfold clip_to_stored, np.clip1.
  destruct x as [s|s| |s m e]; try discriminate Hn.
  - destruct Hf; subst f; destruct s; reflexivity.
  - destruct Hf; subst f; destruct s; reflexivity.
  - destruct s.
    + (* negative: clipped to zero *)
      transitivity 0; [destruct Hf; subst f; reflexivity|].
      unfold clamp_trunc_spec. cbn [Float.to_Q cond_Zopp]. symmetry.
      destruct e as [|p|p]; [| |apply Qclamp_nonpos; lia].
      * apply (Qclamp_nonpos _ 1). lia.
      * apply (Qclamp_nonpos _ 1).
        pose proof (Z.pow_pos_nonneg 2 (Z.pos p)). nia.
    + unfold clamp_trunc_spec.
      destruct Hf; subst f.
      * change (np.maximum _ _) with (S754_finite false m e).
        apply (clip_positive_finite 24 128 16776960); [lia|lia|reflexivity|apply Hv].
      * change (np.maximum _ _) with (S754_finite false m e).
        apply (clip_positive_finite 53 1024 9007061815787520);
          [lia|lia|reflexivity|apply Hv].
Qed.

Lemma unrescaled_write path data slope offset fs :
  ndarray_ok data ->
  let out := write_xre_tif path data false slope offset fs in
  fst out = py.Ok tt /\
  stored_samples (snd out) path = Some (unrescaled_samples data) /\
  Forall (fun v => is_uint16 v = true) (unrescaled_samples data).
Proof.
  intros Hok out.
  assert (Hu : Forall (fun v => is_uint16 v = true) (unrescaled_samples data)).
  { destruct data; cbn [unrescaled_samples ndarray_ok] in *;
      [done|apply Forall_map_float_to_uint16..]. }
  destruct (write_float_result path data false slope offset fs
              (unrescaled_samples data)) as (H1 & H2 & _);
    [by destruct data|done|done].
Qed.

(** C4: without rescaling, a uint16 grid is stored as it is; a float grid is
    stored as uint16 samples, every element that is a number as its value
    clamped into [[0, 65535]] and truncated toward zero; the stored samples
    are the same for every slope and offset. *)
Theorem store_without_rescale path data slope offset fs :
  ndarray_ok data ->
  let out := write_xre_tif path data false slope offset fs in
  fst out = py.Ok tt /\
  (forall slope' offset',
     stored_samples (snd (write_xre_tif path data false slope' offset' fs))
                    path = stored_samples (snd out) path) /\
  match data with
  | U16Array _ buf => stored_samples (snd out) path = Some buf
  | F32Array _ buf | F64Array _ buf =>
      exists samples,
        stored_samples (snd out) path = Some samples /\
        length samples = length buf /\
        Forall (fun v => is_uint16 v = true) samples /\
        forall i x, buf !! i = Some x -> Float.is_nan x = false ->
                    samples !! i = Some (clamp_trunc_spec x)
  end.
Proof.
  intros Hok out.
  destruct (unrescaled_write path data slope offset fs Hok) as (H1 & H2 & H3).
  fold out in H1, H2. split; [done|]. split.
  { intros slope' offset'.
    destruct (unrescaled_write path data slope' offset' fs Hok) as (_ & H & _).
    by rewrite H, H2. }
  destruct data as [shape buf|shape buf|shape buf];
    cbn [unrescaled_samples ndarray_ok] in *; [done| |].
  - eexists. split; [exact H2|]. split; [apply length_map|]. split; [done|].
    intros i x Hi Hn. change (map ?f ?l) with (f <$> l).
    rewrite list_lookup_fmap, Hi. cbn. f_equal.
    apply clip_to_stored_spec; [by left| |done].
    eapply Forall_lookup_1 in Hok; eauto.
  - eexists. split; [exact H2|]. split; [apply length_map|]. split; [done|].
    intros i x Hi Hn. change (map ?f ?l) with (f <$> l).
    rewrite list_lookup_fmap, Hi. cbn. f_equal.
    apply clip_to_stored_spec; [by right| |done].
    eapply Forall_lookup_1 in Hok; eauto.
Qed.

Lemma store_without_rescale_witness :
  let out := write_xre_tif "scan.tif"
               (F32Array (1, 2)%nat [f32_minus_10; f32_70000]) false
               f32_3 f32_3 ∅ in
  fst out = py.Ok tt /\
  (forall slope' offset',
     stored_samples
       (snd (write_xre_tif "scan.tif"
               (F32Array (1, 2)%nat [f32_minus_10; f32_70000]) false
               slope' offset' ∅)) "scan.tif" =
     stored_samples (snd out) "scan.tif") /\
  exists samples,
    stored_samples (snd out) "scan.tif" = Some samples /\
    length samples = length [f32_minus_10; f32_70000] /\
    Forall (fun v => is_uint16 v = true) samples /\
    forall i x, [f32_minus_10; f32_70000] !! i = Some x ->
                Float.is_nan x = false ->
                samples !! i = Some (clamp_trunc_spec x).
Proof.
  apply (store_without_rescale "scan.tif"
           (F32Array (1, 2)%nat [f32_minus_10; f32_70000])).
  repeat constructor.
Defined.

(** The example of the specification: -10.0 and 70000.0 are stored as 0 and
    65535. *)
Lemma store_without_rescale_example :
  stored_samples
    (snd (write_xre_tif "scan.tif"
            (F32Array (1, 2)%nat [f32_minus_10; f32_70000]) false
            Float.one Float.zero ∅)) "scan.tif" = Some [0; 65535].
Proof. vm_compute. reflexivity. Qed.

(** ** The inverse conversion *)

Lemma to_stored_quotient f slope offset x :
  to_stored f slope offset x = np.float_to_uint16 (quotient f slope offset x).
Proof. reflexivity. Qed.

(** Where the truncated quotient is a uint16, the rescaled write stores it,
    as the specification says; a zero slope is rejected. *)
Lemma inverse_rescale_in_range path data slope offset fs :
  ndarray_dtype data <> uint16 ->
  let f := np.fmt_of (ndarray_dtype data) in
  let out := write_xre_tif path data true slope offset fs in
  if Float.eqb slope Float.zero then
    out = (py.Raise (py.ValueError "Slope cannot be zero when rescaling"), fs)
  else
    fst out = py.Ok tt /\
    exists samples,
      stored_samples (snd out) path = Some samples /\
      length samples = length (float_elements data) /\
      forall i x, float_elements data !! i = Some x ->
        let q := quotient f slope offset x in
        Float.is_finite q = true ->
        0 <= Qtrunc (Float.to_Q q) <= 65535 ->
        samples !! i = Some (Qtrunc (Float.to_Q q)) /\
        spec_to_stored (Float.to_Q q) = Qtrunc (Float.to_Q q).
Proof.
  intros Hd f out. destruct (Float.eqb slope Float.zero) eqn:Hz.
  - subst out. unfold write_xre_tif, bind, lift, convert_to_u16.
    destruct data; cbn in *; [congruence| |]; by rewrite Hz.
  - assert (Hc : convert_to_u16 data true slope offset =
                 py.Ok (ndarray_shape data,
                        map (to_stored f slope offset) (float_elements data))).
    { unfold convert_to_u16. destruct data; cbn in *; [congruence| |]; by rewrite Hz. }
    destruct (write_float_result path data true slope offset fs _ Hc)
      as (H1 & H2 & _); [apply Forall_map_float_to_uint16|].
    split; [done|]. eexists. split; [exact H2|]. split; [apply length_map|].
    intros i x Hi q Hfin Hr. split; [|unfold spec_to_stored; lia].
    change (map ?f ?l) with (f <$> l).
    rewrite list_lookup_fmap, Hi. cbn. f_equal.
    rewrite to_stored_quotient. fold q.
    destruct (Float.trunc q) as [t|] eqn:Ht.
    + pose proof (trunc_to_Q _ _ Ht) as Hq. rewrite Hq in *.
      by apply float_to_uint16_small.
    + destruct q; discriminate.
Qed.

(** C2: the code at the failing input.  For the float32 element 70000.0 with
    slope 1.0 and offset 0.0 the quotient is 70000; the specification's
    conversion clamps it to 65535, the rescaled write stores 4464. *)
Theorem rescaled_store_wraps_out_of_range :
  quotient Fmt.binary32 Float.one Float.zero f32_70000 = f32_70000 /\
  spec_to_stored (Float.to_Q f32_70000) = 65535 /\
  stored_samples
    (snd (write_xre_tif "scan.tif" (F32Array (1, 1)%nat [f32_70000]) true
                        Float.one Float.zero ∅)) "scan.tif" = Some [4464].
Proof. vm_compute. repeat split. Qed.

(** ** The calibration text: formatting *)

Lemma pow10_pos k : 0 <= k -> 0 < 10 ^ k.
Proof. intros. apply Z.pow_pos_nonneg; lia. Qed.

Lemma log10_up_spec fuel : forall n d k,
  0 < d <= n -> n < d * 10 ^ Z.of_nat fuel ->
  let r := py.log10_up fuel n d k in
  k <= r /\ d * 10 ^ (r - k) <= n < d * 10 ^ (r - k + 1).
Proof.
  induction fuel as [|fuel IH]; intros n d k Hd Hn; cbn [py.log10_up].
  - cbn in Hn. lia.
  - destruct (Z.leb_spec (d * 10) n) as [Hle|Hgt].
    + specialize (IH n (d * 10) (k + 1)).
      destruct IH as [IH1 IH2]; [lia| |].
      { rewrite Nat2Z.inj_succ, Z.pow_succ_r in Hn by lia. lia. }
      cbv zeta. set (r := py.log10_up fuel n (d * 10) (k + 1)) in *.
      split; [lia|].
      replace (r - k) with (Z.succ (r - (k + 1))) by lia.
      replace (Z.succ (r - (k + 1)) + 1) with (Z.succ (r - (k + 1) + 1)) by lia.
      rewrite !Z.pow_succ_r by lia.
      set (a := 10 ^ (r - (k + 1))) in *. set (b := 10 ^ (r - (k + 1) + 1)) in *.
      lia.
    + cbv zeta. rewrite Z.sub_diag. cbn. lia.
Qed.

Lemma log10_down_spec fuel : forall n d k,
  0 < n -> 0 < d -> d <= n * 10 ^ Z.of_nat fuel ->
  let r := py.log10_down fuel n d k in
  r <= k /\ d <= n * 10 ^ (k - r) /\ (r < k -> n * 10 ^ (k - r - 1) < d).
Proof.
  induction fuel as [|fuel IH]; intros n d k Hn Hd Hf; cbn [py.log10_down].
  - cbv zeta. rewrite Z.sub_diag. cbn in *. lia.
  - destruct (Z.leb_spec d n) as [Hle|Hgt].
    + cbv zeta. rewrite Z.sub_diag. cbn. lia.
    + specialize (IH (n * 10) d (k - 1)).
      destruct IH as (IH1 & IH2 & IH3); [lia|lia| |].
      { rewrite Nat2Z.inj_succ, Z.pow_succ_r in Hf by lia. lia. }
      cbv zeta. set (r := py.log10_down fuel (n * 10) d (k - 1)) in *.
      split; [lia|]. split.
      * replace (k - r) with (Z.succ (k - 1 - r)) by lia.
        rewrite Z.pow_succ_r by lia.
        set (a := 10 ^ (k - 1 - r)) in *. lia.
      * intros _. destruct (Z.eq_dec r (k - 1)) as [->|Hne].
        -- replace (k - (k - 1) - 1) with 0 by lia. cbn. lia.
        -- specialize (IH3 ltac:(lia)).
           replace (k - r - 1) with (Z.succ (k - 1 - r - 1)) by lia.
           rewrite Z.pow_succ_r by lia.
           set (a := 10 ^ (k - 1 - r - 1)) in *. lia.
Qed.

Lemma pow2_le_pow10 k : 0 <= k -> 2 ^ k <= 10 ^ k.
Proof. intros. apply Z.pow_le_mono_l. lia. Qed.

Lemma lt_pow10_log2 n : 0 < n -> n < 10 ^ Z.of_nat (S (Z.to_nat (Z.log2 n))).
Proof.
  intros Hn. pose proof (Z.log2_spec n Hn) as [_ H].
  pose proof (Z.log2_nonneg n).
  rewrite Nat2Z.inj_succ, Z2Nat.id by lia.
  eapply Z.lt_le_trans; [exact H|]. apply pow2_le_pow10. lia.
Qed.

Lemma ilog10_spec n d : 0 < n -> 0 < d -> decade n d (py.ilog10 n d).
Proof.
  intros Hn Hd. unfold py.ilog10, decade.
  destruct (Z.leb_spec d n) as [Hle|Hgt].
  - destruct (log10_up_spec (S (Z.to_nat (Z.log2 n))) n d 0) as [H1 H2]; [lia| |].
    { pose proof (lt_pow10_log2 n Hn).
      set (a := 10 ^ _) in *. nia. }
    set (r := py.log10_up _ _ _ _) in *.
    replace (0 <=? r) with true by (symmetry; apply Z.leb_le; lia).
    rewrite Z.sub_0_r in H2. exact H2.
  - destruct (log10_down_spec (S (Z.to_nat (Z.log2 d))) n d 0) as (H1 & H2 & H3);
      [lia|lia| |].
    { pose proof (lt_pow10_log2 d Hd).
      set (a := 10 ^ _) in *. nia. }
    set (r := py.log10_down _ _ _ _) in *.
    assert (r < 0).
    { destruct (Z.eq_dec r 0) as [Hr|Hr]; [|lia].
      rewrite Hr in H2. cbn in H2. lia. }
    replace (0 <=? r) with false by (symmetry; apply Z.leb_gt; lia).
    rewrite Z.sub_0_l in *. split; [exact H2|]. apply H3. lia.
Qed.

Lemma round_half_even_spec n d :
  0 <= n -> 0 < d ->
  let r := py.round_half_even n d in
  n / d <= r <= n / d + 1 /\ 2 * Z.abs (n - r * d) <= d.
Proof.
  intros Hn Hd. unfold py.round_half_even.
  pose proof (Z.div_mod n d ltac:(lia)) as Hdm.
  pose proof (Z.mod_pos_bound n d Hd) as Hm.
  set (q := n / d) in *. set (m := n mod d) in *.
  assert (Hq : n - q * d = m) by lia.
  assert (Hq1 : n - (q + 1) * d = m - d) by lia.
  cbv zeta.
  destruct (Z.compare_spec (2 * m) d) as [He|Hl|Hg].
  - destruct (Z.even q); [rewrite Hq|rewrite Hq1]; lia.
  - rewrite Hq; lia.
  - rewrite Hq1; lia.
Qed.

Lemma div_bounds n d lo hi :
  0 < d -> lo * d <= n < hi * d -> lo <= n / d < hi.
Proof.
  intros Hd [H1 H2]. split.
  - apply Z.div_le_lower_bound; lia.
  - apply Z.div_lt_upper_bound; lia.
Qed.

Lemma sci_digits_spec n d :
  0 < n -> 0 < d ->
  let '(m, x) := py.sci_digits n d in
  10 ^ 6 <= m < 10 ^ 7 /\ within_half_unit n d m x.
Proof.
  intros Hn Hd. unfold py.sci_digits.
  pose proof (ilog10_spec n d Hn Hd) as Hx. unfold decade in Hx.
  set (x := py.ilog10 n d) in *.
  change (10 ^ 7) with 10000000. change (10 ^ 6) with 1000000.
  set (N := if 0 <=? 6 - x then n * 10 ^ (6 - x) else n).
  set (D := if 0 <=? 6 - x then d else d * 10 ^ (x - 6)).
  assert (HD : 0 < D).
  { subst D. destruct (0 <=? 6 - x) eqn:E; [lia|].
    apply Z.leb_gt in E. pose proof (pow10_pos (x - 6)). nia. }
  assert (HN : 1000000 * D <= N < 10000000 * D).
  { subst N D. destruct (Z.leb_spec 0 (6 - x)) as [E|E].
    - destruct (Z.leb_spec 0 x) as [E'|E'].
      + replace (x + 1) with (Z.succ x) in Hx by lia.
        rewrite Z.pow_succ_r in Hx by lia.
        assert (H6 : 10 ^ x * 10 ^ (6 - x) = 1000000).
        { rewrite <- Z.pow_add_r by lia. by replace (x + (6 - x)) with 6 by lia. }
        pose proof (pow10_pos x E'). pose proof (pow10_pos (6 - x) E).
        set (a := 10 ^ x) in *. set (b := 10 ^ (6 - x)) in *. nia.
      + destruct Hx as [Hx1 Hx2].
        assert (H6 : 10 ^ (6 - x) = 1000000 * 10 ^ (- x)).
        { replace (6 - x) with (6 + - x) by lia.
          rewrite Z.pow_add_r by lia. reflexivity. }
        assert (H7 : 10 ^ (- x) = 10 * 10 ^ (- x - 1)).
        { replace (- x) with (Z.succ (- x - 1)) at 1 by lia.
          apply Z.pow_succ_r. lia. }
        rewrite H6.
        set (a := 10 ^ (- x)) in *. set (b := 10 ^ (- x - 1)) in *. nia.
    - replace (0 <=? x) with true in Hx by (symmetry; apply Z.leb_le; lia).
      assert (H6 : 10 ^ x = 1000000 * 10 ^ (x - 6)).
      { replace x with (6 + (x - 6)) at 1 by lia.
        rewrite Z.pow_add_r by lia. reflexivity. }
      replace (x + 1) with (Z.succ x) in Hx by lia.
      rewrite Z.pow_succ_r in Hx by lia. rewrite H6 in Hx.
      set (a := 10 ^ (x - 6)) in *. nia. }
  assert (HN0 : 0 <= N) by nia.
  pose proof (round_half_even_spec N D HN0 HD) as [Hr Hacc]. cbv zeta in Hr, Hacc.
  pose proof (div_bounds N D 1000000 10000000 HD HN) as Hq.
  replace (if 0 <=? 6 - x then py.round_half_even (n * 10 ^ (6 - x)) d
           else py.round_half_even n (d * 10 ^ (x - 6)))
    with (py.round_half_even N D) by (subst N D; by destruct (0 <=? 6 - x)).
  set (m := py.round_half_even N D) in *.
  assert (Hbase : within_half_unit n d m x).
  { unfold within_half_unit. subst N D.
    destruct (Z.leb_spec 0 (6 - x)) as [E|E].
    - destruct (Z.leb_spec 0 (x - 6)) as [E'|E']; [|exact Hacc].
      replace x with 6 in * by lia. cbn in *. lia.
    - replace (0 <=? x - 6) with true by (symmetry; apply Z.leb_le; lia).
      replace (m * 10 ^ (x - 6) * d) with (m * (d * 10 ^ (x - 6))) by ring.
      replace (10 ^ (x - 6) * d) with (d * 10 ^ (x - 6)) by ring. exact Hacc. }
  destruct (Z.leb_spec 10000000 m) as [Hbig|Hsmall]; [|split; [lia|exact Hbase]].
  assert (Hm : m = 10000000) by lia.
  clearbody m. subst m. change (10000000 / 10) with 1000000.
  split; [lia|].
  clear - Hbase HD Hn Hd. unfold within_half_unit in *.
  destruct (Z.leb_spec 0 (x - 6)) as [E|E].
  - replace (0 <=? x + 1 - 6) with true by (symmetry; apply Z.leb_le; lia).
    replace (x + 1 - 6) with (Z.succ (x - 6)) by lia.
    rewrite Z.pow_succ_r by lia.
    pose proof (pow10_pos (x - 6) E). set (a := 10 ^ (x - 6)) in *. nia.
  - destruct (Z.leb_spec 0 (x + 1 - 6)) as [E'|E'].
    + replace x with 5 in * by lia. cbn in *. lia.
    + replace (6 - x) with (Z.succ (6 - (x + 1))) in Hbase by lia.
      rewrite Z.pow_succ_r in Hbase by lia.
      set (a := 10 ^ (6 - (x + 1))) in *. nia.
Qed.

Lemma digit_char_is_digit d :
  0 <= d < 10 -> py.is_digit (py.digit_char d) = true.
Proof.
  intros Hd.
  assert (H : d = 0 \/ d = 1 \/ d = 2 \/ d = 3 \/ d = 4 \/ d = 5 \/ d = 6 \/
              d = 7 \/ d = 8 \/ d = 9) by lia.
  repeat (destruct H as [->|H]; [reflexivity|]). by subst.
Qed.

Lemma is_digit_cases c :
  py.is_digit c = true ->
  In c ["0"; "1"; "2"; "3"; "4"; "5"; "6"; "7"; "8"; "9"]%char.
Proof.
  destruct c as [[] [] [] [] [] [] [] []]; intros H; try discriminate H;
    cbn; tauto.
Qed.

Lemma substring_all s : substring 0 (String.length s) s = s.
Proof. induction s as [|c s IH]; cbn; [done|by rewrite IH]. Qed.

Lemma append_nil b : EmptyString +:+ b = b.
Proof. reflexivity. Qed.

Lemma append_cons c a b : String c a +:+ b = String c (a +:+ b).
Proof. reflexivity. Qed.

Ltac norm_append := repeat (rewrite append_cons || rewrite append_nil).

Lemma all_digits_app a b :
  all_digits (a +:+ b) = all_digits a && all_digits b.
Proof.
  induction a as [|c a IH]; norm_append; cbn; [done|].
  by rewrite IH, andb_assoc.
Qed.

Lemma length_app_string a b :
  String.length (a +:+ b) = (String.length a + String.length b)%nat.
Proof. induction a as [|c a IH]; norm_append; cbn; [done|by rewrite IH]. Qed.

Lemma fixed_digits_shape n : forall v,
  String.length (py.fixed_digits n v) = n /\
  all_digits (py.fixed_digits n v) = true.
Proof.
  induction n as [|n IH]; intros v; cbn [py.fixed_digits]; [done|].
  destruct (IH (v / 10)) as [Hl Ha].
  rewrite length_app_string, all_digits_app, Hl, Ha. cbn.
  rewrite digit_char_is_digit by (apply Z.mod_pos_bound; lia).
  split; [lia|done].
Qed.

Lemma exponent_string_shape x : is_exponent ("E" +:+ py.exponent_string x) = true.
Proof.
  unfold py.exponent_string.
  set (n := Nat.max 2 _).
  destruct (fixed_digits_shape n (Z.abs x)) as [Hl Ha].
  norm_append. cbn [is_exponent]. rewrite Hl, Ha.
  replace (2 <=? n)%nat with true by (symmetry; apply Nat.leb_le; lia).
  by destruct (x <? 0).
Qed.

Lemma is_sci6_intro (neg : bool) (c6 c5 c4 c3 c2 c1 c0 : ascii) (e : string) :
  py.is_digit c6 = true -> py.is_digit c5 = true -> py.is_digit c4 = true ->
  py.is_digit c3 = true -> py.is_digit c2 = true -> py.is_digit c1 = true ->
  py.is_digit c0 = true -> is_exponent e = true ->
  is_sci6
    ((if neg then "-" else "")%string +:+
     String c6 (String "." (String c5 (String c4 (String c3 (String c2
       (String c1 (String c0 e)))))))) = true.
Proof.
  intros H6 H5 H4 H3 H2 H1 H0 He.
  assert (Hbody :
    (py.is_digit c6 &&
     (String.length (substring 0 6 (String c5 (String c4 (String c3 (String c2
        (String c1 (String c0 e))))))) =? 6)%nat &&
     all_digits (substring 0 6 (String c5 (String c4 (String c3 (String c2
        (String c1 (String c0 e))))))) &&
     is_exponent (substring 6 (String.length (String c5 (String c4 (String c3
        (String c2 (String c1 (String c0 e)))))) - 6)
        (String c5 (String c4 (String c3 (String c2 (String c1
        (String c0 e)))))))) = true).
  { cbn. rewrite H6, H5, H4, H3, H2, H1, H0. cbn.
    destruct e as [|a e]; [discriminate He|].
    cbn [String.length Nat.sub substring]. by rewrite substring_all. }
  destruct neg; norm_append; [exact Hbody|].
  apply is_digit_cases in H6. cbn [In] in H6.
  repeat (destruct H6 as [<-|H6]; [exact Hbody|]). done.
Qed.

Lemma sci_string_shape neg m x :
  is_sci6 (py.sci_string neg m x) = true.
Proof.
  unfold py.sci_string. cbn [py.fixed_digits]. norm_append.
  apply is_sci6_intro;
    try (apply digit_char_is_digit; apply Z.mod_pos_bound; lia).
  apply exponent_string_shape.
Qed.

Lemma format_6E_shape x :
  Float.is_finite x = true -> is_sci6 (py.format_6E x) = true.
Proof.
  destruct x as [s|s| |s m e]; try discriminate; intros _; cbn [py.format_6E].
  - apply sci_string_shape.
  - destruct (py.sci_digits _ _). apply sci_string_shape.
Qed.

Lemma digit_val_digit_char d :
  0 <= d < 10 -> py.digit_val (py.digit_char d) = d.
Proof.
  intros Hd.
  assert (H : d = 0 \/ d = 1 \/ d = 2 \/ d = 3 \/ d = 4 \/ d = 5 \/ d = 6 \/
              d = 7 \/ d = 8 \/ d = 9) by lia.
  repeat (destruct H as [->|H]; [reflexivity|]). by subst.
Qed.

Lemma digits_value_app a : forall acc b,
  py.digits_value acc (a +:+ b) = py.digits_value (py.digits_value acc a) b.
Proof.
  induction a as [|c a IH]; intros acc b; rewrite ?append_nil, ?append_cons;
    cbn [py.digits_value]; [done|apply IH].
Qed.

Lemma num_digits_bound fuel : forall v,
  0 <= v < 10 ^ Z.of_nat fuel -> v < 10 ^ Z.of_nat (py.num_digits fuel v).
Proof.
  induction fuel as [|fuel IH]; intros v Hv; cbn [py.num_digits]; [exact (proj2 Hv)|].
  destruct (Z.ltb_spec v 10) as [Hlt|Hge]; [cbn; lia|].
  rewrite Nat2Z.inj_succ, Z.pow_succ_r in * by lia.
  assert (Hq : v / 10 < 10 ^ Z.of_nat (py.num_digits fuel (v / 10))).
  { apply IH. split; [apply Z.div_pos; lia|].
    apply Z.div_lt_upper_bound; lia. }
  pose proof (Z.div_mod v 10 ltac:(lia)) as Hdm.
  pose proof (Z.mod_pos_bound v 10 ltac:(lia)) as Hm.
  set (p := 10 ^ Z.of_nat (py.num_digits fuel (v / 10))) in *. lia.
Qed.

Lemma digits_value_fixed_mod n : forall v acc,
  0 <= v ->
  py.digits_value acc (py.fixed_digits n v) =
  acc * 10 ^ Z.of_nat n + v mod 10 ^ Z.of_nat n.
Proof.
  induction n as [|n IH]; intros v acc Hv; cbn [py.fixed_digits].
  - cbn. rewrite Z.mod_1_r. lia.
  - rewrite Nat2Z.inj_succ, Z.pow_succ_r by lia.
    pose proof (Z.mod_pos_bound v 10 ltac:(lia)) as Hm.
    rewrite digits_value_app, IH by (apply Z.div_pos; lia).
    cbn [py.digits_value]. rewrite digit_val_digit_char by done.
    rewrite (Z.rem_mul_r v 10 (10 ^ Z.of_nat n)) by (try apply Z.pow_nonzero; lia).
    set (p := 10 ^ Z.of_nat n). set (r := (v / 10) mod p). lia.
Qed.

Lemma take_digits_prefix ds c rest :
  all_digits ds = true -> py.is_digit c = false ->
  py.take_digits (ds +:+ String c rest) = (ds, String c rest).
Proof.
  intros Hds Hc. induction ds as [|a ds IH]; rewrite ?append_nil, ?append_cons;
    cbn [py.take_digits].
  - by rewrite Hc.
  - cbn [all_digits] in Hds. apply andb_true_iff in Hds as [Ha Hds].
    by rewrite Ha, IH.
Qed.

Lemma take_digits_all ds :
  all_digits ds = true -> py.take_digits ds = (ds, EmptyString).
Proof.
  induction ds as [|a ds IH]; cbn [py.take_digits all_digits]; [done|].
  intros H. apply andb_true_iff in H as [Ha Hds]. by rewrite Ha, IH.
Qed.

Lemma take_sign_digit c rest :
  py.is_digit c = true ->
  py.take_sign (String c rest) = (false, String c rest).
Proof.
  intros H. apply is_digit_cases in H. cbn [In] in H.
  repeat (destruct H as [<-|H]; [reflexivity|]). done.
Qed.

Lemma parse_literal_shape (neg eneg : bool) (c : ascii) (I F EX : string) :
  py.is_digit c = true -> all_digits I = true -> all_digits F = true ->
  all_digits EX = true -> EX <> EmptyString ->
  py.parse_float_literal
    ((if neg then "-" else "")%string +:+ String c I +:+ "." +:+ F +:+ "E" +:+
     String (if eneg then "-" else "+")%char EX) =
  Some (neg, py.digits_value 0 (String c I +:+ F),
        (if eneg then - py.digits_value 0 EX else py.digits_value 0 EX)
        - Z.of_nat (String.length F)).
Proof.
  intros Hc HI HF HEX Hne. unfold py.parse_float_literal.
  assert (Hs : py.take_sign
                 ((if neg then "-" else "")%string +:+ String c I +:+ "." +:+ F
                  +:+ "E" +:+ String (if eneg then "-" else "+")%char EX) =
               (neg, String c I +:+ "." +:+ F +:+ "E" +:+
                     String (if eneg then "-" else "+")%char EX)).
  { destruct neg; rewrite ?append_nil, ?append_cons; [reflexivity|].
    by apply take_sign_digit. }
  rewrite Hs.
  change ("." +:+ F +:+ "E" +:+ String (if eneg then "-" else "+")%char EX)
    with (String "." (F +:+ "E" +:+ String (if eneg then "-" else "+")%char EX)).
  rewrite take_digits_prefix; [|by cbn [all_digits]; rewrite Hc, HI|reflexivity].
  change ("E" +:+ String (if eneg then "-" else "+")%char EX)
    with (String "E" (String (if eneg then "-" else "+")%char EX)).
  rewrite take_digits_prefix; [|done|reflexivity].
  cbn [String.length Nat.add Nat.eqb].
  change ((("E" =? "e")%char || ("E" =? "E")%char)) with true. cbv iota.
  assert (Hes : py.take_sign (String (if eneg then "-" else "+")%char EX) =
                (eneg, EX)) by (by destruct eneg).
  rewrite Hes, take_digits_all by done.
  destruct EX as [|a EX]; [done|]. reflexivity.
Qed.

Lemma exponent_digits_value x :
  let a := Z.abs x in
  let n := Nat.max 2 (py.num_digits (S (Z.to_nat (Z.log2 a))) a) in
  py.digits_value 0 (py.fixed_digits n a) = a.
Proof.
  intros a n. rewrite digits_value_fixed_mod by lia.
  rewrite Z.mul_0_l, Z.add_0_l. apply Z.mod_small. split; [lia|].
  assert (Hfuel : a < 10 ^ Z.of_nat (S (Z.to_nat (Z.log2 a)))).
  { destruct (Z.eq_dec a 0) as [->|Hne]; [reflexivity|].
    apply lt_pow10_log2. lia. }
  pose proof (num_digits_bound _ a (conj (Z.abs_nonneg x) Hfuel)) as Hb.
  eapply Z.lt_le_trans; [exact Hb|].
  apply Z.pow_le_mono_r; lia.
Qed.

Lemma parse_sci_string neg d x :
  0 <= d < 10 ^ 7 ->
  py.parse_float_literal (py.sci_string neg d x) = Some (neg, d, x - 6).
Proof.
  intros Hd. unfold py.sci_string, py.exponent_string.
  set (a := Z.abs x).
  set (n := Nat.max 2 (py.num_digits (S (Z.to_nat (Z.log2 a))) a)).
  change (py.fixed_digits 1 (d / 10 ^ 6))
    with (String (py.digit_char ((d / 10 ^ 6) mod 10)) EmptyString).
  destruct (fixed_digits_shape 6 d) as [Hl6 Ha6].
  destruct (fixed_digits_shape n a) as [Hln Han].
  assert (Hq : 0 <= d / 10 ^ 6 < 10).
  { split; [apply Z.div_pos; lia|]. apply Z.div_lt_upper_bound; lia. }
  rewrite (parse_literal_shape neg (x <? 0) _ EmptyString); try done.
  - f_equal. f_equal; [f_equal|].
    + rewrite append_cons, append_nil. cbn [py.digits_value].
      rewrite digits_value_fixed_mod by lia.
      rewrite digit_val_digit_char by (apply Z.mod_pos_bound; lia).
      rewrite (Z.mod_small (d / 10 ^ 6)) by lia.
      change (Z.of_nat 6) with 6.
      pose proof (Z.div_mod d (10 ^ 6) ltac:(lia)). lia.
    + pose proof (exponent_digits_value x) as He. cbv zeta in He.
      fold a in He. fold n in He. rewrite Hl6, He.
      change (Z.of_nat 6) with 6. subst a.
      destruct (Z.ltb_spec x 0); lia.
  - apply digit_char_is_digit. apply Z.mod_pos_bound. lia.
  - intros E. rewrite E in Hln. cbn in Hln. lia.
Qed.

Lemma format_6E_sci6 x :
  Float.is_finite x = true -> sci6_of x (py.format_6E x).
Proof.
  intros Hx. split; [by apply format_6E_shape|].
  destruct x as [s|s| |s m e]; try discriminate; cbn [py.format_6E].
  - by apply parse_sci_string.
  - assert (Hn : 0 < Zpos m * 2 ^ Z.max e 0).
    { pose proof (Z.pow_pos_nonneg 2 (Z.max e 0)). nia. }
    assert (Hd : 0 < 2 ^ Z.max (- e) 0) by (apply Z.pow_pos_nonneg; lia).
    pose proof (sci_digits_spec _ _ Hn Hd) as H.
    destruct (py.sci_digits _ _) as [d e10]. destruct H as [H1 H2].
    exists d, e10. split; [|done]. apply parse_sci_string. lia.
Qed.

Lemma default_description :
  description_tag Float.one Float.zero =
  "slope = 1.000000E+00 offset = 0.000000E+00"%string.
Proof. vm_compute. reflexivity. Qed.

Lemma format_6E_formatted x : formatted_as x (py.format_6E x).
Proof.
  destruct x as [s|[]| |s m e]; cbn [formatted_as py.format_6E];
    try reflexivity; by apply format_6E_sci6.
Qed.

(** C9: a uint16 grid written with [rescale=True] is stored verbatim: the
    slope and offset are not applied to the samples and no slope, zero
    included, raises an error; the description still records the slope and
    the offset that were given: it reads ["slope = "], the slope, [" offset
    = "], the offset, each finite value in six-fractional-digit scientific
    notation rounded to seven significant digits. *)
Theorem rescale_uint16_stored_verbatim path shape buf slope offset fs :
  Forall (fun v => is_uint16 v = true) buf ->
  let out := write_xre_tif path (U16Array shape buf) true slope offset fs in
  fst out = py.Ok tt /\
  stored_samples (snd out) path = Some buf /\
  exists s o,
    stored_description (snd out) path =
      Some ("slope = " +:+ s +:+ " offset = " +:+ o) /\
    formatted_as slope s /\ formatted_as offset o.
Proof.
  intros Hbuf out. subst out. rewrite write_uint16_result. cbn [fst snd].
  unfold stored_samples, stored_description. rewrite lookup_insert_eq.
  cbn [TIFF.tags TIFF.strip TIFF.little_endian].
  rewrite unpack_pack, directory_description by done.
  split; [done|]. split; [done|].
  exists (py.format_6E slope), (py.format_6E offset).
  split; [done|]. split; apply format_6E_formatted.
Qed.

Lemma rescale_uint16_stored_verbatim_witness :
  let out := write_xre_tif "scan.tif" (U16Array (1, 2)%nat [7; 9]) true
                           Float.zero Float.one ∅ in
  fst out = py.Ok tt /\
  stored_samples (snd out) "scan.tif" = Some [7; 9] /\
  exists s o,
    stored_description (snd out) "scan.tif" =
      Some ("slope = " +:+ s +:+ " offset = " +:+ o) /\
    formatted_as Float.zero s /\ formatted_as Float.one o.
Proof.
  apply (rescale_uint16_stored_verbatim "scan.tif" (1, 2)%nat [7; 9]).
  repeat constructor.
Defined.




(** ** The calibration text: parsing *)

Lemma extract_of_description img t desc :
  Image.tag_v2 img = Some t ->
  t !! TIFF.ImageDescription = Some (TIFF.Ascii desc) ->
  _extract_slope_offset img = calibration_of_text desc.
Proof.
  intros Ht Hd. unfold calibration_of_text, _extract_slope_offset.
  cbn [Image.tag_v2]. rewrite Ht, Hd, lookup_singleton_eq. reflexivity.
Qed.

Lemma extract_without_tags img :
  Image.tag_v2 img = None ->
  _extract_slope_offset img = py.Ok (Float.one, Float.zero).
Proof. intros H. unfold _extract_slope_offset. by rewrite H. Qed.

Lemma extract_without_description img t :
  Image.tag_v2 img = Some t -> t !! TIFF.ImageDescription = None ->
  _extract_slope_offset img = py.Ok (Float.one, Float.zero).
Proof. intros H1 H2. unfold _extract_slope_offset. by rewrite H1, H2. Qed.

Lemma calibration_of_text_cases desc :
  calibration_of_text desc =
  if (String.length desc =? 0)%nat then py.Ok (Float.one, Float.zero)
  else
    match
      match py.re_search (py.field_pattern "slope") desc with
      | Some g => py.float_of_string g
      | None => py.Ok Float.one
      end
    with
    | py.Raise e => py.Raise e
    | py.Ok slope =>
        match
          match py.re_search (py.field_pattern "offset") desc with
          | Some g => py.float_of_string g
          | None => py.Ok Float.zero
          end
        with
        | py.Raise e => py.Raise e
        | py.Ok offset => py.Ok (slope, offset)
        end
    end.
Proof.
  unfold calibration_of_text, _extract_slope_offset. cbn [Image.tag_v2].
  by rewrite lookup_singleton_eq.
Qed.

Lemma calibration_no_match desc :
  py.re_search (py.field_pattern "slope") desc = None ->
  py.re_search (py.field_pattern "offset") desc = None ->
  calibration_of_text desc = py.Ok (Float.one, Float.zero).
Proof.
  intros Hs Ho. rewrite calibration_of_text_cases, Hs, Ho.
  by destruct (_ =? _)%nat.
Qed.

Lemma calibration_slope_only desc g slope :
  desc <> EmptyString ->
  py.re_search (py.field_pattern "slope") desc = Some g ->
  py.float_of_string g = py.Ok slope ->
  py.re_search (py.field_pattern "offset") desc = None ->
  calibration_of_text desc = py.Ok (slope, Float.zero).
Proof.
  intros Hne Hs Hg Ho. rewrite calibration_of_text_cases, Hs, Hg, Ho.
  by destruct desc.
Qed.

Lemma calibration_offset_only desc g offset :
  desc <> EmptyString ->
  py.re_search (py.field_pattern "slope") desc = None ->
  py.re_search (py.field_pattern "offset") desc = Some g ->
  py.float_of_string g = py.Ok offset ->
  calibration_of_text desc = py.Ok (Float.one, offset).
Proof.
  intros Hne Hs Ho Hg. rewrite calibration_of_text_cases, Hs, Ho, Hg.
  by destruct desc.
Qed.

Lemma calibration_case_insensitive :
  calibration_of_text "SLOPE=2.5e-1  OffSet =-3" =
  py.Ok (S754_finite false 4503599627370496 (-54),
         S754_finite true 6755399441055744 (-51)).
Proof. vm_compute. reflexivity. Qed.

(** C6: the code at the failing input.  On the description ["slope = e"] the
    slope pattern matches the text ["e"], which is not a number: the parse
    raises [ValueError], and so do [read_xre_tif] with rescaling and
    [get_metadata] on a file with that description.  The description that
    [write_xre_tif] itself produces for the offset minus infinity,
    ["... offset = -INF"], fails in the same way on the text ["-"]. *)
Theorem malformed_number_raises :
  calibration_of_text "slope = e" =
    py.Raise (py.ValueError "could not convert string to float") /\
  fst (read_xre_tif "scan.tif" true
         {["scan.tif"%string := example_file "slope = e"]}) =
    py.Raise (py.ValueError "could not convert string to float") /\
  fst (get_metadata "scan.tif"
         {["scan.tif"%string := example_file "slope = e"]}) =
    py.Raise (py.ValueError "could not convert string to float") /\
  calibration_of_text (description_tag Float.one (S754_infinity true)) =
    py.Raise (py.ValueError "could not convert string to float").
Proof. vm_compute. repeat split. Qed.

(** ** The forward conversion *)

Lemma read_written_rescale path w h d s buf fs slope offset :
  (0 < w)%nat -> (0 < h)%nat -> length buf = (h * w)%nat ->
  Forall (fun v => is_uint16 v = true) buf ->
  calibration_of_text d = py.Ok (slope, offset) ->
  let fs' := <[path := TIFF.Container true (TIFF.directory w h d s)
                                      (TIFF.pack true buf)]> fs in
  read_xre_tif path true fs' =
  (py.Ok (F32Array (h, w) (map (to_physical slope offset) buf)), fs').
Proof.
  intros Hw Hh Hlen Hbuf Hcal fs'. subst fs'.
  unfold read_xre_tif, bind, PIL.open.
  rewrite lookup_insert_eq. cbn [TIFF.tags TIFF.strip TIFF.little_endian].
  rewrite check_directory_directory by done.
  unfold lift, PIL.to_array. cbn [Image.size Image.raw Image.raw_le].
  rewrite length_pack, Hlen.
  replace (2 * (h * w) =? 2 * w * h)%nat with true
    by (symmetry; apply Nat.eqb_eq; lia).
  rewrite (extract_of_description _ (TIFF.directory w h d s) d);
    [|reflexivity|apply directory_description].
  rewrite Hcal, unpack_pack by done. reflexivity.
Qed.



(** The example of the specification: with slope 0.5 and offset 100.0 the
    sample 200 reads as 200.0, and 200.0 is stored as 200 again. *)
Lemma forward_inverse_example :
  fst (read_xre_tif "scan.tif" true
         {["scan.tif"%string :=
             TIFF.Container true
               (TIFF.directory 1 1 "slope = 5.000000E-01 offset = 1.000000E+02"
                               "py_xre_tiff")
               [200; 0]]}) =
    py.Ok (F32Array (1, 1)%nat [Float.of_Z Fmt.binary32 200]) /\
  to_stored Fmt.binary32 (S754_finite false 4503599627370496 (-53))
            (Float.of_Z Fmt.binary64 100) (Float.of_Z Fmt.binary32 200) = 200.
Proof. vm_compute. split; reflexivity. Qed.

(** ** The rescaled round trip *)

Lemma scalar_one32 : np.scalar Fmt.binary32 Float.one = one32.
Proof. reflexivity. Qed.

Lemma div_eucl_exact a b q :
  0 < b -> a = q * b -> Z.div_eucl a b = (q, 0).
Proof.
  intros Hb ->. pose proof (Z.div_mul q b ltac:(lia)) as Hq.
  pose proof (Z.mod_mul q b ltac:(lia)) as Hr.
  unfold Z.div, Z.modulo in *. destruct (Z.div_eucl (q * b) b). cbn in *. congruence.
Qed.

Lemma div_one32 s m e :
  bounded 24 128 m e = true ->
  SFdiv 24 128 (S754_finite s m e) one32 = S754_finite s m e.
Proof.
  intros Hb. apply andb_true_iff in Hb as [Hc He].
  unfold canonical_mantissa, fexp, emin in Hc. apply Z.eqb_eq in Hc.
  apply Z.leb_le in He.
  unfold one32, SFdiv, SFdiv_core_binary.
  change (Zdigits2 (Z.pos 8388608)) with 24.
  cbn [Zdigits2].
  set (d := Z.pos (digits2_pos m)) in *.
  unfold fexp, emin.
  assert (Hcase : (d = 24 /\ -148 <= e) \/ e = -149) by lia.
  destruct Hcase as [[Hd He']|He'].
  - replace (Z.min (Z.max (d + e - (24 + -23) - 24) (3 - 128 - 24)) (e - -23))
      with (e - 1) by lia.
    replace (e - -23 - (e - 1)) with 24 by lia.
    rewrite (div_eucl_exact _ _ (Zpos m~0)); [|lia|].
    2:{ rewrite Z.shiftl_mul_pow2 by lia. change (2 ^ 24) with 16777216. lia. }
    change (new_location (Z.pos 8388608) 0) with loc_Exact.
    unfold binary_round_aux, shr_fexp. cbn [Zdigits2 digits2_pos shr_record_of_loc].
    rewrite Pos2Z.inj_succ. fold d. unfold fexp, emin.
    replace (Z.max (Z.succ d + (e - 1) - 24) (3 - 128 - 24) - (e - 1)) with 1 by lia.
    cbn [orb shr SpecFloat.iter_pos shr_1 shr_m loc_of_shr_record round_nearest_even Zdigits2].
    fold d.
    replace (Z.max (d + (e - 1 + 1) - 24) (3 - 128 - 24) - (e - 1 + 1)) with 0 by lia.
    cbn [shr shr_m].
    replace (e - 1 + 1 <=? 128 - 24) with true by (symmetry; apply Z.leb_le; lia).
    rewrite xorb_false_r. f_equal. lia.
  - replace (Z.min (Z.max (d + e - (24 + -23) - 24) (3 - 128 - 24)) (e - -23))
      with e by lia.
    replace (e - -23 - e) with 23 by lia.
    rewrite (div_eucl_exact _ _ (Zpos m)); [|lia|].
    2:{ rewrite Z.shiftl_mul_pow2 by lia. change (2 ^ 23) with 8388608. lia. }
    change (new_location (Z.pos 8388608) 0) with loc_Exact.
    unfold binary_round_aux, shr_fexp. cbn [Zdigits2 digits2_pos shr_record_of_loc].
    fold d. unfold fexp, emin.
    replace (Z.max (d + e - 24) (3 - 128 - 24) - e) with 0 by lia.
    cbn [orb shr SpecFloat.iter_pos shr_1 shr_m loc_of_shr_record round_nearest_even Zdigits2].
    fold d.
    replace (Z.max (d + e - 24) (3 - 128 - 24) - e) with 0 by lia.
    cbn [shr shr_m].
    replace (e <=? 128 - 24) with true by (symmetry; apply Z.leb_le; lia).
    by rewrite xorb_false_r.
Qed.

Lemma Qtrunc_close q : (Qabs (inject_Z (Qtrunc q) - q) < 1)%Q.
Proof.
  unfold Qtrunc. destruct (Qle_bool 0 q).
  - pose proof (Qfloor_le q) as H1. pose proof (Qlt_floor q) as H2.
    rewrite inject_Z_plus in H2. change (inject_Z 1) with 1%Q in H2.
    set (f := inject_Z (Qfloor q)) in *. clearbody f.
    apply Qabs_case; intros _; lra.
  - pose proof (Qle_ceiling q) as H1. pose proof (Qceiling_lt q) as H2.
    unfold Z.sub in H2. rewrite inject_Z_plus in H2.
    change (inject_Z (Z.opp 1)) with (Qopp 1) in H2.
    set (c := inject_Z (Qceiling q)) in *. clearbody c.
    apply Qabs_case; intros _; lra.
Qed.

Lemma float_beq_eq a b : float_beq a b = true -> a = b.
Proof.
  destruct a as [s|s| |s m e], b as [s'|s'| |s' m' e']; cbn; try discriminate.
  - intros H. apply Bool.eqb_prop in H. congruence.
  - intros H. apply Bool.eqb_prop in H. congruence.
  - reflexivity.
  - intros H. apply andb_true_iff in H as [H He].
    apply andb_true_iff in H as [Hs Hm].
    apply Bool.eqb_prop in Hs. apply Pos.eqb_eq in Hm. apply Z.eqb_eq in He.
    congruence.
Qed.

Lemma all_from_spec f n : forall v k,
  all_from n v f = true -> v <= k < v + Z.of_nat n -> f k = true.
Proof.
  induction n as [|n IH]; intros v k H Hk; [lia|].
  cbn [all_from] in H. apply andb_true_iff in H as [Hv Hrest].
  destruct (Z.eq_dec k v) as [->|Hne]; [done|].
  apply (IH (v + 1)); [done|lia].
Qed.

Lemma default_forward_exact_all :
  all_from (Z.to_nat 65536) 0 default_forward_exact = true.
Proof. vm_compute. reflexivity. Qed.

Lemma default_forward v :
  is_uint16 v = true ->
  to_physical Float.one Float.zero v = np.uint16_to_float32 v /\
  Float.is_finite (np.uint16_to_float32 v) = true /\
  (Float.to_Q (np.uint16_to_float32 v) == inject_Z v)%Q.
Proof.
  intros Hv. unfold is_uint16 in Hv. apply andb_true_iff in Hv as [H0 H1].
  apply Z.leb_le in H0, H1.
  pose proof (all_from_spec _ _ 0 v default_forward_exact_all) as Hin.
  rewrite Z2Nat.id in Hin by lia. specialize (Hin ltac:(lia)).
  unfold default_forward_exact in Hin.
  apply andb_true_iff in Hin as [Ha Hb]. apply andb_true_iff in Ha as [Ha Hf].
  split; [by apply float_beq_eq|]. split; [done|by apply Qeq_bool_iff].
Qed.

Lemma sub_zero32 x :
  Float.is_finite x = true ->
  Float.sub Fmt.binary32 x (np.scalar Fmt.binary32 Float.zero) = x.
Proof. destruct x as [[]|s| |s m e]; try discriminate; reflexivity. Qed.

Lemma quotient_default x :
  Float.valid Fmt.binary32 x = true -> Float.is_finite x = true ->
  quotient Fmt.binary32 Float.one Float.zero x = x.
Proof.
  intros Hv Hf. unfold quotient. rewrite sub_zero32 by done.
  rewrite scalar_one32. destruct x as [s|s| |s m e]; try discriminate.
  - by destruct s.
  - by apply div_one32.
Qed.

Lemma Qtrunc_range q :
  (-1 < q)%Q -> (q < 65536)%Q -> 0 <= Qtrunc q <= 65535.
Proof.
  intros Hlo Hhi. unfold Qtrunc. destruct (Qle_bool 0 q) eqn:Hq.
  - apply Qle_bool_iff in Hq.
    pose proof (Qfloor_resp_le _ _ Hq) as H0. change (Qfloor 0) with 0 in H0.
    pose proof (Qfloor_le q) as H1.
    assert (H2 : (inject_Z (Qfloor q) < inject_Z 65536)%Q)
      by (eapply Qle_lt_trans; [exact H1|exact Hhi]).
    rewrite <- Zlt_Qlt in H2. lia.
  - assert (Hneg : (q < 0)%Q).
    { apply Qnot_le_lt. intros H. apply Qle_bool_iff in H. congruence. }
    pose proof (Qle_ceiling q) as H1. pose proof (Qceiling_lt q) as H2.
    assert (H3 : (inject_Z (-1) < inject_Z (Qceiling q))%Q)
      by (eapply Qlt_le_trans; [exact Hlo|exact H1]).
    assert (H4 : (inject_Z (Qceiling q - 1) < inject_Z 0)%Q)
      by (eapply Qlt_trans; [exact H2|exact Hneg]).
    rewrite <- Zlt_Qlt in H3, H4. lia.
Qed.

Lemma in_sample_range_spec x :
  in_sample_range x = true ->
  Float.valid Fmt.binary32 x = true /\ Float.is_finite x = true /\
  (-1 < Float.to_Q x)%Q /\ (Float.to_Q x < 65536)%Q.
Proof.
  unfold in_sample_range. intros H.
  apply andb_true_iff in H as [H Hhi]. apply andb_true_iff in H as [H Hlo].
  apply andb_true_iff in H as [Hv Hf]. repeat split; try done.
  - apply Qnot_le_lt. intros Hc. apply Qle_bool_iff in Hc.
    rewrite Hc in Hlo. discriminate.
  - apply Qnot_le_lt. intros Hc. apply Qle_bool_iff in Hc.
    rewrite Hc in Hhi. discriminate.
Qed.

Lemma to_stored_default x :
  in_sample_range x = true ->
  to_stored Fmt.binary32 Float.one Float.zero x = Qtrunc (Float.to_Q x) /\
  is_uint16 (Qtrunc (Float.to_Q x)) = true.
Proof.
  intros Hx. apply in_sample_range_spec in Hx as (Hv & Hf & Hlo & Hhi).
  pose proof (Qtrunc_range _ Hlo Hhi) as Hr.
  unfold to_stored. rewrite quotient_default by done.
  destruct (Float.trunc x) as [t|] eqn:Ht; [|destruct x; discriminate].
  pose proof (trunc_to_Q _ _ Ht) as Hq. rewrite Hq in *. split.
  - by apply float_to_uint16_small.
  - unfold is_uint16. apply andb_true_iff. split; apply Z.leb_le; lia.
Qed.

Lemma default_calibration_parsed :
  calibration_of_text (description_tag Float.one Float.zero) =
  py.Ok (Float.one, Float.zero).
Proof. vm_compute. reflexivity. Qed.

Lemma default_roundtrip_elements buf :
  Forall (fun x => in_sample_range x = true) buf ->
  Forall (fun v => is_uint16 v = true)
         (map (to_stored Fmt.binary32 Float.one Float.zero) buf) /\
  Forall2 (fun x y =>
             Float.is_finite y = true /\
             (Qabs (Float.to_Q y - Float.to_Q x)
              <= 1 * Qabs (Float.to_Q Float.one))%Q)
          buf
          (map (to_physical Float.one Float.zero)
               (map (to_stored Fmt.binary32 Float.one Float.zero) buf)).
Proof.
  induction 1 as [|x buf Hx _ [IH1 IH2]]; cbn [map]; [by split; constructor|].
  destruct (to_stored_default x Hx) as [Hs Hu]. rewrite Hs.
  split; constructor; try done.
  destruct (default_forward _ Hu) as (-> & Hf & Hq). split; [exact Hf|].
  rewrite Hq.
  assert (H1 : (1 * Qabs (Float.to_Q Float.one) == 1)%Q) by reflexivity.
  rewrite H1. apply Qlt_le_weak, Qtrunc_close.
Qed.

(** C7, as stated, fails even when every stored sample is in range: the
    float32 element 123456792.0 written with slope 1.0 and offset
    123456789.0 comes back as 123456800.0, eight slopes away, because the
    description keeps seven significant digits of the offset. *)
Lemma seven_digit_offset_breaks_bound :
  ~ rescaled_roundtrip_within (3 # 2) (1, 1)%nat
      [f32_123456792] Float.one py_123456789.
Proof.
  intros H. destruct (H "out.tif"%string ∅) as (fs' & back & Hw & Hr & Hb).
  vm_compute in Hw. injection Hw as <-.
  vm_compute in Hr. injection Hr as <-.
  inversion Hb as [|x y l l' [_ Hxy] _]; subst.
  vm_compute in Hxy. apply Hxy. reflexivity.
Qed.

(** It fails as well for an element whose quotient is not a uint16: 70000.0
    written with the default calibration comes back as 4464.0. *)
Lemma out_of_range_roundtrip_breaks_bound :
  ~ rescaled_roundtrip_within (3 # 2) (1, 1)%nat
      [f32_70000] Float.one Float.zero.
Proof.
  intros H. destruct (H "out.tif"%string ∅) as (fs' & back & Hw & Hr & Hb).
  vm_compute in Hw. injection Hw as <-.
  vm_compute in Hr. injection Hr as <-.
  inversion Hb as [|x y l l' [_ Hxy] _]; subst.
  vm_compute in Hxy. apply Hxy. reflexivity.
Qed.

(** And for a calibration that the description reproduces exactly, with the
    stored sample in range: 100000232.0 written with slope 5.3 and offset
    100000000.0 is stored as 43 and comes back as 100000224.0, because the
    float32 sum is rounded. *)
Lemma float32_rounding_breaks_bound :
  calibration_of_text (description_tag py_5_3 py_100000000) =
    py.Ok (py_5_3, py_100000000) /\
  ~ rescaled_roundtrip_within (3 # 2) (1, 1)%nat
      [f32_100000232] py_5_3 py_100000000.
Proof.
  split; [vm_compute; reflexivity|].
  intros H. destruct (H "out.tif"%string ∅) as (fs' & back & Hw & Hr & Hb).
  vm_compute in Hw. injection Hw as <-.
  vm_compute in Hr. injection Hr as <-.
  inversion Hb as [|x y l l' [_ Hxy] _]; subst.
  vm_compute in Hxy. apply Hxy. reflexivity.
Qed.

(** With the default calibration (slope 1.0, offset 0.0) the one-step bound
    does hold: a float32 grid whose elements lie strictly between -1 and
    65536 comes back from a rescaled write and a rescaled read with every
    element within [|slope|] of the original. *)
Lemma rescaled_roundtrip_default_calibration shape buf :
  (0 < fst shape)%nat -> (0 < snd shape)%nat ->
  length buf = (fst shape * snd shape)%nat ->
  Forall (fun x => in_sample_range x = true) buf ->
  rescaled_roundtrip_within 1 shape buf Float.one Float.zero.
Proof.
  intros Hh Hw Hlen Hbuf path fs. destruct shape as [h w]. cbn [fst snd] in *.
  destruct (default_roundtrip_elements buf Hbuf) as [Hu Hclose].
  eexists _, _. split; [|split; [|exact Hclose]].
  - unfold write_xre_tif, bind, lift, convert_to_u16, PIL.save. reflexivity.
  - cbn [fst snd PIL.fromarray Image.size Image.raw].
    apply read_written_rescale; [done|done| |done|].
    + by rewrite length_map.
    + apply default_calibration_parsed.
Qed.

Lemma rescaled_roundtrip_default_calibration_witness :
  rescaled_roundtrip_within 1 (1, 2)%nat
    [f32_3; f32_65535]
    Float.one Float.zero.
Proof.
  apply rescaled_roundtrip_default_calibration; cbn [fst snd length]; try lia.
  repeat constructor.
Defined.

(** * Further properties *)

(** ** Texts *)

Lemma append_assoc (a b c : string) : (a +:+ b) +:+ c = a +:+ (b +:+ c).
Proof. induction a as [|x a IH]; norm_append; [done|by rewrite IH]. Qed.

Lemma append_empty_r (a : string) : a +:+ EmptyString = a.
Proof. induction a as [|x a IH]; norm_append; [done|by rewrite IH]. Qed.

Lemma length_app_nonzero a c b :
  (String.length (a +:+ String c b) =? 0)%nat = false.
Proof. induction a as [|x a IH]; norm_append; done. Qed.

Lemma string_forall_impl (P Q : ascii -> bool) s :
  (forall c, P c = true -> Q c = true) ->
  string_forall P s = true -> string_forall Q s = true.
Proof.
  intros HPQ. induction s as [|c s IH]; [done|]. cbn.
  intros [Hc Hs]%andb_true_iff. by rewrite HPQ, IH.
Qed.

Lemma string_forall_app P a b :
  string_forall P (a +:+ b) = string_forall P a && string_forall P b.
Proof.
  induction a as [|c a IH]; norm_append; [done|].
  cbn. by rewrite IH, andb_assoc.
Qed.

Lemma stops_app P a b :
  (nonempty a = true -> stops P a = true) ->
  (nonempty a = false -> stops P b = true) ->
  stops P (a +:+ b) = true.
Proof. destruct a as [|c a]; norm_append; cbn; auto. Qed.

Lemma number_text_cases g :
  number_text g = true ->
  g <> EmptyString /\ string_forall py.is_number_char g = true.
Proof.
  unfold number_text. intros [H1 H2]%andb_true_iff. by destruct g.
Qed.

(** Facts about single characters, by cases on the 256 of them. *)
Ltac each_ascii c :=
  destruct c as [[] [] [] [] [] [] [] []]; vm_compute; try reflexivity;
  try discriminate; auto.

Lemma space_not_equals c : py.is_space c = true -> py.ci_eqb "=" c = false.
Proof. each_ascii c. Qed.

Lemma space_not_number c : py.is_space c = true -> py.is_number_char c = false.
Proof. each_ascii c. Qed.

Lemma number_not_space c : py.is_number_char c = true -> py.is_space c = false.
Proof. each_ascii c. Qed.

Lemma number_not_s c : py.is_number_char c = true -> py.ci_eqb "s" c = false.
Proof. each_ascii c. Qed.

Lemma number_not_o c : py.is_number_char c = true -> py.ci_eqb "o" c = false.
Proof. each_ascii c. Qed.

Lemma space_not_s c : py.is_space c = true -> py.ci_eqb "s" c = false.
Proof. each_ascii c. Qed.

Lemma space_not_o c : py.is_space c = true -> py.ci_eqb "o" c = false.
Proof. each_ascii c. Qed.

Lemma equals_only c : py.ci_eqb "=" c = true -> (c =? "=")%char = true.
Proof. each_ascii c. Qed.

Lemma no_letter_number l g :
  (forall c, py.is_number_char c = true -> py.ci_eqb l c = false) ->
  string_forall py.is_number_char g = true -> no_letter l g = true.
Proof. intros H. apply string_forall_impl. intros c Hc. by rewrite H. Qed.

Lemma no_letter_space l g :
  (forall c, py.is_space c = true -> py.ci_eqb l c = false) ->
  string_forall py.is_space g = true -> no_letter l g = true.
Proof. intros H. apply string_forall_impl. intros c Hc. by rewrite H. Qed.

Lemma stops_number_space g s :
  g <> EmptyString -> string_forall py.is_number_char g = true ->
  stops py.is_space (g +:+ s) = true.
Proof.
  destruct g as [|c g]; [done|]. intros _ H. rewrite append_cons.
  cbn in *. apply andb_true_iff in H as [H _]. by rewrite number_not_space.
Qed.

(** ** The matcher on a calibration field *)

(** A greedy star whose continuation fails on every text that starts inside
    the class has one way to match: the whole run. *)
Lemma star_try_run {R} cls (k : string -> option R) ws s :
  (forall c t, cls c = true -> k (String c t) = None) ->
  string_forall cls ws = true -> stops cls s = true ->
  py.star_try cls k (ws +:+ s) = k s.
Proof.
  intros Hk Hws Hs. induction ws as [|c ws IH]; norm_append.
  - destruct s as [|c s]; [reflexivity|]. cbn in Hs. cbn [py.star_try].
    by destruct (cls c).
  - cbn [string_forall] in Hws. apply andb_true_iff in Hws as [Hc Hws].
    cbn [py.star_try]. rewrite Hc, IH by done.
    destruct (k s) eqn:E; [done|]. by apply Hk.
Qed.

(** A greedy plus that ends the pattern captures the whole run, and fails on
    an empty run. *)
Lemma plus_try_run cls g : forall acc s,
  string_forall cls g = true -> stops cls s = true ->
  py.plus_try cls (fun g rest => Some g) acc (g +:+ s) =
  match g with
  | EmptyString => None
  | _ => Some (acc +:+ g)
  end.
Proof.
  induction g as [|c g IH]; intros acc s Hg Hs; norm_append.
  - destruct s as [|c s]; [reflexivity|]. cbn in Hs. cbn [py.plus_try].
    by destruct (cls c).
  - cbn [string_forall] in Hg. apply andb_true_iff in Hg as [Hc Hg].
    cbn [py.plus_try]. rewrite Hc. cbv zeta. rewrite IH by done.
    destruct g as [|c' g]; [done|].
    by rewrite append_assoc, append_cons, append_nil.
Qed.

Lemma match_literal w : forall w' p cap s,
  ci_string_eqb w w' = true ->
  py.match_here (py.literal w ++ p) cap (w' +:+ s) = py.match_here p cap s.
Proof.
  unfold py.literal.
  induction w as [|x w IH]; intros [|y w'] p cap s H; try discriminate.
  - by rewrite append_nil.
  - cbn [ci_string_eqb] in H. apply andb_true_iff in H as [Hxy H].
    rewrite append_cons.
    cbn [list_ascii_of_string map app py.match_here]. rewrite Hxy.
    by apply IH.
Qed.

(** The match of a field pattern at the head of a text: the name in any
    case, white space, the equals sign, white space, and the run of number
    characters, which must not be empty. *)
Lemma field_match name name' ws1 ws2 g s :
  ci_string_eqb name name' = true ->
  string_forall py.is_space ws1 = true ->
  string_forall py.is_space ws2 = true ->
  string_forall py.is_number_char g = true ->
  stops py.is_number_char s = true ->
  stops py.is_space (g +:+ s) = true ->
  py.match_here (py.field_pattern name) EmptyString
    (name' +:+ ws1 +:+ "=" +:+ ws2 +:+ g +:+ s) =
  match g with
  | EmptyString => None
  | _ => Some g
  end.
Proof.
  intros Hn H1 H2 Hg Hs Hs'. unfold py.field_pattern.
  rewrite match_literal by done. cbn [py.match_here].
  rewrite star_try_run; [|intros c t Hc; cbn [py.match_here];
                          by rewrite space_not_equals|done|done].
  rewrite append_cons, append_nil. cbn [py.match_here].
  change (py.ci_eqb "=" "=") with true. cbv iota.
  rewrite star_try_run; [|intros c t Hc; cbn [py.plus_try];
                          by rewrite space_not_number|done|done].
  rewrite (plus_try_run py.is_number_char g EmptyString s) by done.
  destruct g; [done|by rewrite append_nil].
Qed.

Lemma re_search_unfold p s :
  py.re_search p s =
  match py.match_here p EmptyString s with
  | Some g => Some g
  | None =>
      match s with
      | String _ s' => py.re_search p s'
      | EmptyString => None
      end
  end.
Proof. by destruct s. Qed.

Lemma search_hit p s g :
  py.match_here p EmptyString s = Some g -> py.re_search p s = Some g.
Proof. intros H. by rewrite re_search_unfold, H. Qed.

Lemma search_skip p c s :
  py.match_here p EmptyString (String c s) = None ->
  py.re_search p (String c s) = py.re_search p s.
Proof. intros H. by rewrite re_search_unfold, H. Qed.

(** No match starts at a character that differs from the first letter of
    the pattern. *)
Lemma search_skip_run l p pre s :
  no_letter l pre = true ->
  py.re_search (py.RLit l :: p) (pre +:+ s) = py.re_search (py.RLit l :: p) s.
Proof.
  unfold no_letter.
  induction pre as [|c pre IH]; intros H; norm_append; [done|].
  cbn [string_forall] in H. apply andb_true_iff in H as [Hc H].
  rewrite search_skip; [by apply IH|].
  cbn [py.match_here]. by destruct (py.ci_eqb l c).
Qed.

Ltac skip_chars :=
  repeat (rewrite ?append_cons, ?append_nil;
          rewrite search_skip by reflexivity).

Ltac head_literal :=
  match goal with
  | |- context [py.field_pattern (String ?l ?w)] =>
      change (py.field_pattern (String l w))
        with (py.RLit l :: py.literal w ++
              [py.RStar py.is_space; py.RLit "="; py.RStar py.is_space;
               py.RGroupPlus py.is_number_char])
  end.

(** The leftmost field: after a prefix without the first letter of the
    name, the field is found and its number text captured. *)
Lemma search_field l w pre ws1 ws2 g post :
  no_letter l pre = true ->
  string_forall py.is_space ws1 = true ->
  string_forall py.is_space ws2 = true ->
  number_text g = true ->
  stops py.is_number_char post = true ->
  py.re_search (py.field_pattern (String l w))
    (pre +:+ String l w +:+ ws1 +:+ "=" +:+ ws2 +:+ g +:+ post) = Some g.
Proof.
  intros Hpre H1 H2 [Hg Hg']%number_text_cases Hpost.
  head_literal. rewrite search_skip_run by done.
  apply search_hit.
  change (py.RLit l :: py.literal w ++ _) with (py.field_pattern (String l w)).
  rewrite field_match; try done.
  - by destruct g.
  - clear. cbn. unfold py.ci_eqb. rewrite Ascii.eqb_refl.
    induction w as [|c w IH]; [done|]. cbn. unfold py.ci_eqb.
    by rewrite Ascii.eqb_refl.
  - by apply stops_number_space.
Qed.

(** The search for the offset goes past a slope field. *)
Lemma skip_slope_field ws1 ws2 g sep rest :
  string_forall py.is_space ws1 = true ->
  string_forall py.is_space ws2 = true ->
  string_forall py.is_number_char g = true ->
  no_letter "o" sep = true ->
  py.re_search (py.field_pattern "offset")
    ("slope" +:+ ws1 +:+ "=" +:+ ws2 +:+ g +:+ sep +:+ rest) =
  py.re_search (py.field_pattern "offset") rest.
Proof.
  intros H1 H2 Hg Hsep. skip_chars. head_literal.
  rewrite search_skip_run by (by apply no_letter_space; [apply space_not_o|]).
  rewrite ?append_cons, ?append_nil.
  rewrite search_skip by reflexivity.
  rewrite search_skip_run by (by apply no_letter_space; [apply space_not_o|]).
  rewrite search_skip_run by (by apply no_letter_number; [apply number_not_o|]).
  by rewrite search_skip_run.
Qed.

(** The search for the slope goes past an offset field. *)
Lemma skip_offset_field ws1 ws2 g sep rest :
  string_forall py.is_space ws1 = true ->
  string_forall py.is_space ws2 = true ->
  string_forall py.is_number_char g = true ->
  no_letter "s" sep = true ->
  py.re_search (py.field_pattern "slope")
    ("offset" +:+ ws1 +:+ "=" +:+ ws2 +:+ g +:+ sep +:+ rest) =
  py.re_search (py.field_pattern "slope") rest.
Proof.
  intros H1 H2 Hg Hsep. skip_chars. head_literal.
  rewrite search_skip_run by (by apply no_letter_space; [apply space_not_s|]).
  rewrite ?append_cons, ?append_nil.
  rewrite search_skip by reflexivity.
  rewrite search_skip_run by (by apply no_letter_space; [apply space_not_s|]).
  rewrite search_skip_run by (by apply no_letter_number; [apply number_not_s|]).
  by rewrite search_skip_run.
Qed.

(** X1: the two fields in the writer's order are found with any white space
    around the equals signs (none too), whatever text without the letters s
    and o comes before them, whatever text without the letter o separates
    them, and whatever text follows; the calibration is the pair of the two
    number texts converted by [float], the slope first. *)
Theorem calibration_of_fields pre ws1 ws2 gs sep ws3 ws4 go post :
  no_letter "s" pre = true -> no_letter "o" pre = true ->
  string_forall py.is_space ws1 = true ->
  string_forall py.is_space ws2 = true ->
  string_forall py.is_space ws3 = true ->
  string_forall py.is_space ws4 = true ->
  number_text gs = true -> number_text go = true ->
  stops py.is_number_char sep = true -> no_letter "o" sep = true ->
  stops py.is_number_char post = true ->
  calibration_of_text
    (pre +:+ "slope" +:+ ws1 +:+ "=" +:+ ws2 +:+ gs +:+ sep +:+
     "offset" +:+ ws3 +:+ "=" +:+ ws4 +:+ go +:+ post) =
  both_fields (py.float_of_string gs) (py.float_of_string go).
Proof.
  intros Hps Hpo H1 H2 H3 H4 Hgs Hgo Hsep Hsepo Hpost.
  rewrite calibration_of_text_cases.
  change ("slope" +:+ ?x) with (String "s" ("lope" +:+ x)) at 1.
  rewrite length_app_nonzero.
  change (String "s" ("lope" +:+ ?x)) with ("slope" +:+ x).
  rewrite search_field; try done.
  2:{ apply stops_app; [done|]. intros _. by rewrite append_cons. }
  head_literal. rewrite search_skip_run by done.
  change (py.RLit "o" :: py.literal "ffset" ++ _) with (py.field_pattern "offset").
  destruct (number_text_cases _ Hgs) as [_ Hgs'].
  rewrite skip_slope_field by done.
  pose proof (search_field "o" "ffset" EmptyString ws3 ws4 go post) as H.
  rewrite append_nil in H. by rewrite H.
Qed.

Lemma calibration_of_fields_witness :
  calibration_of_text "pixel slope=  2.5, offset =-1e3 mm" =
  both_fields (py.float_of_string "2.5") (py.float_of_string "-1e3").
Proof.
  apply (calibration_of_fields "pixel " "" "  " "2.5" ", " " " "" "-1e3" " mm");
    reflexivity.
Defined.

(** X2: the order of the two fields does not matter: with the offset field
    first, under the same conditions, the calibration is the same pair. *)
Theorem calibration_of_fields_swapped pre ws1 ws2 gs sep ws3 ws4 go post :
  no_letter "s" pre = true -> no_letter "o" pre = true ->
  string_forall py.is_space ws1 = true ->
  string_forall py.is_space ws2 = true ->
  string_forall py.is_space ws3 = true ->
  string_forall py.is_space ws4 = true ->
  number_text gs = true -> number_text go = true ->
  stops py.is_number_char sep = true -> no_letter "s" sep = true ->
  stops py.is_number_char post = true ->
  calibration_of_text
    (pre +:+ "offset" +:+ ws3 +:+ "=" +:+ ws4 +:+ go +:+ sep +:+
     "slope" +:+ ws1 +:+ "=" +:+ ws2 +:+ gs +:+ post) =
  both_fields (py.float_of_string gs) (py.float_of_string go).
Proof.
  intros Hps Hpo H1 H2 H3 H4 Hgs Hgo Hsep Hseps Hpost.
  rewrite calibration_of_text_cases.
  change ("offset" +:+ ?x) with (String "o" ("ffset" +:+ x)) at 1.
  rewrite length_app_nonzero.
  change (String "o" ("ffset" +:+ ?x)) with ("offset" +:+ x).
  rewrite (search_field "o" "ffset"); try done.
  2:{ apply stops_app; [done|]. intros _. by rewrite append_cons. }
  head_literal. rewrite search_skip_run by done.
  change (py.RLit "s" :: py.literal "lope" ++ _) with (py.field_pattern "slope").
  destruct (number_text_cases _ Hgo) as [_ Hgo'].
  rewrite skip_offset_field by done.
  pose proof (search_field "s" "lope" EmptyString ws1 ws2 gs post) as H.
  rewrite append_nil in H. by rewrite H.
Qed.

Lemma calibration_of_fields_swapped_witness :
  calibration_of_text "offset = 5E+01; slope = 1.000000E-02" =
  both_fields (py.float_of_string "1.000000E-02") (py.float_of_string "5E+01").
Proof.
  apply (calibration_of_fields_swapped "" " " " " "1.000000E-02" "; " " " " "
           "5E+01" ""); reflexivity.
Defined.

(** X3: a description with one field alone gives that field and the default
    of the other one: offset 0.0 beside a slope, slope 1.0 beside an
    offset. *)
Theorem calibration_of_single_field pre ws1 ws2 g post :
  no_letter "s" pre = true -> no_letter "o" pre = true ->
  string_forall py.is_space ws1 = true ->
  string_forall py.is_space ws2 = true ->
  number_text g = true ->
  stops py.is_number_char post = true ->
  no_letter "s" post = true -> no_letter "o" post = true ->
  calibration_of_text (pre +:+ "slope" +:+ ws1 +:+ "=" +:+ ws2 +:+ g +:+ post) =
    both_fields (py.float_of_string g) (py.Ok Float.zero) /\
  calibration_of_text (pre +:+ "offset" +:+ ws1 +:+ "=" +:+ ws2 +:+ g +:+ post) =
    both_fields (py.Ok Float.one) (py.float_of_string g).
Proof.
  intros Hps Hpo H1 H2 Hg Hpost Hposts Hposto.
  destruct (number_text_cases _ Hg) as [_ Hg'].
  rewrite !calibration_of_text_cases. split.
  - change ("slope" +:+ ?x) with (String "s" ("lope" +:+ x)) at 1.
    rewrite length_app_nonzero.
    change (String "s" ("lope" +:+ ?x)) with ("slope" +:+ x).
    rewrite search_field by done.
    head_literal. rewrite search_skip_run by done.
    change (py.RLit "o" :: py.literal "ffset" ++ _)
      with (py.field_pattern "offset").
    rewrite <- (append_empty_r post).
    by rewrite skip_slope_field.
  - change ("offset" +:+ ?x) with (String "o" ("ffset" +:+ x)) at 1.
    rewrite length_app_nonzero.
    change (String "o" ("ffset" +:+ ?x)) with ("offset" +:+ x).
    rewrite (search_field "o" "ffset") by done.
    head_literal. rewrite search_skip_run by done.
    change (py.RLit "s" :: py.literal "lope" ++ _)
      with (py.field_pattern "slope").
    rewrite <- (append_empty_r post).
    by rewrite skip_offset_field.
Qed.

Lemma calibration_of_single_field_witness :
  calibration_of_text "slope = 2 mm" =
    both_fields (py.float_of_string "2") (py.Ok Float.zero) /\
  calibration_of_text "offset = 2 mm" =
    both_fields (py.Ok Float.one) (py.float_of_string "2").
Proof.
  apply (calibration_of_single_field "" " " " " "2" " mm"); reflexivity.
Defined.

(** No match of a field pattern in a text without an equals sign. *)
Lemma star_try_none {R} cls (k : string -> option R) s :
  (forall t, no_equals t = true -> k t = None) ->
  no_equals s = true -> py.star_try cls k s = None.
Proof.
  unfold no_equals.
  intros Hk. induction s as [|c s IH]; intros Hs; [by apply Hk|].
  cbn [py.star_try]. pose proof Hs as Hs'. cbn [string_forall] in Hs'.
  apply andb_true_iff in Hs' as [_ Hs'].
  destruct (cls c); [rewrite IH by done|]; by apply Hk.
Qed.

Lemma field_needs_equals w : forall cap s,
  no_equals s = true -> py.match_here (py.field_pattern w) cap s = None.
Proof.
  unfold py.field_pattern, py.literal.
  induction (list_ascii_of_string w) as [|l ls IH]; intros cap s Hs.
  - cbn [map app py.match_here]. apply star_try_none; [|done].
    intros [|c t] Ht; [done|]. cbn [py.match_here].
    unfold no_equals in Ht.
    cbn [string_forall] in Ht. apply andb_true_iff in Ht as [Hc _].
    destruct (py.ci_eqb "=" c) eqn:E; [|done].
    apply equals_only in E. by rewrite E in Hc.
  - cbn [map app py.match_here]. destruct s as [|c s]; [done|].
    unfold no_equals in Hs.
    cbn [string_forall] in Hs. apply andb_true_iff in Hs as [_ Hs].
    destruct (py.ci_eqb l c); [by apply IH|done].
Qed.

Lemma search_needs_equals w s :
  no_equals s = true -> py.re_search (py.field_pattern w) s = None.
Proof.
  induction s as [|c s IH]; intros Hs; rewrite re_search_unfold,
    field_needs_equals by done; [done|].
  unfold no_equals in Hs.
  cbn [string_forall] in Hs. apply andb_true_iff in Hs as [_ Hs]. by apply IH.
Qed.

(** X4: a description without an equals sign, whatever else it says, gives
    the default calibration, slope 1.0 and offset 0.0. *)
Theorem calibration_without_equals desc :
  no_equals desc = true ->
  calibration_of_text desc = py.Ok (Float.one, Float.zero).
Proof.
  intros H. apply calibration_no_match; by apply search_needs_equals.
Qed.

Lemma calibration_without_equals_witness :
  calibration_of_text "slope 2.0, offset 3.0" = py.Ok (Float.one, Float.zero).
Proof. apply calibration_without_equals. reflexivity. Defined.

(** ** Letter case *)

Ltac all_ascii c := destruct c as [[] [] [] [] [] [] [] []]; reflexivity.

Lemma lower_idem c : py.lower (py.lower c) = py.lower c.
Proof. all_ascii c. Qed.

Lemma ci_eqb_lower l c : py.ci_eqb l (py.lower c) = py.ci_eqb l c.
Proof. unfold py.ci_eqb. by rewrite lower_idem. Qed.

Lemma is_space_lower c : py.is_space (py.lower c) = py.is_space c.
Proof. all_ascii c. Qed.

Lemma is_number_char_lower c :
  py.is_number_char (py.lower c) = py.is_number_char c.
Proof. all_ascii c. Qed.

Lemma is_digit_lower c : py.is_digit (py.lower c) = py.is_digit c.
Proof. all_ascii c. Qed.

Lemma digit_lower_fixed c : py.is_digit c = true -> py.lower c = c.
Proof.
  destruct c as [[] [] [] [] [] [] [] []]; (reflexivity || discriminate).
Qed.

Lemma exponent_char_lower c :
  ((py.lower c =? "e")%char || (py.lower c =? "E")%char) =
  ((c =? "e")%char || (c =? "E")%char).
Proof. all_ascii c. Qed.

Lemma lower_string_app a b :
  lower_string (a +:+ b) = lower_string a +:+ lower_string b.
Proof.
  unfold lower_string.
  induction a as [|c a IH]; norm_append; [done|].
  cbn [string_map]. by rewrite append_cons, IH.
Qed.

Lemma length_lower_string s :
  String.length (lower_string s) = String.length s.
Proof. induction s as [|c s IH]; cbn; [done|]. by f_equal. Qed.

Lemma star_try_lower cls (k k' : string -> option string) s :
  (forall c, cls (py.lower c) = cls c) ->
  (forall t, k' (lower_string t) = option_map lower_string (k t)) ->
  py.star_try cls k' (lower_string s) =
  option_map lower_string (py.star_try cls k s).
Proof.
  intros Hcls Hk. induction s as [|c s IH]; [apply (Hk EmptyString)|].
  cbn [lower_string string_map py.star_try]. fold (lower_string s).
  rewrite Hcls. destruct (cls c); [|apply (Hk (String c s))].
  rewrite IH. destruct (py.star_try cls k s); [done|].
  apply (Hk (String c s)).
Qed.

Lemma plus_try_lower cls (k k' : string -> string -> option string) s :
  (forall c, cls (py.lower c) = cls c) ->
  (forall a t, k' (lower_string a) (lower_string t) =
               option_map lower_string (k a t)) ->
  forall acc,
  py.plus_try cls k' (lower_string acc) (lower_string s) =
  option_map lower_string (py.plus_try cls k acc s).
Proof.
  intros Hcls Hk. induction s as [|c s IH]; intros acc; [done|].
  cbn [lower_string string_map py.plus_try]. fold (lower_string s).
  rewrite Hcls. destruct (cls c); [|done]. cbv zeta.
  change (String (py.lower c) EmptyString)
    with (lower_string (String c EmptyString)).
  rewrite <- lower_string_app, IH.
  destruct (py.plus_try cls k _ s); [done|]. apply Hk.
Qed.

(** A match in the text in small letters is the match in the text, in small
    letters. *)
Lemma match_here_lower p :
  Forall caseless_item p ->
  forall cap s,
  py.match_here p (lower_string cap) (lower_string s) =
  option_map lower_string (py.match_here p cap s).
Proof.
  induction 1 as [|i p Hi _ IH]; intros cap s; [done|].
  destruct i as [l|cls|cls]; cbn [py.match_here].
  - destruct s as [|c s]; [done|].
    cbn [lower_string string_map]. fold (lower_string s).
    rewrite ci_eqb_lower. by destruct (py.ci_eqb l c).
  - apply star_try_lower; [exact Hi|]. intros t. apply IH.
  - change EmptyString with (lower_string EmptyString) at 1.
    apply (plus_try_lower cls _ _ s Hi). intros a t. apply IH.
Qed.

Lemma re_search_lower p s :
  Forall caseless_item p ->
  py.re_search p (lower_string s) =
  option_map lower_string (py.re_search p s).
Proof.
  intros Hp. induction s as [|c s IH].
  - cbn [lower_string string_map py.re_search].
    change EmptyString with (lower_string EmptyString) at 1 2.
    rewrite match_here_lower by done.
    by destruct (py.match_here p _ _).
  - rewrite (re_search_unfold p (String c s)), re_search_unfold.
    change EmptyString with (lower_string EmptyString) at 1.
    rewrite match_here_lower by done.
    destruct (py.match_here p _ _); [done|].
    cbn [lower_string string_map]. exact IH.
Qed.

Lemma field_pattern_caseless name :
  Forall caseless_item (py.field_pattern name).
Proof.
  unfold py.field_pattern, py.literal. apply Forall_app. split.
  - induction (list_ascii_of_string name); constructor; done.
  - repeat constructor; intros c; cbn;
      [apply is_space_lower|apply is_space_lower|apply is_number_char_lower].
Qed.

Lemma take_sign_lower s :
  py.take_sign (lower_string s) =
  (fst (py.take_sign s), lower_string (snd (py.take_sign s))).
Proof.
  destruct s as [|c s]; [done|]. cbn [lower_string string_map].
  all_ascii c.
Qed.

Lemma take_digits_lower s :
  py.take_digits (lower_string s) =
  (fst (py.take_digits s), lower_string (snd (py.take_digits s))).
Proof.
  induction s as [|c s IH]; [done|].
  cbn [lower_string string_map py.take_digits]. fold (lower_string s).
  rewrite is_digit_lower. destruct (py.is_digit c) eqn:Hc; [|done].
  rewrite IH. destruct (py.take_digits s) as [ds rest]. cbn [fst snd].
  by rewrite digit_lower_fixed.
Qed.

Lemma fraction_lower r1 :
  match lower_string r1 with
  | String "." t => py.take_digits t
  | _ => (EmptyString, lower_string r1)
  end =
  (fst match r1 with
       | String "." t => py.take_digits t
       | _ => (EmptyString, r1)
       end,
   lower_string (snd match r1 with
                     | String "." t => py.take_digits t
                     | _ => (EmptyString, r1)
                     end)).
Proof.
  destruct r1 as [|c t]; [done|]. cbn [lower_string string_map].
  fold (lower_string t).
  destruct c as [[] [] [] [] [] [] [] []];
    first [reflexivity|apply take_digits_lower].
Qed.

(** [float] reads a literal in small letters as it reads the literal. *)
Lemma parse_float_literal_lower s :
  py.parse_float_literal (lower_string s) = py.parse_float_literal s.
Proof.
  unfold py.parse_float_literal. rewrite take_sign_lower.
  destruct (py.take_sign s) as [neg r0]. cbn [fst snd].
  rewrite take_digits_lower.
  destruct (py.take_digits r0) as [intd r1]. cbn [fst snd].
  rewrite fraction_lower.
  destruct (match r1 with
            | String "." t => py.take_digits t
            | _ => (EmptyString, r1)
            end) as [fracd r2]. cbn [fst snd].
  destruct (_ =? 0)%nat; [done|].
  destruct r2 as [|c t]; [done|]. cbn [lower_string string_map].
  fold (lower_string t). rewrite exponent_char_lower.
  destruct (_ || _); [|done].
  rewrite take_sign_lower. destruct (py.take_sign t) as [eneg r3].
  cbn [fst snd]. rewrite take_digits_lower.
  destruct (py.take_digits r3) as [expd r4]. cbn [fst snd].
  destruct expd; [done|]. by destruct r4.
Qed.

Lemma float_of_string_lower s :
  py.float_of_string (lower_string s) = py.float_of_string s.
Proof. unfold py.float_of_string. by rewrite parse_float_literal_lower. Qed.

Lemma calibration_of_lower desc :
  calibration_of_text (lower_string desc) = calibration_of_text desc.
Proof.
  rewrite !calibration_of_text_cases, length_lower_string.
  rewrite !re_search_lower by apply field_pattern_caseless.
  destruct (py.re_search (py.field_pattern "slope") desc),
           (py.re_search (py.field_pattern "offset") desc);
    cbn [option_map]; by rewrite ?float_of_string_lower.
Qed.

(** X5: two descriptions that differ only in the case of their ASCII
    letters give the same calibration, or the same error: the field names
    and the exponent letter are read in either case. *)
Theorem calibration_ignores_case desc1 desc2 :
  lower_string desc1 = lower_string desc2 ->
  calibration_of_text desc1 = calibration_of_text desc2.
Proof.
  intros H. by rewrite <- (calibration_of_lower desc1), H, calibration_of_lower.
Qed.

Lemma calibration_ignores_case_witness :
  calibration_of_text "Slope = 2.5E-1 OFFSET = 3" =
  calibration_of_text "sLOPE = 2.5e-1 offset = 3".
Proof. apply calibration_ignores_case. reflexivity. Defined.

(** ** The description that the writer produces *)

Lemma all_digits_number s :
  all_digits s = true -> string_forall py.is_number_char s = true.
Proof.
  induction s as [|c s IH]; [done|]. cbn.
  intros [Hc Hs]%andb_true_iff. rewrite IH by done.
  unfold py.is_number_char. by rewrite Hc.
Qed.

Lemma sci_string_number neg m x : number_text (py.sci_string neg m x) = true.
Proof.
  unfold number_text. apply andb_true_iff. split.
  - unfold py.sci_string. cbn [py.fixed_digits]. norm_append. by destruct neg.
  - unfold py.sci_string, py.exponent_string.
    rewrite !string_forall_app.
    rewrite (all_digits_number (py.fixed_digits 1 _))
      by apply fixed_digits_shape.
    rewrite (all_digits_number (py.fixed_digits 6 _))
      by apply fixed_digits_shape.
    cbn [string_forall].
    rewrite (all_digits_number (py.fixed_digits _ _))
      by apply fixed_digits_shape.
    by destruct neg, (x <? 0).
Qed.

Lemma format_6E_number x :
  Float.is_finite x = true -> number_text (py.format_6E x) = true.
Proof.
  destruct x as [s|s| |s m e]; try discriminate; intros _; cbn [py.format_6E].
  - apply sci_string_number.
  - destruct (py.sci_digits _ _). apply sci_string_number.
Qed.

Lemma format_6E_no_s x : no_letter "s" (py.format_6E x) = true.
Proof.
  destruct (Float.is_finite x) eqn:E.
  - apply format_6E_number, number_text_cases in E as [_ E].
    by apply no_letter_number; [apply number_not_s|].
  - by destruct x as [s|[]| |s m e].
Qed.

Lemma format_6E_no_o x : no_letter "o" (py.format_6E x) = true.
Proof.
  destruct (Float.is_finite x) eqn:E.
  - apply format_6E_number, number_text_cases in E as [_ E].
    by apply no_letter_number; [apply number_not_o|].
  - by destruct x as [s|[]| |s m e].
Qed.

Lemma description_tag_fields slope offset :
  description_tag slope offset =
  "slope" +:+ " " +:+ "=" +:+ " " +:+ py.format_6E slope +:+ " " +:+
  "offset" +:+ " " +:+ "=" +:+ " " +:+ py.format_6E offset +:+ "".
Proof. unfold description_tag. norm_append. by rewrite append_empty_r. Qed.

Lemma slope_search_written slope offset :
  py.re_search (py.field_pattern "slope") (description_tag slope offset) =
  captured slope.
Proof.
  destruct (Float.is_finite slope) eqn:E.
  - rewrite description_tag_fields.
    pose proof (search_field "s" "lope" EmptyString " " " "
                  (py.format_6E slope)
                  (" " +:+ "offset" +:+ " " +:+ "=" +:+ " " +:+
                   py.format_6E offset +:+ "")) as H.
    rewrite append_nil in H. rewrite H; try done.
    + by destruct slope.
    + by apply format_6E_number.
  - unfold description_tag.
    pose proof (format_6E_no_s offset) as Ho.
    destruct slope as [s|[]| |s m e]; try discriminate;
      cbn [py.format_6E captured].
    + apply search_hit. reflexivity.
    + skip_chars. head_literal.
      rewrite <- (append_empty_r (py.format_6E offset)).
      by rewrite search_skip_run.
    + skip_chars. head_literal.
      rewrite <- (append_empty_r (py.format_6E offset)).
      by rewrite search_skip_run.
Qed.

Lemma offset_search_written slope offset :
  py.re_search (py.field_pattern "offset") (description_tag slope offset) =
  captured offset.
Proof.
  unfold description_tag. skip_chars. head_literal.
  rewrite search_skip_run by apply format_6E_no_o.
  rewrite ?append_cons, ?append_nil. rewrite search_skip by reflexivity.
  change (py.RLit "o" :: py.literal "ffset" ++ _) with (py.field_pattern "offset").
  destruct (Float.is_finite offset) eqn:E.
  - pose proof (search_field "o" "ffset" EmptyString " " " "
                  (py.format_6E offset) EmptyString) as H.
    rewrite append_nil, append_empty_r in H.
    rewrite ?append_cons, ?append_nil in H. rewrite H; try done.
    + by destruct offset.
    + by apply format_6E_number.
  - by destruct offset as [s|[]| |s m e].
Qed.

Lemma written_description_searched slope offset :
  calibration_of_text (description_tag slope offset) =
  both_fields
    match captured slope with
    | Some g => py.float_of_string g
    | None => py.Ok Float.one
    end
    match captured offset with
    | Some g => py.float_of_string g
    | None => py.Ok Float.zero
    end.
Proof.
  rewrite calibration_of_text_cases.
  rewrite slope_search_written, offset_search_written.
  unfold description_tag.
  change ("slope = " +:+ ?x) with (String "s" ("lope = " +:+ x)).
  reflexivity.
Qed.

(** X6: the calibration read from the description that the writer itself
    produces, for every slope and offset: a finite value is parsed from its
    text, plus infinity and NaN are written as texts that the patterns do
    not match and come back as the defaults 1.0 and 0.0, and minus infinity
    makes the reader fail on the text of a lone minus sign. *)
Theorem written_calibration slope offset :
  calibration_of_text (description_tag slope offset) =
  both_fields (reread Float.one slope) (reread Float.zero offset).
Proof.
  rewrite written_description_searched.
  by destruct slope as [s|[]| |s m e], offset as [s'|[]| |s' m' e'].
Qed.

Lemma format_6E_reread x :
  Float.is_finite x = true ->
  exists v, py.float_of_string (py.format_6E x) = py.Ok v /\ decimal7 x v.
Proof.
  intros Hx. destruct (format_6E_sci6 x Hx) as [_ H].
  destruct x as [s|s| |s m e]; try discriminate; cbn [decimal7].
  - unfold py.float_of_string. rewrite H. by eexists.
  - destruct H as (d & e10 & Hp & Hd & Hw).
    unfold py.float_of_string. rewrite Hp. eexists. split; [done|].
    by exists d, e10.
Qed.

(** A finite calibration is always read back from the writer's description,
    as the nearest seven-digit decimals. *)
Lemma finite_calibration_read_back slope offset :
  Float.is_finite slope = true -> Float.is_finite offset = true ->
  exists slope' offset',
    calibration_of_text (description_tag slope offset) =
      py.Ok (slope', offset') /\
    decimal7 slope slope' /\ decimal7 offset offset'.
Proof.
  intros Hs Ho. rewrite written_description_searched.
  destruct (format_6E_reread slope Hs) as (s' & Hs1 & Hs').
  destruct (format_6E_reread offset Ho) as (o' & Ho1 & Ho').
  exists s', o'. split; [|done].
  destruct slope as [s|s| |s m e], offset as [s0|s0| |s0 m0 e0];
    try discriminate; cbn [captured]; by rewrite Hs1, Ho1.
Qed.

(** ** Files *)

Lemma write_result path data rescale slope offset fs :
  write_xre_tif path data rescale slope offset fs =
  match convert_to_u16 data rescale slope offset with
  | py.Ok (shape, samples) =>
      (py.Ok tt, <[path := written_file shape samples slope offset]> fs)
  | py.Raise e => (py.Raise e, fs)
  end.
Proof.
  unfold write_xre_tif, bind, lift.
  by destruct (convert_to_u16 data rescale slope offset) as [[shape samples]|e].
Qed.

Lemma convert_to_u16_ok data rescale slope offset shape samples :
  convert_to_u16 data rescale slope offset = py.Ok (shape, samples) ->
  shape = ndarray_shape data /\ length samples = ndarray_length data /\
  (writable data -> Forall (fun v => is_uint16 v = true) samples).
Proof.
  unfold convert_to_u16, to_stored, clip_to_stored.
  destruct (rescale && _); [destruct (Float.eqb _ _); [discriminate|]|];
    destruct data as [sh buf|sh buf|sh buf]; intros [= <- <-];
    cbn [ndarray_shape ndarray_length]; rewrite ?length_map;
    (split; [done|split; [done|]]); intros (_ & _ & _ & H);
    try exact H; apply Forall_map_float_to_uint16.
Qed.

Lemma open_written path shape samples slope offset fs :
  (0 < fst shape)%nat -> (0 < snd shape)%nat ->
  PIL.open path (<[path := written_file shape samples slope offset]> fs) =
  (py.Ok (Image.Make "I;16" (snd shape, fst shape) (TIFF.pack true samples)
                     true
                     (Some (TIFF.directory (snd shape) (fst shape)
                              (description_tag slope offset) "py_xre_tiff"))),
   <[path := written_file shape samples slope offset]> fs).
Proof.
  intros H1 H2. unfold PIL.open, written_file. rewrite lookup_insert_eq.
  cbn [TIFF.tags TIFF.strip TIFF.little_endian].
  by rewrite check_directory_directory.
Qed.

Lemma eqb_zero x : Float.eqb x Float.zero = is_zero x.
Proof. by destruct x as [[]|[]| |[] m e]. Qed.


(** X7: the one failure that [write_xre_tif] itself raises is the
    calibration error, and it raises it exactly when rescaling is asked for,
    the data is not uint16 and the slope is a zero of either sign; a NaN or
    infinite slope passes the guard. *)
Theorem write_fails_on_zero_slope_only path data rescale slope offset fs :
  fst (write_xre_tif path data rescale slope offset fs) =
  if rescale && negb (dtype_eqb (ndarray_dtype data) uint16) && is_zero slope
  then py.Raise (py.ValueError "Slope cannot be zero when rescaling")
  else py.Ok tt.
Proof.
  rewrite write_result. unfold convert_to_u16. rewrite eqb_zero.
  destruct (rescale && _); cbn [andb];
    [destruct (is_zero slope)|]; by destruct data.
Qed.

(** X8: a write that fails leaves every file as it was: the error is raised
    before anything is saved. *)
Theorem failed_write_changes_nothing path data rescale slope offset fs e :
  fst (write_xre_tif path data rescale slope offset fs) = py.Raise e ->
  snd (write_xre_tif path data rescale slope offset fs) = fs.
Proof.
  rewrite write_result.
  by destruct (convert_to_u16 _ _ _ _) as [[shape samples]|e'].
Qed.

Lemma failed_write_changes_nothing_witness :
  snd (write_xre_tif "a.tif" (F32Array (1%nat, 1%nat) [f32_3]) true
         Float.zero Float.zero ∅) = ∅.
Proof.
  apply (failed_write_changes_nothing _ _ _ _ _ _
           (py.ValueError "Slope cannot be zero when rescaling")).
  reflexivity.
Defined.

(** X9: a write touches no other file than the one at its path. *)
Theorem write_keeps_other_files path other data rescale slope offset fs :
  other <> path ->
  snd (write_xre_tif path data rescale slope offset fs) !! other = fs !! other.
Proof.
  intros Hne. rewrite write_result.
  destruct (convert_to_u16 _ _ _ _) as [[shape samples]|e']; cbn [snd];
    [by rewrite lookup_insert_ne|done].
Qed.

Lemma write_keeps_other_files_witness :
  snd (write_xre_tif "a.tif" (U16Array (1%nat, 1%nat) [7]) false
         Float.one Float.zero {["b.tif"%string := example_file "x"]})
    !! "b.tif"%string =
  ({["b.tif"%string := example_file "x"]} : gmap string TIFF.container)
    !! "b.tif"%string.
Proof. apply write_keeps_other_files. discriminate. Defined.

(** X10: a successful write replaces the file at its path: whatever was
    written there before, the files are those that the write alone would
    have left. *)
Theorem write_overwrites path d1 r1 s1 o1 d2 r2 s2 o2 fs :
  fst (write_xre_tif path d2 r2 s2 o2 fs) = py.Ok tt ->
  write_xre_tif path d2 r2 s2 o2
    (snd (write_xre_tif path d1 r1 s1 o1 fs)) =
  write_xre_tif path d2 r2 s2 o2 fs.
Proof.
  rewrite !write_result.
  destruct (convert_to_u16 d2 _ _ _) as [[shape2 samples2]|e2];
    [intros _|discriminate].
  destruct (convert_to_u16 d1 _ _ _) as [[shape1 samples1]|e1]; cbn [snd];
    [by rewrite insert_insert_eq|done].
Qed.

Lemma write_overwrites_witness :
  write_xre_tif "a.tif" (U16Array (1%nat, 1%nat) [7]) false Float.one
    Float.zero
    (snd (write_xre_tif "a.tif" (F32Array (1%nat, 1%nat) [f32_3]) false
            Float.one Float.zero ∅)) =
  write_xre_tif "a.tif" (U16Array (1%nat, 1%nat) [7]) false Float.one
    Float.zero ∅.
Proof. apply write_overwrites. reflexivity. Defined.

(** X11: every file that [write_xre_tif] has written can be read back
    without rescaling; the result is a uint16 grid of the shape of the data
    that holds the converted samples, each of them a 16-bit unsigned
    value. *)
Theorem written_file_is_readable path data rescale slope offset fs fs' :
  writable data ->
  write_xre_tif path data rescale slope offset fs = (py.Ok tt, fs') ->
  exists samples,
    convert_to_u16 data rescale slope offset =
      py.Ok (ndarray_shape data, samples) /\
    Forall (fun v => is_uint16 v = true) samples /\
    read_xre_tif path false fs' =
      (py.Ok (U16Array (ndarray_shape data) samples), fs').
Proof.
  intros Hw. rewrite write_result.
  destruct (convert_to_u16 _ _ _ _) as [[shape samples]|e'] eqn:Hc;
    [|discriminate].
  intros [= <-].
  destruct (convert_to_u16_ok _ _ _ _ _ _ Hc) as (-> & Hlen & Hs).
  specialize (Hs Hw). destruct Hw as (H1 & H2 & H3 & _).
  exists samples. split; [done|]. split; [done|].
  unfold read_xre_tif, bind. rewrite open_written by done.
  unfold lift, PIL.to_array. cbn [Image.size Image.raw Image.raw_le].
  rewrite length_pack, Hlen, H3.
  replace (_ =? _)%nat with true by (symmetry; apply Nat.eqb_eq; lia).
  rewrite unpack_pack by done. by rewrite <- surjective_pairing.
Qed.

Lemma written_file_is_readable_witness :
  exists samples,
    convert_to_u16 (F32Array (1%nat, 1%nat) [f32_70000]) false Float.one
                   Float.zero = py.Ok ((1%nat, 1%nat), samples) /\
    Forall (fun v => is_uint16 v = true) samples /\
    read_xre_tif "a.tif" false
      (snd (write_xre_tif "a.tif" (F32Array (1%nat, 1%nat) [f32_70000]) false
              Float.one Float.zero ∅)) =
      (py.Ok (U16Array (1%nat, 1%nat) samples),
       snd (write_xre_tif "a.tif" (F32Array (1%nat, 1%nat) [f32_70000]) false
              Float.one Float.zero ∅)).
Proof.
  apply (written_file_is_readable "a.tif" (F32Array (1%nat, 1%nat) [f32_70000])
           false Float.one Float.zero ∅).
  - unfold writable. cbn. repeat split; (lia || exact I).
  - reflexivity.
Defined.





(** X14: a rescaled read is the plain read followed by the forward
    conversion with the calibration that [get_metadata] reports; it fails
    when one of the two fails, with the error of the first that does. *)
Theorem rescaled_read_decomposes path fs :
  read_xre_tif path true fs =
  match read_xre_tif path false fs with
  | (py.Raise e, fs') => (py.Raise e, fs')
  | (py.Ok data, fs') =>
      match get_metadata path fs' with
      | (py.Raise e, fs'') => (py.Raise e, fs'')
      | (py.Ok md, fs'') => (py.Ok (apply_calibration md data), fs'')
      end
  end.
Proof.
  unfold read_xre_tif, get_metadata, bind, PIL.open.
  destruct (fs !! path) as [c|] eqn:Hc; [|done].
  destruct (TIFF.check_directory (TIFF.tags c)) as [[w h]|] eqn:Hd; [|done].
  unfold lift, PIL.to_array. cbn [Image.size Image.raw Image.raw_le].
  destruct (_ =? _)%nat; [|done]. unfold ret. rewrite Hc, Hd.
  by destruct (_extract_slope_offset _) as [[s o]|e].
Qed.

(** X15: [read_xre_tif] and [get_metadata] never change a file, whether
    they succeed or fail. *)
Theorem reads_change_nothing path rescale fs :
  snd (read_xre_tif path rescale fs) = fs /\ snd (get_metadata path fs) = fs.
Proof.
  unfold read_xre_tif, get_metadata, bind, PIL.open.
  destruct (fs !! path) as [c|]; [|done].
  destruct (TIFF.check_directory (TIFF.tags c)) as [[w h]|]; [|done].
  unfold lift, PIL.to_array. cbn [Image.size Image.raw Image.raw_le].
  split.
  - destruct (_ =? _)%nat; [|done].
    destruct rescale; [|done].
    by destruct (_extract_slope_offset _) as [[s o]|e].
  - by destruct (_extract_slope_offset _) as [[s o]|e].
Qed.

(** X16: on a path where there is no file, [read_xre_tif], with or without
    rescaling, and [get_metadata] raise [FileNotFoundError]. *)
Theorem missing_file_raises path rescale fs :
  fs !! path = None ->
  read_xre_tif path rescale fs = (py.Raise py.FileNotFoundError, fs) /\
  get_metadata path fs = (py.Raise py.FileNotFoundError, fs).
Proof.
  intros H. unfold read_xre_tif, get_metadata, bind, PIL.open.
  by rewrite H.
Qed.

Lemma missing_file_raises_witness :
  read_xre_tif "a.tif" true {["b.tif"%string := bare_file]} =
    (py.Raise py.FileNotFoundError, {["b.tif"%string := bare_file]}) /\
  get_metadata "a.tif" {["b.tif"%string := bare_file]} =
    (py.Raise py.FileNotFoundError, {["b.tif"%string := bare_file]}).
Proof. apply missing_file_raises. reflexivity. Defined.



(** X18: a file without a description tag is read with rescaling under the
    default calibration, and the conversion is exact: the result is the
    float32 grid of the samples themselves, every element finite and equal
    in value to its sample. *)
Theorem rescaled_read_without_description path fs c shape buf :
  fs !! path = Some c ->
  TIFF.tags c !! TIFF.ImageDescription = None ->
  read_xre_tif path false fs = (py.Ok (U16Array shape buf), fs) ->
  Forall (fun v => is_uint16 v = true) buf ->
  read_xre_tif path true fs =
    (py.Ok (F32Array shape (map np.uint16_to_float32 buf)), fs) /\
  Forall (fun v =>
            Float.is_finite (np.uint16_to_float32 v) = true /\
            (Float.to_Q (np.uint16_to_float32 v) == inject_Z v)%Q) buf.
Proof.
  intros Hc Hd Hr Hbuf. split.
  - revert Hr. unfold read_xre_tif, bind, PIL.open. rewrite Hc.
    destruct (TIFF.check_directory (TIFF.tags c)) as [[w h]|]; [|done].
    unfold lift, PIL.to_array. cbn [Image.size Image.raw Image.raw_le].
    destruct (_ =? _)%nat; [|done]. unfold ret. intros [= <- <-].
    erewrite extract_without_description; [|reflexivity|done].
    cbn [fst snd]. do 3 f_equal.
    induction Hbuf as [|v buf Hv _ IH]; [done|]. cbn [map].
    by rewrite IH, (proj1 (default_forward v Hv)).
  - clear Hr. induction Hbuf as [|v buf Hv _ IH]; [by constructor|].
    constructor; [|done].
    by destruct (default_forward v Hv) as (_ & ? & ?).
Qed.

Lemma rescaled_read_without_description_witness :
  read_xre_tif "a.tif" true {["a.tif"%string := bare_file]} =
    (py.Ok (F32Array (1%nat, 2%nat) (map np.uint16_to_float32 [7; 9])),
     {["a.tif"%string := bare_file]}) /\
  Forall (fun v =>
            Float.is_finite (np.uint16_to_float32 v) = true /\
            (Float.to_Q (np.uint16_to_float32 v) == inject_Z v)%Q) [7; 9].
Proof.
  apply (rescaled_read_without_description "a.tif" _ bare_file).
  - apply lookup_singleton_eq.
  - vm_compute. reflexivity.
  - vm_compute. reflexivity.
  - repeat constructor.
Defined.

Lemma default_cycle_exact_all :
  all_from (Z.to_nat 65536) 0 default_cycle_exact = true.
Proof. vm_compute. reflexivity. Qed.

Lemma default_cycle v :
  is_uint16 v = true ->
  to_stored Fmt.binary32 Float.one Float.zero
            (to_physical Float.one Float.zero v) = v.
Proof.
  intros Hv. unfold is_uint16 in Hv. apply andb_true_iff in Hv as [H0 H1].
  apply Z.leb_le in H0, H1.
  pose proof (all_from_spec _ _ 0 v default_cycle_exact_all) as Hin.
  rewrite Z2Nat.id in Hin by lia. specialize (Hin ltac:(lia)).
  by apply Z.eqb_eq.
Qed.

(** X19: under the default calibration the whole cycle is lossless: a
    uint16 grid written, read with rescaling, written again from the float32
    result with rescaling and read without rescaling comes back element for
    element. *)
Theorem default_calibration_cycle path1 path2 shape buf fs :
  u16_grid_ok shape buf ->
  exists fbuf fs1 fs2,
    write_xre_tif path1 (U16Array shape buf) false Float.one Float.zero fs =
      (py.Ok tt, fs1) /\
    read_xre_tif path1 true fs1 = (py.Ok (F32Array shape fbuf), fs1) /\
    write_xre_tif path2 (F32Array shape fbuf) true Float.one Float.zero fs1 =
      (py.Ok tt, fs2) /\
    read_xre_tif path2 false fs2 = (py.Ok (U16Array shape buf), fs2).
Proof.
  intros (H1 & H2 & Hlen & Hbuf). destruct shape as [h w]. cbn [fst snd] in *.
  eexists _, _, _. split; [apply write_uint16_result|]. cbn [fst snd].
  split.
  { apply (read_written_rescale path1 w h _ _ buf fs Float.one Float.zero);
      first [done|apply default_calibration_parsed]. }
  rewrite write_result. unfold convert_to_u16.
  cbn [ndarray_dtype dtype_eqb negb andb np.fmt_of].
  change (Float.eqb Float.one Float.zero) with false. cbv iota.
  rewrite map_map.
  assert (Hm : map (fun v => to_stored Fmt.binary32 Float.one Float.zero
                                (to_physical Float.one Float.zero v)) buf
               = buf).
  { clear Hlen. induction Hbuf as [|v buf Hv _ IH]; [done|]. cbn [map].
    by rewrite default_cycle, IH. }
  rewrite Hm. split; [reflexivity|].
  unfold written_file. cbn [fst snd].
  rewrite read_written; try done; [by rewrite unpack_pack|].
  rewrite length_pack. lia.
Qed.

Lemma default_calibration_cycle_witness :
  exists fbuf fs1 fs2,
    write_xre_tif "a.tif" (U16Array (1%nat, 2%nat) [0; 65535]) false
      Float.one Float.zero ∅ = (py.Ok tt, fs1) /\
    read_xre_tif "a.tif" true fs1 =
      (py.Ok (F32Array (1%nat, 2%nat) fbuf), fs1) /\
    write_xre_tif "b.tif" (F32Array (1%nat, 2%nat) fbuf) true Float.one
      Float.zero fs1 = (py.Ok tt, fs2) /\
    read_xre_tif "b.tif" false fs2 =
      (py.Ok (U16Array (1%nat, 2%nat) [0; 65535]), fs2).
Proof.
  apply default_calibration_cycle. unfold u16_grid_ok. cbn.
  repeat split; try lia. repeat constructor.
Defined.

(** * The rescaled round trip *)

(** ** Rounding to a binary format *)

Lemma iter_pos_nat {A} (f : A -> A) p : forall x,
  SpecFloat.iter_pos f p x = Nat.iter (Pos.to_nat p) f x.
Proof.
  induction p as [p IH|p IH|]; intros x; cbn [SpecFloat.iter_pos].
  - rewrite !IH, Pos2Nat.inj_xI.
    replace (S (2 * Pos.to_nat p)) with (Pos.to_nat p + (Pos.to_nat p + 1))%nat
      by lia.
    rewrite !Nat.iter_add. reflexivity.
  - rewrite !IH, Pos2Nat.inj_xO.
    replace (2 * Pos.to_nat p)%nat with (Pos.to_nat p + Pos.to_nat p)%nat by lia.
    by rewrite Nat.iter_add.
  - reflexivity.
Qed.

Lemma shr_1_spec m r s :
  0 <= m ->
  shr_1 (Build_shr_record m r s) =
  Build_shr_record (m / 2) (Z.odd m) (r || s).
Proof.
  intros Hm. destruct m as [|[p|p|]|p]; try lia; cbn [shr_1]; f_equal.
  - rewrite Pos2Z.inj_xI. apply Z.div_unique with 1; lia.
  - rewrite Pos2Z.inj_xO. apply Z.div_unique with 0; lia.
Qed.

(** [n] halvings of a mantissa: the mantissa is divided by [2 ^ n], and
    nothing is recorded as lost exactly when nothing was lost and the
    division is exact. *)
Lemma shr_iter n : forall m r s,
  0 <= m ->
  let mrs := Nat.iter n shr_1 (Build_shr_record m r s) in
  shr_m mrs = m / 2 ^ Z.of_nat n /\
  (r || s = false -> m mod 2 ^ Z.of_nat n = 0 ->
   shr_r mrs = false /\ shr_s mrs = false).
Proof.
  induction n as [|n IH]; intros m r s Hm.
  - cbn. rewrite Z.div_1_r. split; [done|]. by intros ?%orb_false_elim.
  - rewrite Nat.iter_succ_r, shr_1_spec by done.
    assert (H2 : 0 <= m / 2) by (apply Z.div_pos; lia).
    destruct (IH (m / 2) (Z.odd m) (r || s) H2) as [IH1 IH2].
    cbv zeta. rewrite IH1. rewrite Nat2Z.inj_succ, Z.pow_succ_r by lia.
    split; [by rewrite Z.div_div by lia|].
    intros Hrs Hmod.
    assert (Hpos : 0 < 2 ^ Z.of_nat n) by (apply Z.pow_pos_nonneg; lia).
    rewrite Z.rem_mul_r in Hmod by lia.
    pose proof (Z.mod_pos_bound m 2 ltac:(lia)) as Hb1.
    pose proof (Z.mod_pos_bound (m / 2) (2 ^ Z.of_nat n) Hpos) as Hb2.
    assert (Heven : m mod 2 = 0) by nia.
    assert (Hrest : (m / 2) mod 2 ^ Z.of_nat n = 0) by nia.
    apply IH2; [|done].
    rewrite Hrs, orb_false_r. rewrite <- Z.negb_even.
    rewrite (proj2 (Z.even_spec m)); [done|].
    exists (m / 2). pose proof (Z.div_mod m 2 ltac:(lia)). lia.
Qed.

Lemma Zdigits2_bounds m :
  0 < m -> 2 ^ (Zdigits2 m - 1) <= m < 2 ^ Zdigits2 m.
Proof. destruct m as [|p|p]; try lia. intros _. apply digits2_pos_bounds. Qed.

Lemma Zdigits2_pos m : 0 < m -> 0 < Zdigits2 m.
Proof. destruct m; cbn; lia. Qed.

Lemma Zdigits2_unique m d :
  2 ^ (d - 1) <= m < 2 ^ d -> 0 < d -> Zdigits2 m = d.
Proof.
  intros [Hlo Hhi] Hd.
  assert (Hm : 0 < m).
  { eapply Z.lt_le_trans; [|exact Hlo]. apply Z.pow_pos_nonneg; lia. }
  pose proof (Zdigits2_bounds m Hm) as [Hlo' Hhi'].
  pose proof (Zdigits2_pos m Hm) as Hd'.
  destruct (Z.lt_trichotomy (Zdigits2 m) d) as [H|[H|H]]; [|done|].
  - exfalso. assert (2 ^ Zdigits2 m <= 2 ^ (d - 1))
      by (apply Z.pow_le_mono_r; lia). lia.
  - exfalso. assert (2 ^ d <= 2 ^ (Zdigits2 m - 1))
      by (apply Z.pow_le_mono_r; lia). lia.
Qed.

Lemma Zdigits2_le m d : 0 <= m -> m < 2 ^ d -> 0 <= d -> Zdigits2 m <= d.
Proof.
  intros Hm Hlt Hd. destruct (Z.eq_dec m 0) as [->|Hne]; [done|].
  pose proof (Zdigits2_bounds m ltac:(lia)) as [Hlo _].
  destruct (Z.le_gt_cases (Zdigits2 m) d) as [H|H]; [done|].
  exfalso. assert (2 ^ d <= 2 ^ (Zdigits2 m - 1))
    by (apply Z.pow_le_mono_r; lia). lia.
Qed.

Lemma Zdigits2_ge m d : 2 ^ (d - 1) <= m -> d <= Zdigits2 m.
Proof.
  intros Hlo. destruct (Z.le_gt_cases d 0) as [H0|H0].
  { destruct m; cbn; lia. }
  assert (Hm : 0 < m).
  { eapply Z.lt_le_trans; [|exact Hlo]. apply Z.pow_pos_nonneg; lia. }
  pose proof (Zdigits2_bounds m Hm) as [_ Hhi].
  destruct (Z.le_gt_cases d (Zdigits2 m)) as [H|H]; [done|].
  exfalso. assert (2 ^ Zdigits2 m <= 2 ^ (d - 1))
    by (apply Z.pow_le_mono_r; [lia|]; pose proof (Zdigits2_pos m Hm); lia).
  lia.
Qed.

(** The mantissa shifted right by [n] bits: its bounds. *)
Lemma div_pow2_bounds m n :
  0 <= m -> 0 <= n ->
  m / 2 ^ n * 2 ^ n <= m < (m / 2 ^ n + 1) * 2 ^ n.
Proof.
  intros Hm Hn. assert (Hp : 0 < 2 ^ n) by (apply Z.pow_pos_nonneg; lia).
  pose proof (Z.div_mod m (2 ^ n) ltac:(lia)) as H.
  pose proof (Z.mod_pos_bound m (2 ^ n) Hp) as Hb. nia.
Qed.

Lemma div_pow2_lt m n d :
  0 <= m -> 0 <= n -> m < 2 ^ d -> n <= d -> m / 2 ^ n < 2 ^ (d - n).
Proof.
  intros Hm Hn Hlt Hd. apply Z.div_lt_upper_bound; [apply Z.pow_pos_nonneg; lia|].
  rewrite <- Z.pow_add_r by lia. by replace (n + (d - n)) with d by lia.
Qed.

Lemma div_pow2_ge m n d :
  0 <= n -> n <= d -> 2 ^ d <= m -> 2 ^ (d - n) <= m / 2 ^ n.
Proof.
  intros Hn Hd Hle. apply Z.div_le_lower_bound; [apply Z.pow_pos_nonneg; lia|].
  rewrite <- Z.pow_add_r by lia. by replace (n + (d - n)) with d by lia.
Qed.

#[global] Instance sgnQ_comp s : Proper (Qeq ==> Qeq) (sgnQ s).
Proof. intros a b H. destruct s; cbn [sgnQ]; by rewrite H. Qed.

Lemma bpow_pos e : (0 < bpow e)%Q.
Proof. apply Qpower_0_lt. reflexivity. Qed.

Lemma bpow_add a b : (bpow (a + b) == bpow a * bpow b)%Q.
Proof. apply Qpower_plus. discriminate. Qed.

Lemma bpow_inject n : 0 <= n -> (bpow n == inject_Z (2 ^ n))%Q.
Proof. intros Hn. unfold bpow. by rewrite Zpower_Qpower. Qed.

Lemma bpow_le a b : a <= b -> (bpow a <= bpow b)%Q.
Proof. intros H. apply Qpower_le_compat_l; [done|]. discriminate. Qed.

Lemma bpow_lt a b : a < b -> (bpow a < bpow b)%Q.
Proof. intros H. apply Qpower_lt_compat_l; [done|]. reflexivity. Qed.

Lemma bpow_0 : (bpow 0 == 1)%Q.
Proof. reflexivity. Qed.

Lemma bpow_succ e : (bpow (e + 1) == 2 * bpow e)%Q.
Proof. rewrite bpow_add. change (bpow 1) with 2%Q. ring. Qed.

Lemma bpow_sub a b : (bpow (a - b) == bpow a / bpow b)%Q.
Proof.
  assert (H : (bpow a == bpow (a - b) * bpow b)%Q).
  { rewrite <- bpow_add. by replace (a - b + b) with a by lia. }
  rewrite H. field. pose proof (bpow_pos b). lra.
Qed.

Lemma inject_Z_pow2_bpow m n e :
  0 <= n -> (inject_Z (m * 2 ^ n) * bpow e == inject_Z m * bpow (n + e))%Q.
Proof.
  intros Hn. rewrite inject_Z_mult, bpow_add, <- bpow_inject by done. ring.
Qed.

Lemma to_Q_finite s m e :
  (Float.to_Q (S754_finite s m e) == sgnQ s (inject_Z (Zpos m) * bpow e))%Q.
Proof.
  assert (Hs : forall z q, (inject_Z (cond_Zopp s z) * q == sgnQ s (inject_Z z * q))%Q).
  { intros z q. destruct s; cbn [cond_Zopp sgnQ]; [|reflexivity].
    rewrite inject_Z_opp. ring. }
  destruct e as [|p|p]; cbn [Float.to_Q].
  - rewrite <- Hs, bpow_0. rewrite Z.pow_0_r, Z.mul_1_r. ring.
  - rewrite inject_Z_mult, <- bpow_inject by lia. apply Hs.
  - rewrite <- Hs. unfold bpow. cbn [Qpower].
    rewrite Qmake_Qdiv. unfold Qdiv.
    apply Qmult_comp; [reflexivity|]. apply Qinv_comp.
    rewrite Pos2Z.inj_pow.
    change (Qpower_positive 2 p) with (2 ^ Zpos p)%Q.
    by rewrite (Zpower_Qpower 2 (Zpos p)).
Qed.

Lemma Qabs_sgnQ s a b : (Qabs (sgnQ s a - sgnQ s b) == Qabs (a - b))%Q.
Proof.
  destruct s; cbn [sgnQ]; [|reflexivity].
  assert (H : (- a - - b == - (a - b))%Q) by ring.
  rewrite H. apply Qabs_opp.
Qed.

Lemma Qabs_sgnQ_nonneg s a : (0 <= a)%Q -> (Qabs (sgnQ s a) == a)%Q.
Proof.
  intros Ha. destruct s; cbn [sgnQ]; [rewrite Qabs_opp|]; by apply Qabs_pos.
Qed.

Lemma Qabs_inject_Z z : Qabs (inject_Z z) = inject_Z (Z.abs z).
Proof. reflexivity. Qed.

Lemma Qabs_le_both a b : (- b <= a)%Q -> (a <= b)%Q -> (Qabs a <= b)%Q.
Proof. intros. apply Qabs_Qle_condition. by split. Qed.

Lemma bpow_le_inv a b : (bpow a < bpow b)%Q -> a < b.
Proof.
  intros H. destruct (Z.lt_ge_cases a b) as [|Hge]; [done|].
  apply bpow_le in Hge. lra.
Qed.

Section Round.
Variables prec emax : Z.
Hypothesis Hprec : 1 < prec.
Hypothesis Hemax : prec < emax.

Local Notation "'emin'" := (3 - emax - prec).
Local Notation "'fexp'" := (SpecFloat.fexp prec emax).

Lemma fexp_spec e : fexp e = Z.max (e - prec) emin.
Proof. reflexivity. Qed.

Lemma shr_spec m r s e n :
  0 <= m ->
  let res := shr (Build_shr_record m r s) e n in
  snd res = e + Z.max n 0 /\
  shr_m (fst res) = m / 2 ^ Z.max n 0 /\
  (r || s = false -> m mod 2 ^ Z.max n 0 = 0 ->
   shr_r (fst res) = false /\ shr_s (fst res) = false).
Proof.
  intros Hm. destruct n as [|p|p]; cbn [shr fst snd].
  - rewrite Z.add_0_r. cbn. rewrite Z.div_1_r. split; [done|]. split; [done|].
    by intros ?%orb_false_elim.
  - rewrite iter_pos_nat.
    destruct (shr_iter (Pos.to_nat p) m r s Hm) as [H1 H2].
    rewrite positive_nat_Z in *.
    replace (Z.max (Z.pos p) 0) with (Z.pos p) by lia. done.
  - replace (Z.max (Z.neg p) 0) with 0 by lia.
    rewrite Z.add_0_r. cbn. rewrite Z.div_1_r. split; [done|]. split; [done|].
    by intros ?%orb_false_elim.
Qed.

Lemma round_nearest_even_cases mrs :
  let m1 := round_nearest_even (shr_m mrs) (loc_of_shr_record mrs) in
  (m1 = shr_m mrs \/ m1 = shr_m mrs + 1) /\
  (shr_r mrs = false -> shr_s mrs = false -> m1 = shr_m mrs).
Proof.
  destruct mrs as [m [] []]; cbn; try destruct (Z.even m); split; auto;
    discriminate.
Qed.

Lemma shr_record_of_loc_eq m l :
  exists r s, shr_record_of_loc m l = Build_shr_record m r s /\
              (l = loc_Exact -> r || s = false).
Proof.
  destruct l as [|[]]; cbn; eexists _, _; split; try reflexivity; done.
Qed.

(** Rounding: the mantissa is brought to the exponent [E] of the format and
    rounded there to one of its two neighbours, to itself when it is
    exact. *)
Lemma binary_round_aux_spec sx mx ex lx :
  0 <= mx ->
  let E := Z.max ex (fexp (Zdigits2 mx + ex)) in
  let m' := mx / 2 ^ (E - ex) in
  exists m1,
    (m1 = m' \/ m1 = m' + 1) /\
    (lx = loc_Exact -> mx mod 2 ^ (E - ex) = 0 -> m1 = m') /\
    m' < 2 ^ prec /\
    binary_round_aux prec emax sx mx ex lx = finish prec emax sx m1 E.
Proof.
  intros Hmx E m'. unfold binary_round_aux, shr_fexp.
  destruct (shr_record_of_loc_eq mx lx) as (r & s & -> & Hrs).
  set (n := fexp (Zdigits2 mx + ex) - ex).
  assert (HE : E - ex = Z.max n 0) by (subst E n; lia).
  destruct (shr_spec mx r s ex n Hmx) as (He1 & Hm1 & Hex1).
  destruct (shr (Build_shr_record mx r s) ex n) as [mrs1 e1].
  cbn [fst snd] in *. rewrite <- HE in *.
  replace (ex + (E - ex)) with E in He1 by lia. subst e1.
  fold m' in Hm1.
  destruct (round_nearest_even_cases mrs1) as [Hc1 Hc2].
  set (m1 := round_nearest_even (shr_m mrs1) (loc_of_shr_record mrs1)) in *.
  rewrite Hm1 in Hc1, Hc2.
  assert (Hm'0 : 0 <= m').
  { apply Z.div_pos; [lia|]. apply Z.pow_pos_nonneg; lia. }
  assert (Hm'lt : m' < 2 ^ prec).
  { destruct (Z.eq_dec mx 0) as [->|Hne].
    { subst m'. rewrite Z.div_0_l; [apply Z.pow_pos_nonneg; lia|].
      apply Z.pow_nonzero; lia. }
    pose proof (Zdigits2_bounds mx ltac:(lia)) as [_ Hhi].
    pose proof (Zdigits2_pos mx ltac:(lia)) as Hd.
    set (d := Zdigits2 mx) in *.
    assert (HEd : d + ex - prec <= E) by (subst E; rewrite fexp_spec; lia).
    destruct (Z.le_gt_cases (E - ex) d) as [Hle|Hgt].
    - eapply Z.lt_le_trans; [apply (div_pow2_lt mx (E - ex) d); lia|].
      apply Z.pow_le_mono_r; lia.
    - subst m'. rewrite Z.div_small; [apply Z.pow_pos_nonneg; lia|].
      split; [lia|]. eapply Z.lt_le_trans; [exact Hhi|].
      apply Z.pow_le_mono_r; lia. }
  exists m1. split; [exact Hc1|]. split.
  { intros Hl Hmod. apply Hc2; apply Hex1; auto. }
  split; [exact Hm'lt|].
  assert (HEmin : emin <= E) by (subst E; rewrite fexp_spec; lia).
  assert (Hm1r : 0 <= m1 <= 2 ^ prec) by lia.
  destruct (Z.eq_dec m1 (2 ^ prec)) as [Hcarry|Hnc].
  - (* carry *)
    rewrite Hcarry.
    assert (Hdig : Zdigits2 (2 ^ prec) = prec + 1).
    { apply Zdigits2_unique; [|lia].
      replace (prec + 1 - 1) with prec by lia. split; [lia|].
      apply Z.pow_lt_mono_r; lia. }
    rewrite Hdig, fexp_spec.
    replace (Z.max (prec + 1 + E - prec) emin - E) with 1 by lia.
    assert (H2p : 0 < 2 ^ prec) by (apply Z.pow_pos_nonneg; lia).
    destruct (2 ^ prec) as [|p|p] eqn:Hp; try lia.
    cbn [shr shr_record_of_loc SpecFloat.iter_pos].
    rewrite shr_1_spec by lia. cbn [shr_m].
    assert (Hhalf : Z.pos p / 2 = 2 ^ (prec - 1)).
    { rewrite <- Hp. replace prec with (Z.succ (prec - 1)) at 1 by lia.
      rewrite Z.pow_succ_r by lia. rewrite Z.mul_comm. apply Z.div_mul. lia. }
    rewrite Hhalf. unfold finish. rewrite <- Hp at 1. rewrite Z.eqb_refl.
    assert (Hq : 0 < 2 ^ (prec - 1)) by (apply Z.pow_pos_nonneg; lia).
    destruct (2 ^ (prec - 1)) as [|q|q] eqn:Hq'; try lia.
    reflexivity.
  - assert (Hdig : Zdigits2 m1 <= prec) by (apply Zdigits2_le; lia).
    rewrite fexp_spec.
    replace (Z.max (Zdigits2 m1 + E - prec) emin - E)
      with (- (E - Z.max (Zdigits2 m1 + E - prec) emin)) by lia.
    set (k := E - Z.max (Zdigits2 m1 + E - prec) emin).
    assert (Hk : 0 <= k) by lia.
    unfold finish.
    replace (m1 =? 2 ^ prec) with false by (symmetry; apply Z.eqb_neq; lia).
    destruct m1 as [|p|p]; try lia;
      destruct k as [|k|k]; try lia; reflexivity.
Qed.

Lemma finish_spec sx m1 E :
  0 <= m1 <= 2 ^ prec -> emin <= E ->
  (E = emin \/ 2 ^ (prec - 1) <= m1) ->
  let r := finish prec emax sx m1 E in
  (E + 1 <= emax - prec -> Float.is_finite r = true) /\
  (Float.is_finite r = true ->
   valid_binary prec emax r = true /\
   (Float.to_Q r == sgnQ sx (inject_Z m1 * bpow E))%Q).
Proof.
  intros Hm1 HE Hnorm r. subst r. unfold finish.
  destruct m1 as [|p|p]; [| |lia].
  - split; [done|]. intros _. split; [done|]. cbn [Float.to_Q].
    destruct sx; cbn [sgnQ]; ring.
  - destruct (Z.eqb_spec (Z.pos p) (2 ^ prec)) as [Hc|Hnc].
    + destruct (Z.leb_spec (E + 1) (emax - prec)) as [Hle|Hgt].
      2:{ split; [lia|discriminate]. }
      split; [done|]. intros _.
      assert (Hq : 0 < 2 ^ (prec - 1)) by (apply Z.pow_pos_nonneg; lia).
      split.
      * cbn [valid_binary]. unfold bounded, canonical_mantissa.
        apply andb_true_iff. split; [|apply Z.leb_le; lia].
        apply Z.eqb_eq.
        change (Z.pos (digits2_pos (Z.to_pos (2 ^ (prec - 1)))))
          with (Zdigits2 (Z.pos (Z.to_pos (2 ^ (prec - 1))))).
        rewrite Z2Pos.id by done.
        rewrite (Zdigits2_unique _ prec); [unfold SpecFloat.fexp, SpecFloat.emin; lia| |lia].
        split; [lia|]. apply Z.pow_lt_mono_r; lia.
      * rewrite to_Q_finite. rewrite Z2Pos.id by done.
        destruct sx; cbn [sgnQ]; [apply Qopp_comp|].
        all: rewrite Hc, bpow_succ;
          replace prec with ((prec - 1) + 1) at 2 by lia;
          rewrite Z.pow_add_r by lia; rewrite inject_Z_mult;
          change (inject_Z (2 ^ 1)) with 2%Q; ring.
    + destruct (Z.leb_spec E (emax - prec)) as [Hle|Hgt].
      2:{ split; [lia|discriminate]. }
      split; [done|]. intros _. split; [|apply to_Q_finite].
      cbn [valid_binary]. unfold bounded, canonical_mantissa.
      apply andb_true_iff. split; [|apply Z.leb_le; lia].
      apply Z.eqb_eq.
      change (Z.pos (digits2_pos p)) with (Zdigits2 (Z.pos p)).
      unfold SpecFloat.fexp, SpecFloat.emin.
      assert (Hd : Zdigits2 (Z.pos p) <= prec) by (apply Zdigits2_le; lia).
      destruct Hnorm as [->|Hn]; [lia|].
      pose proof (Zdigits2_ge _ _ Hn). lia.
Qed.

(** Rounding is faithful: the result is within one unit in the last place
    of the value [V] that the mantissa [mx], with what follows it, stands
    for, and it overflows only at [2 ^ (emax - 1)] and above. *)
Lemma round_aux_Q sx mx ex lx V :
  0 <= mx -> ex <= fexp (Zdigits2 mx + ex) ->
  (inject_Z mx * bpow ex <= V)%Q -> (V < inject_Z (mx + 1) * bpow ex)%Q ->
  let r := binary_round_aux prec emax sx mx ex lx in
  ((V < bpow (emax - 1))%Q -> Float.is_finite r = true) /\
  (Float.is_finite r = true ->
   valid_binary prec emax r = true /\
   exists R,
     (Float.to_Q r == sgnQ sx R)%Q /\ (0 <= R)%Q /\
     (Qabs (R - V) <= bpow (1 - prec) * R + bpow emin)%Q).
Proof.
  intros Hmx Hal Hlo Hhi r. subst r.
  destruct (binary_round_aux_spec sx mx ex lx Hmx)
    as (m1 & Hm1 & _ & Hm'lt & ->).
  set (E := fexp (Zdigits2 mx + ex)) in *.
  replace (Z.max ex E) with E in * by lia.
  set (n := E - ex) in *. assert (Hn : 0 <= n) by (subst n; lia).
  set (m' := mx / 2 ^ n) in *.
  assert (Hm'0 : 0 <= m').
  { apply Z.div_pos; [lia|]. apply Z.pow_pos_nonneg; lia. }
  assert (HEmin : emin <= E) by (subst E; unfold SpecFloat.fexp, SpecFloat.emin; lia).
  pose proof (bpow_pos E) as HbE. pose proof (bpow_pos ex) as Hbex.
  (* the value lies between the two neighbours *)
  pose proof (div_pow2_bounds mx n Hmx Hn) as [Hb1 Hb2]. fold m' in Hb1, Hb2.
  assert (HVlo : (inject_Z m' * bpow E <= V)%Q).
  { eapply Qle_trans; [|exact Hlo].
    replace E with (n + ex) by (subst n; lia).
    rewrite <- inject_Z_pow2_bpow by done.
    apply Qmult_le_compat_r; [|lra]. by rewrite <- Zle_Qle. }
  assert (HVhi : (V < inject_Z (m' + 1) * bpow E)%Q).
  { eapply Qlt_le_trans; [exact Hhi|].
    replace E with (n + ex) by (subst n; lia).
    rewrite <- inject_Z_pow2_bpow by done.
    apply Qmult_le_compat_r; [|lra]. rewrite <- Zle_Qle. lia. }
  (* the result is normal, or at the least exponent *)
  assert (Hnorm : E = emin \/ 2 ^ (prec - 1) <= m').
  { destruct (Z.eq_dec E emin) as [|Hne]; [by left|right].
    destruct (Z.eq_dec mx 0) as [->|Hmx0].
    { exfalso. subst E. cbn [Zdigits2] in *.
      unfold SpecFloat.fexp, SpecFloat.emin in *. lia. }
    pose proof (Zdigits2_bounds mx ltac:(lia)) as [Hd1 _].
    set (d := Zdigits2 mx) in *.
    assert (HEd : E = d + ex - prec)
      by (subst E; unfold SpecFloat.fexp, SpecFloat.emin in *; lia).
    replace (prec - 1) with (d - 1 - n) by (subst n; lia).
    apply div_pow2_ge; [lia| |done]. subst n. lia. }
  assert (Hnorm1 : E = emin \/ 2 ^ (prec - 1) <= m1) by lia.
  destruct (finish_spec sx m1 E ltac:(lia) HEmin Hnorm1) as [Hfin Hval].
  split.
  - intros HV. apply Hfin.
    destruct (Z.eq_dec mx 0) as [->|Hmx0].
    { subst E. cbn [Zdigits2] in *.
      unfold SpecFloat.fexp, SpecFloat.emin in *. lia. }
    pose proof (Zdigits2_bounds mx ltac:(lia)) as [Hd1 _].
    set (d := Zdigits2 mx) in *.
    assert (Hd0 : 0 < d) by (apply Zdigits2_pos; lia).
    assert (Hlt : (bpow (d - 1 + ex) < bpow (emax - 1))%Q).
    { eapply Qle_lt_trans; [|exact HV]. eapply Qle_trans; [|exact Hlo].
      rewrite bpow_add, (bpow_inject (d - 1)) by lia.
      apply Qmult_le_compat_r; [|lra]. by rewrite <- Zle_Qle. }
    apply bpow_le_inv in Hlt.
    subst E. unfold SpecFloat.fexp, SpecFloat.emin. lia.
  - intros Hf. destruct (Hval Hf) as [Hv Hq]. split; [exact Hv|].
    exists (inject_Z m1 * bpow E)%Q. split; [exact Hq|].
    assert (Hm10 : (0 <= inject_Z m1)%Q) by (rewrite <- (Zle_Qle 0); lia).
    split; [apply Qmult_le_0_compat; lra|].
    assert (Herr : (Qabs (inject_Z m1 * bpow E - V) <= bpow E)%Q).
    { assert (Hx : (inject_Z (m' + 1) * bpow E
                    == inject_Z m' * bpow E + bpow E)%Q).
      { rewrite inject_Z_plus. change (inject_Z 1) with 1%Q. ring. }
      rewrite Hx in HVhi.
      destruct Hm1 as [->| ->]; rewrite ?Hx;
        set (P := (inject_Z m' * bpow E)%Q) in *;
        apply Qabs_le_both; lra. }
    eapply Qle_trans; [exact Herr|].
    pose proof (bpow_pos (1 - prec)) as Heps.
    destruct Hnorm1 as [->|Hn1].
    + assert (0 <= bpow (1 - prec) * (inject_Z m1 * bpow emin))%Q.
      { apply Qmult_le_0_compat; [lra|]. apply Qmult_le_0_compat; lra. }
      lra.
    + assert (Hone : (bpow E <= bpow (1 - prec) * (inject_Z m1 * bpow E))%Q).
      { assert (H1 : (bpow (1 - prec) * inject_Z (2 ^ (prec - 1)) == 1)%Q).
        { rewrite <- bpow_inject, <- bpow_add by lia.
          by replace (1 - prec + (prec - 1)) with 0 by lia. }
        assert (H2 : (inject_Z (2 ^ (prec - 1)) <= inject_Z m1)%Q)
          by (by rewrite <- Zle_Qle).
        assert (H3 : (bpow (1 - prec) * inject_Z (2 ^ (prec - 1)) * bpow E
                      <= bpow (1 - prec) * inject_Z m1 * bpow E)%Q).
        { apply Qmult_le_compat_r; [|lra].
          rewrite !(Qmult_comm (bpow (1 - prec))).
          apply Qmult_le_compat_r; [done|lra]. }
        rewrite H1 in H3. rewrite Qmult_assoc. lra. }
      pose proof (bpow_pos emin). lra.
Qed.

Lemma round_aux_rounded sx mx ex lx V :
  0 <= mx -> ex <= fexp (Zdigits2 mx + ex) ->
  (inject_Z mx * bpow ex <= V)%Q -> (V < inject_Z (mx + 1) * bpow ex)%Q ->
  let r := binary_round_aux prec emax sx mx ex lx in
  ((V < bpow (emax - 1))%Q -> Float.is_finite r = true) /\
  (Float.is_finite r = true ->
   valid_binary prec emax r = true /\ rounded prec emax r (sgnQ sx V)).
Proof.
  intros Hmx Hal Hlo Hhi r.
  destruct (round_aux_Q sx mx ex lx V Hmx Hal Hlo Hhi) as [H1 H2].
  split; [exact H1|]. intros Hf. destruct (H2 Hf) as (Hv & R & HR & HR0 & Herr).
  split; [exact Hv|]. unfold rounded. fold r in HR. rewrite HR.
  by rewrite Qabs_sgnQ, Qabs_sgnQ_nonneg.
Qed.

Lemma iter_xO mx d : Z.pos (Pos.iter xO mx d) = Z.pos mx * 2 ^ Z.pos d.
Proof.
  induction d as [|d IH] using Pos.peano_ind.
  - cbn. lia.
  - rewrite Pos.iter_succ, Pos2Z.inj_xO, IH, Pos2Z.inj_succ.
    rewrite Z.pow_succ_r by lia. lia.
Qed.

Lemma shl_align_spec mx ex ex' :
  let res := shl_align mx ex ex' in
  snd res = Z.min ex ex' /\
  Z.pos (fst res) = Z.pos mx * 2 ^ (ex - Z.min ex ex').
Proof.
  unfold shl_align. destruct (ex' - ex) as [|p|p] eqn:E; cbn [fst snd].
  - replace (Z.min ex ex') with ex by lia. rewrite Z.sub_diag. lia.
  - replace (Z.min ex ex') with ex by lia. rewrite Z.sub_diag. lia.
  - replace (Z.min ex ex') with ex' by lia. split; [done|].
    rewrite iter_xO. f_equal. f_equal. lia.
Qed.

Lemma Zdigits2_shift m k :
  0 < m -> 0 <= k -> Zdigits2 (m * 2 ^ k) = Zdigits2 m + k.
Proof.
  intros Hm Hk. pose proof (Zdigits2_bounds m Hm) as [H1 H2].
  pose proof (Zdigits2_pos m Hm) as Hd.
  assert (Hp : 0 < 2 ^ k) by (apply Z.pow_pos_nonneg; lia).
  apply Zdigits2_unique; [|lia].
  replace (Zdigits2 m + k - 1) with (Zdigits2 m - 1 + k) by lia.
  rewrite !Z.pow_add_r by lia. nia.
Qed.

Lemma fexp_mono a b : a <= b -> fexp a <= fexp b.
Proof. unfold SpecFloat.fexp, SpecFloat.emin. lia. Qed.

(** A mantissa and an exponent, rounded. *)
Lemma binary_round_rounded sx mx ex :
  let r := binary_round prec emax sx mx ex in
  let V := (inject_Z (Z.pos mx) * bpow ex)%Q in
  ((V < bpow (emax - 1))%Q -> Float.is_finite r = true) /\
  (Float.is_finite r = true ->
   valid_binary prec emax r = true /\ rounded prec emax r (sgnQ sx V)).
Proof.
  intros r V. subst r. unfold binary_round.
  destruct (shl_align_spec mx ex (fexp (Z.pos (digits2_pos mx) + ex)))
    as [He Hm].
  destruct (shl_align mx ex _) as [mz ez]. cbn [fst snd] in *.
  change (Z.pos (digits2_pos mx)) with (Zdigits2 (Z.pos mx)) in *.
  set (F := fexp (Zdigits2 (Z.pos mx) + ex)) in *.
  rewrite <- He in Hm.
  assert (Hk : 0 <= ex - ez) by lia.
  assert (HV : (V == inject_Z (Z.pos mz) * bpow ez)%Q).
  { subst V. rewrite Hm, inject_Z_pow2_bpow by done.
    by replace (ex - ez + ez) with ex by lia. }
  apply round_aux_rounded; [lia| | |].
  - rewrite Hm, Zdigits2_shift by lia.
    replace (Zdigits2 (Z.pos mx) + (ex - ez) + ez)
      with (Zdigits2 (Z.pos mx) + ex) by lia. fold F. lia.
  - rewrite HV. apply Qle_refl.
  - rewrite HV, inject_Z_plus. change (inject_Z 1) with 1%Q.
    pose proof (bpow_pos ez).
    set (P := (inject_Z (Z.pos mz) * bpow ez)%Q).
    assert (Hx : ((inject_Z (Z.pos mz) + 1) * bpow ez == P + bpow ez)%Q)
      by (subst P; ring).
    rewrite Hx. lra.
Qed.

Lemma rounded_exact r : rounded prec emax r (Float.to_Q r).
Proof.
  unfold rounded.
  assert (H : (Float.to_Q r - Float.to_Q r == 0)%Q) by ring.
  rewrite H. change (Qabs 0) with 0%Q.
  pose proof (bpow_pos (1 - prec)). pose proof (bpow_pos emin).
  pose proof (Qabs_nonneg (Float.to_Q r)).
  assert (0 <= bpow (1 - prec) * Qabs (Float.to_Q r))%Q
    by (apply Qmult_le_0_compat; lra).
  lra.
Qed.

Lemma rounded_eq r W W' : (W == W')%Q -> rounded prec emax r W -> rounded prec emax r W'.
Proof. unfold rounded. by intros ->. Qed.

(** An integer mantissa and an exponent, normalized. *)
Lemma binary_normalize_rounded m e :
  let r := binary_normalize prec emax m e false in
  let W := (inject_Z m * bpow e)%Q in
  ((Qabs W < bpow (emax - 1))%Q -> Float.is_finite r = true) /\
  (Float.is_finite r = true ->
   valid_binary prec emax r = true /\ rounded prec emax r W).
Proof.
  intros r W. subst r W. pose proof (bpow_pos e) as Hb.
  destruct m as [|p|p]; cbn [binary_normalize].
  - split; [done|]. intros _. split; [done|].
    apply (rounded_eq _ (Float.to_Q (S754_zero false))); [|apply rounded_exact].
    cbn. ring.
  - destruct (binary_round_rounded false p e) as [H1 H2]. split.
    + intros HW. apply H1. rewrite Qabs_pos in HW; [done|].
      apply Qmult_le_0_compat; [|lra]. by rewrite <- (Zle_Qle 0).
    + exact H2.
  - destruct (binary_round_rounded true p e) as [H1 H2].
    assert (Hneg : (inject_Z (Z.neg p) * bpow e
                    == sgnQ true (inject_Z (Z.pos p) * bpow e))%Q).
    { cbn [sgnQ]. change (Z.neg p) with (- Z.pos p).
      rewrite inject_Z_opp. ring. }
    split.
    + intros HW. apply H1. rewrite Hneg in HW. cbn [sgnQ] in HW.
      rewrite Qabs_opp, Qabs_pos in HW; [done|].
      apply Qmult_le_0_compat; [|lra]. by rewrite <- (Zle_Qle 0).
    + intros Hf. destruct (H2 Hf) as [Hv Hr]. split; [done|].
      by apply (rounded_eq _ _ _ (Qeq_sym _ _ Hneg)).
Qed.

Lemma to_Q_aligned s m e ez :
  ez <= e ->
  (Float.to_Q (S754_finite s m e)
   == inject_Z (cond_Zopp s (Z.pos m * 2 ^ (e - ez))) * bpow ez)%Q.
Proof.
  intros He. rewrite to_Q_finite.
  assert (H : (inject_Z (Z.pos m) * bpow e
               == inject_Z (Z.pos m * 2 ^ (e - ez)) * bpow ez)%Q).
  { rewrite inject_Z_pow2_bpow by lia. by replace (e - ez + ez) with e by lia. }
  destruct s; cbn [sgnQ cond_Zopp]; rewrite H; [|reflexivity].
  rewrite inject_Z_opp. ring.
Qed.

Lemma to_Q_opp s m e :
  (Float.to_Q (S754_finite (negb s) m e) == - Float.to_Q (S754_finite s m e))%Q.
Proof. rewrite !to_Q_finite. destruct s; cbn [negb sgnQ]; ring. Qed.

Lemma to_Q_zero s : Float.to_Q (S754_zero s) = 0%Q.
Proof. reflexivity. Qed.

(** Addition and subtraction round the exact sum and difference. *)
Lemma add_sub_rounded (minus : bool) sx mx ex sy my ey :
  let ez := Z.min ex ey in
  let M :=
    (if minus then Z.sub else Z.add)
      (cond_Zopp sx (Z.pos (fst (shl_align mx ex ez))))
      (cond_Zopp sy (Z.pos (fst (shl_align my ey ez)))) in
  let r := binary_normalize prec emax M ez false in
  let W := if minus
           then (Float.to_Q (S754_finite sx mx ex)
                 - Float.to_Q (S754_finite sy my ey))%Q
           else (Float.to_Q (S754_finite sx mx ex)
                 + Float.to_Q (S754_finite sy my ey))%Q in
  ((Qabs W < bpow (emax - 1))%Q -> Float.is_finite r = true) /\
  (Float.is_finite r = true -> rounded prec emax r W).
Proof.
  intros ez M r W.
  destruct (shl_align_spec mx ex ez) as [_ Hx].
  destruct (shl_align_spec my ey ez) as [_ Hy].
  replace (Z.min ex ez) with ez in Hx by lia.
  replace (Z.min ey ez) with ez in Hy by lia.
  assert (HW : (inject_Z M * bpow ez == W)%Q).
  { subst M W. rewrite Hx, Hy.
    destruct minus;
      rewrite (to_Q_aligned sx mx ex ez), (to_Q_aligned sy my ey ez) by lia;
      [unfold Z.sub; rewrite inject_Z_plus, inject_Z_opp|
       rewrite inject_Z_plus]; ring. }
  destruct (binary_normalize_rounded M ez) as [H1 H2]. fold r in H1, H2.
  split.
  - intros Hlt. apply H1. by rewrite HW.
  - intros Hf. destruct (H2 Hf) as [_ Hr]. by apply (rounded_eq _ _ _ HW).
Qed.

Lemma SFadd_rounded x y :
  Float.is_finite x = true -> Float.is_finite y = true ->
  let r := SFadd prec emax x y in
  let W := (Float.to_Q x + Float.to_Q y)%Q in
  ((Qabs W < bpow (emax - 1))%Q -> Float.is_finite r = true) /\
  (Float.is_finite r = true -> rounded prec emax r W).
Proof.
  intros Hx Hy.
  destruct x as [sx|sx| |sx mx ex], y as [sy|sy| |sy my ey]; try discriminate;
    cbv zeta.
  - split; [by destruct sx, sy|]. intros _.
    apply (rounded_eq _ (Float.to_Q (SFadd prec emax (S754_zero sx) (S754_zero sy))));
      [destruct sx, sy; cbn; ring|apply rounded_exact].
  - split; [done|]. intros _. cbn [SFadd].
    apply (rounded_eq _ (Float.to_Q (S754_finite sy my ey)));
      [rewrite to_Q_zero; ring|apply rounded_exact].
  - split; [done|]. intros _. cbn [SFadd].
    apply (rounded_eq _ (Float.to_Q (S754_finite sx mx ex)));
      [rewrite to_Q_zero; ring|apply rounded_exact].
  - apply (add_sub_rounded false).
Qed.

Lemma SFsub_rounded x y :
  Float.is_finite x = true -> Float.is_finite y = true ->
  let r := SFsub prec emax x y in
  let W := (Float.to_Q x - Float.to_Q y)%Q in
  ((Qabs W < bpow (emax - 1))%Q -> Float.is_finite r = true) /\
  (Float.is_finite r = true -> rounded prec emax r W).
Proof.
  intros Hx Hy.
  destruct x as [sx|sx| |sx mx ex], y as [sy|sy| |sy my ey]; try discriminate;
    cbv zeta.
  - split; [by destruct sx, sy|]. intros _.
    apply (rounded_eq _ (Float.to_Q (SFsub prec emax (S754_zero sx) (S754_zero sy))));
      [destruct sx, sy; cbn; ring|apply rounded_exact].
  - split; [done|]. intros _. cbn [SFsub].
    apply (rounded_eq _ (Float.to_Q (S754_finite (negb sy) my ey)));
      [rewrite to_Q_zero, to_Q_opp; ring|apply rounded_exact].
  - split; [done|]. intros _. cbn [SFsub].
    apply (rounded_eq _ (Float.to_Q (S754_finite sx mx ex)));
      [rewrite to_Q_zero; ring|apply rounded_exact].
  - apply (add_sub_rounded true).
Qed.

(** The finiteness of a difference and of a quotient tells that of the
    operands. *)
Lemma SFsub_finite_l x y :
  Float.is_finite (SFsub prec emax x y) = true -> Float.is_finite y = true ->
  Float.is_finite x = true.
Proof.
  destruct x as [sx|sx| |sx mx ex], y as [sy|sy| |sy my ey]; try discriminate;
    try done.
Qed.

Lemma SFdiv_finite_l x sy my ey :
  Float.is_finite (SFdiv prec emax x (S754_finite sy my ey)) = true ->
  Float.is_finite x = true.
Proof. destruct x as [sx|sx| |sx mx ex]; try discriminate; done. Qed.

Lemma sgnQ_mul s1 s2 a b :
  (sgnQ s1 a * sgnQ s2 b == sgnQ (xorb s1 s2) (a * b))%Q.
Proof. destruct s1, s2; cbn [sgnQ xorb]; ring. Qed.

Lemma sgnQ_div s1 s2 a b :
  ~ (b == 0)%Q -> (sgnQ s1 a / sgnQ s2 b == sgnQ (xorb s1 s2) (a / b))%Q.
Proof. intros Hb. destruct s1, s2; cbn [sgnQ xorb]; field; lra. Qed.

Lemma canonical_cases m e :
  canonical_mantissa prec emax m e = true ->
  (Zdigits2 (Z.pos m) = prec /\ emin <= e) \/
  (e = emin /\ Zdigits2 (Z.pos m) <= prec).
Proof.
  unfold canonical_mantissa, SpecFloat.fexp, SpecFloat.emin.
  intros H%Z.eqb_eq. cbn [Zdigits2]. lia.
Qed.

(** Multiplication rounds the exact product. *)
Lemma SFmul_rounded x y :
  Float.is_finite x = true -> Float.is_finite y = true ->
  valid_binary prec emax x = true -> valid_binary prec emax y = true ->
  let r := SFmul prec emax x y in
  let W := (Float.to_Q x * Float.to_Q y)%Q in
  ((Qabs W < bpow (emax - 1))%Q -> Float.is_finite r = true) /\
  (Float.is_finite r = true -> rounded prec emax r W).
Proof.
  intros Hx Hy Hvx Hvy.
  destruct x as [sx|sx| |sx mx ex], y as [sy|sy| |sy my ey]; try discriminate;
    cbv zeta; cbn [SFmul].
  1-3: split; [done|]; intros _;
    apply (rounded_eq _ (Float.to_Q (S754_zero (xorb sx sy))));
      [rewrite !to_Q_zero; ring|apply rounded_exact].
  cbn [valid_binary] in Hvx, Hvy.
  apply andb_true_iff in Hvx as [Hcx _]. apply andb_true_iff in Hvy as [Hcy _].
  apply canonical_cases in Hcx, Hcy.
  pose proof (Zdigits2_bounds (Z.pos mx) ltac:(lia)) as [Hx1 _].
  pose proof (Zdigits2_bounds (Z.pos my) ltac:(lia)) as [Hy1 _].
  pose proof (Zdigits2_pos (Z.pos mx) ltac:(lia)) as Hdx.
  pose proof (Zdigits2_pos (Z.pos my) ltac:(lia)) as Hdy.
  set (dx := Zdigits2 (Z.pos mx)) in *. set (dy := Zdigits2 (Z.pos my)) in *.
  assert (Hd : dx + dy - 1 <= Zdigits2 (Z.pos (mx * my))).
  { apply Zdigits2_ge. rewrite Pos2Z.inj_mul.
    replace (dx + dy - 1 - 1) with ((dx - 1) + (dy - 1)) by lia.
    rewrite Z.pow_add_r by lia.
    assert (0 < 2 ^ (dx - 1)) by (apply Z.pow_pos_nonneg; lia).
    assert (0 < 2 ^ (dy - 1)) by (apply Z.pow_pos_nonneg; lia). nia. }
  set (V := (inject_Z (Z.pos (mx * my)) * bpow (ex + ey))%Q).
  assert (HW : (Float.to_Q (S754_finite sx mx ex) *
                Float.to_Q (S754_finite sy my ey)
                == sgnQ (xorb sx sy) V)%Q).
  { rewrite !to_Q_finite, sgnQ_mul. subst V.
    apply sgnQ_comp.
    rewrite Pos2Z.inj_mul, inject_Z_mult, bpow_add. ring. }
  pose proof (bpow_pos (ex + ey)) as Hb.
  assert (HV0 : (0 <= V)%Q).
  { subst V. apply Qmult_le_0_compat; [|lra]. by rewrite <- (Zle_Qle 0). }
  destruct (round_aux_rounded (xorb sx sy) (Z.pos (mx * my)) (ex + ey)
              loc_Exact V) as [H1 H2]; [lia| | | |].
  - unfold SpecFloat.fexp, SpecFloat.emin. lia.
  - apply Qle_refl.
  - subst V. rewrite inject_Z_plus. change (inject_Z 1) with 1%Q.
    set (P := (inject_Z (Z.pos (mx * my)) * bpow (ex + ey))%Q).
    assert (HP : ((inject_Z (Z.pos (mx * my)) + 1) * bpow (ex + ey)
                  == P + bpow (ex + ey))%Q) by (subst P; ring).
    rewrite HP. lra.
  - split.
    + intros Hlt. apply H1. rewrite HW in Hlt.
      by rewrite Qabs_sgnQ_nonneg in Hlt.
    + intros Hf. destruct (H2 Hf) as [_ Hr].
      by apply (rounded_eq _ _ _ (Qeq_sym _ _ HW)).
Qed.

Lemma div_digits m1 m2 s :
  0 < m1 -> 0 < m2 -> 0 <= s ->
  Zdigits2 m1 + s - Zdigits2 m2 <= Zdigits2 (m1 * 2 ^ s / m2).
Proof.
  intros H1 H2 Hs. apply Zdigits2_ge.
  pose proof (Zdigits2_bounds m1 H1) as [Hb1 _].
  pose proof (Zdigits2_bounds m2 H2) as [_ Hb2].
  pose proof (Zdigits2_pos m1 H1). pose proof (Zdigits2_pos m2 H2).
  set (d1 := Zdigits2 m1) in *. set (d2 := Zdigits2 m2) in *.
  destruct (Z.le_gt_cases 0 (d1 + s - d2 - 1)) as [Hk|Hk].
  2:{ rewrite Z.pow_neg_r by lia. apply Z.div_pos; [|lia].
      assert (0 < 2 ^ s) by (apply Z.pow_pos_nonneg; lia). nia. }
  apply Z.div_le_lower_bound; [lia|].
  assert (Hp : 2 ^ (d1 + s - d2 - 1) * 2 ^ d2 = 2 ^ (d1 - 1) * 2 ^ s).
  { rewrite <- !Z.pow_add_r by lia. f_equal. lia. }
  assert (0 < 2 ^ (d1 + s - d2 - 1)) by (apply Z.pow_pos_nonneg; lia).
  assert (0 < 2 ^ s) by (apply Z.pow_pos_nonneg; lia).
  nia.
Qed.

(** Division rounds the exact quotient. *)
Lemma SFdiv_rounded x sy my ey :
  Float.is_finite x = true ->
  let y := S754_finite sy my ey in
  let r := SFdiv prec emax x y in
  let W := (Float.to_Q x / Float.to_Q y)%Q in
  ((Qabs W < bpow (emax - 1))%Q -> Float.is_finite r = true) /\
  (Float.is_finite r = true -> rounded prec emax r W).
Proof.
  intros Hx y r W. subst r y W.
  pose proof (bpow_pos ey) as Hbey.
  assert (Hy0 : (0 < inject_Z (Z.pos my) * bpow ey)%Q).
  { apply Qmult_lt_0_compat; [|done]. by rewrite <- (Zlt_Qlt 0). }
  destruct x as [sx|sx| |sx mx ex]; try discriminate.
  { split; [done|]. intros _.
    apply (rounded_eq _ (Float.to_Q (S754_zero (xorb sx sy))));
      [|apply rounded_exact].
    rewrite !to_Q_zero, to_Q_finite. unfold Qdiv. ring. }
  cbn [SFdiv]. unfold SFdiv_core_binary.
  set (d1 := Zdigits2 (Z.pos mx)). set (d2 := Zdigits2 (Z.pos my)).
  set (e' := Z.min (fexp (d1 + ex - (d2 + ey))) (ex - ey)).
  set (s := ex - ey - e'). assert (Hs : 0 <= s) by (subst s e'; lia).
  set (m' := match s with
             | 0 => Z.pos mx
             | Z.pos _ => Z.shiftl (Z.pos mx) s
             | Z.neg _ => 0
             end).
  assert (Hm' : m' = Z.pos mx * 2 ^ s).
  { subst m'. destruct s as [|p|p] eqn:E; [lia| |lia].
    by rewrite Z.shiftl_mul_pow2. }
  clearbody m'.
  pose proof (Z.div_mod m' (Z.pos my) ltac:(lia)) as Hdm.
  pose proof (Z.mod_pos_bound m' (Z.pos my) ltac:(lia)) as Hmb.
  unfold Z.div, Z.modulo in Hdm, Hmb.
  pose proof (div_digits (Z.pos mx) (Z.pos my) s ltac:(lia) ltac:(lia) Hs) as Hdig.
  rewrite <- Hm' in Hdig. unfold Z.div in Hdig.
  destruct (Z.div_eucl m' (Z.pos my)) as [q rm]. cbn [fst snd] in *.
  assert (Hp : 0 < 2 ^ s) by (apply Z.pow_pos_nonneg; lia).
  assert (Hq0 : 0 <= q) by nia.
  set (V := (inject_Z (Z.pos mx) * bpow ex / (inject_Z (Z.pos my) * bpow ey))%Q).
  assert (HW : (Float.to_Q (S754_finite sx mx ex) /
                Float.to_Q (S754_finite sy my ey)
                == sgnQ (xorb sx sy) V)%Q).
  { rewrite !to_Q_finite, sgnQ_div by lra. reflexivity. }
  pose proof (bpow_pos e') as Hbe'. pose proof (bpow_pos ex) as Hbex.
  assert (Hmy : (0 < inject_Z (Z.pos my))%Q) by (by rewrite <- (Zlt_Qlt 0)).
  assert (HV0 : (0 <= V)%Q).
  { subst V. apply Qle_shift_div_l; [done|].
    assert (0 <= inject_Z (Z.pos mx) * bpow ex)%Q
      by (apply Qmult_le_0_compat; [by rewrite <- (Zle_Qle 0)|lra]).
    lra. }
  assert (HV : (V * inject_Z (Z.pos my) == inject_Z m' * bpow e')%Q).
  { subst V. rewrite Hm', inject_Z_pow2_bpow by done.
    replace (s + e') with (ex - ey) by (subst s; lia).
    rewrite bpow_sub. field. split; lra. }
  destruct (round_aux_rounded (xorb sx sy) q e' (new_location (Z.pos my) rm) V)
    as [H1 H2]; [done| | | |].
  - eapply Z.le_trans; [apply Z.le_min_l|]. apply fexp_mono. subst d1 d2 s. lia.
  - apply (Qmult_le_r _ _ (inject_Z (Z.pos my))); [done|]. rewrite HV.
    assert (H : (inject_Z q * bpow e' * inject_Z (Z.pos my)
                 == inject_Z (q * Z.pos my) * bpow e')%Q)
      by (rewrite inject_Z_mult; ring).
    rewrite H. apply Qmult_le_compat_r; [|lra].
    rewrite <- Zle_Qle. nia.
  - apply (Qmult_lt_r _ _ (inject_Z (Z.pos my))); [done|]. rewrite HV.
    assert (H : (inject_Z (q + 1) * bpow e' * inject_Z (Z.pos my)
                 == inject_Z ((q + 1) * Z.pos my) * bpow e')%Q)
      by (rewrite inject_Z_mult; ring).
    rewrite H. apply Qmult_lt_compat_r; [lra|].
    rewrite <- Zlt_Qlt. nia.
  - split.
    + intros Hlt. apply H1. rewrite HW in Hlt.
      by rewrite Qabs_sgnQ_nonneg in Hlt.
    + intros Hf. destruct (H2 Hf) as [_ Hr].
      by apply (rounded_eq _ _ _ (Qeq_sym _ _ HW)).
Qed.

End Round.

(** ** The two formats *)

Lemma prec32 : 1 < 24. Proof. lia. Qed.
Lemma emax32 : 24 < 128. Proof. lia. Qed.
Lemma prec64 : 1 < 53. Proof. lia. Qed.
Lemma emax64 : 53 < 1024. Proof. lia. Qed.

(** A Python float that meets a float32 array: the cast to float32. *)
Lemma scalar32_rounded x :
  Float.is_finite x = true ->
  let r := np.scalar Fmt.binary32 x in
  ((Qabs (Float.to_Q x) < bpow 127)%Q -> Float.is_finite r = true) /\
  (Float.is_finite r = true ->
   Float.valid Fmt.binary32 r = true /\ rounded 24 128 r (Float.to_Q x)).
Proof.
  intros Hx. destruct x as [s|s| |s m e]; try discriminate; cbv zeta.
  - split; [done|]. intros _. split; [done|]. apply rounded_exact; lia.
  - unfold np.scalar, Float.cast. cbn [Fmt.prec Fmt.emax Fmt.binary32].
    destruct (binary_round_rounded 24 128 prec32 emax32 s m e) as [H1 H2].
    split.
    + intros Hlt. apply H1. rewrite to_Q_finite in Hlt.
      rewrite Qabs_sgnQ_nonneg in Hlt; [done|].
      apply Qmult_le_0_compat; [by rewrite <- (Zle_Qle 0)|].
      apply Qlt_le_weak, bpow_pos.
    + intros Hf. destruct (H2 Hf) as [Hv Hr]. split; [exact Hv|].
      apply (rounded_eq 24 128 _ _ _ (Qeq_sym _ _ (to_Q_finite s m e)) Hr).
Qed.

(** ** The decimal text of a float, read back *)

Lemma decimal_value_pos d x : 0 < d -> (0 < decimal_value d x)%Q.
Proof.
  intros Hd. unfold decimal_value. destruct (0 <=? x) eqn:E.
  - apply Z.leb_le in E. rewrite <- (Zlt_Qlt 0).
    pose proof (pow10_pos x E). nia.
  - apply Z.leb_gt in E. pose proof (pow10_pos (- x) ltac:(lia)) as Hp.
    apply Qlt_shift_div_l; [by rewrite <- (Zlt_Qlt 0)|].
    rewrite Qmult_0_l. by rewrite <- (Zlt_Qlt 0).
Qed.

Lemma decimal_to_float_rounded neg d x :
  0 < d ->
  let v := py.decimal_to_float neg d x in
  let W := decimal_value d x in
  ((W < bpow 1023)%Q -> Float.is_finite v = true) /\
  (Float.is_finite v = true -> rounded 53 1024 v (sgnQ neg W)).
Proof.
  intros Hd v W. subst v W. unfold py.decimal_to_float, decimal_value.
  destruct d as [|m|m]; try lia.
  destruct (0 <=? x) eqn:E.
  - apply Z.leb_le in E. pose proof (pow10_pos x E) as Hp.
    destruct (binary_round_rounded 53 1024 prec64 emax64 neg
                (Z.to_pos (Z.pos m * 10 ^ x)) 0) as [H1 H2].
    rewrite Z2Pos.id in H1, H2 by nia.
    assert (H0 : (inject_Z (Z.pos m * 10 ^ x) * bpow 0
                  == inject_Z (Z.pos m * 10 ^ x))%Q)
      by (rewrite bpow_0; ring).
    split.
    + intros Hlt. apply H1. by rewrite H0.
    + intros Hf. destruct (H2 Hf) as [_ Hr].
      eapply rounded_eq; [|exact Hr]. by rewrite H0.
  - apply Z.leb_gt in E. pose proof (pow10_pos (- x) ltac:(lia)) as Hp.
    destruct (SFdiv_rounded 53 1024 prec64 emax64 (S754_finite neg m 0)
                false (Z.to_pos (10 ^ (- x))) 0 eq_refl) as [H1 H2].
    assert (HW : (Float.to_Q (S754_finite neg m 0) /
                  Float.to_Q (S754_finite false (Z.to_pos (10 ^ (- x))) 0)
                  == sgnQ neg (inject_Z (Z.pos m) / inject_Z (10 ^ (- x))))%Q).
    { rewrite !to_Q_finite. rewrite Z2Pos.id by lia.
      assert (Hq : (0 < inject_Z (10 ^ (- x)))%Q) by (by rewrite <- (Zlt_Qlt 0)).
      rewrite bpow_0. cbn [sgnQ]. destruct neg; cbn [sgnQ]; field; lra. }
    assert (Hpos : (0 <= inject_Z (Z.pos m) / inject_Z (10 ^ (- x)))%Q).
    { apply Qle_shift_div_l; [by rewrite <- (Zlt_Qlt 0)|].
      rewrite Qmult_0_l. by rewrite <- (Zle_Qle 0). }
    split.
    + intros Hlt. apply H1. rewrite HW. by rewrite Qabs_sgnQ_nonneg.
    + intros Hf. eapply rounded_eq; [|exact (H2 Hf)]. exact HW.
Qed.

(** Within half a unit of the seventh digit is within half a millionth. *)
Lemma half_unit_close n dd d e10 :
  0 < dd -> 10 ^ 6 <= d ->
  within_half_unit n dd d e10 ->
  (Qabs (inject_Z n / inject_Z dd - decimal_value d (e10 - 6))
   <= (1 # 2000000) * decimal_value d (e10 - 6))%Q.
Proof.
  intros Hdd Hd. unfold within_half_unit, decimal_value.
  assert (Hq : (0 < inject_Z dd)%Q) by (by rewrite <- (Zlt_Qlt 0)).
  destruct (0 <=? e10 - 6) eqn:E; intros H.
  - apply Z.leb_le in E. pose proof (pow10_pos (e10 - 6) E) as Hp.
    set (T := 10 ^ (e10 - 6)) in *.
    assert (Hdiff : (inject_Z n / inject_Z dd - inject_Z (d * T)
                     == inject_Z (n - d * T * dd) / inject_Z dd)%Q).
    { unfold Z.sub. rewrite !inject_Z_plus, inject_Z_opp, !inject_Z_mult.
      field. lra. }
    rewrite Hdiff. unfold Qdiv. rewrite Qabs_Qmult.
    rewrite (Qabs_pos (/ inject_Z dd)); [|apply Qinv_le_0_compat; lra].
    rewrite Qabs_inject_Z.
    apply Qle_shift_div_r; [done|].
    assert (H2 : (inject_Z (2 * Z.abs (n - d * T * dd))
                  <= inject_Z (T * dd))%Q) by (by rewrite <- Zle_Qle).
    rewrite !inject_Z_mult in *. change (inject_Z 2) with 2%Q in H2.
    assert (Hd' : (1000000 <= inject_Z d)%Q)
      by (change 1000000%Q with (inject_Z (10 ^ 6)); by rewrite <- Zle_Qle).
    assert (HT : (0 < inject_Z T)%Q) by (by rewrite <- (Zlt_Qlt 0)).
    set (a := inject_Z (Z.abs (n - d * T * dd))) in *.
    assert (Hprod : (inject_Z T * inject_Z dd * 1000000
                     <= inject_Z d * inject_Z T * inject_Z dd)%Q).
    { assert (0 <= (inject_Z d - 1000000) * (inject_Z T * inject_Z dd))%Q.
      { apply Qmult_le_0_compat; [lra|].
        apply Qmult_le_0_compat; lra. }
      lra. }
    set (P := (inject_Z d * inject_Z T * inject_Z dd)%Q) in *.
    set (R := (inject_Z T * inject_Z dd)%Q) in *.
    assert (Hx : ((1 # 2000000) * (inject_Z d * inject_Z T) * inject_Z dd
                  == (1 # 2000000) * P)%Q) by (subst P; ring).
    rewrite Hx. lra.
  - apply Z.leb_gt in E. pose proof (pow10_pos (6 - e10) ltac:(lia)) as Hp.
    replace (- (e10 - 6)) with (6 - e10) by lia.
    set (T := 10 ^ (6 - e10)) in *.
    assert (HT : (0 < inject_Z T)%Q) by (by rewrite <- (Zlt_Qlt 0)).
    assert (Hdiff : (inject_Z n / inject_Z dd - inject_Z d / inject_Z T
                     == inject_Z (n * T - d * dd) / (inject_Z dd * inject_Z T))%Q).
    { unfold Z.sub. rewrite !inject_Z_plus, inject_Z_opp, !inject_Z_mult.
      field. split; lra. }
    rewrite Hdiff. unfold Qdiv at 1. rewrite Qabs_Qmult.
    assert (Hden : (0 < inject_Z dd * inject_Z T)%Q)
      by (apply Qmult_lt_0_compat; lra).
    rewrite (Qabs_pos (/ _)); [|apply Qinv_le_0_compat; lra].
    rewrite Qabs_inject_Z.
    apply Qle_shift_div_r; [done|].
    assert (H2 : (inject_Z (2 * Z.abs (n * T - d * dd)) <= inject_Z dd)%Q)
      by (by rewrite <- Zle_Qle).
    rewrite !inject_Z_mult in *. change (inject_Z 2) with 2%Q in H2.
    assert (Hd' : (1000000 <= inject_Z d)%Q)
      by (change 1000000%Q with (inject_Z (10 ^ 6)); by rewrite <- Zle_Qle).
    set (a := inject_Z (Z.abs (n * T - d * dd))) in *.
    assert (Hx : ((1 # 2000000) * (inject_Z d / inject_Z T)
                  * (inject_Z dd * inject_Z T)
                  == (1 # 2000000) * (inject_Z d * inject_Z dd))%Q)
      by (field; lra).
    rewrite Hx.
    assert (Hprod : (inject_Z dd * 1000000 <= inject_Z d * inject_Z dd)%Q).
    { assert (0 <= (inject_Z d - 1000000) * inject_Z dd)%Q
        by (apply Qmult_le_0_compat; lra).
      lra. }
    set (P := (inject_Z d * inject_Z dd)%Q) in *. lra.
Qed.

Lemma Qabs_tri3 a b c : (Qabs (a - c) <= Qabs (a - b) + Qabs (b - c))%Q.
Proof.
  assert (H : (a - c == (a - b) + (b - c))%Q) by ring.
  rewrite H. apply Qabs_triangle.
Qed.

Lemma Qabs_le_add a b : (Qabs a <= Qabs b + Qabs (a - b))%Q.
Proof.
  assert (H : (a == b + (a - b))%Q) by ring.
  rewrite H at 1. apply Qabs_triangle.
Qed.

Lemma to_Q_abs_ratio s m e :
  (Qabs (Float.to_Q (S754_finite s m e))
   == inject_Z (Z.pos m * 2 ^ Z.max e 0) / inject_Z (2 ^ Z.max (- e) 0))%Q.
Proof.
  rewrite to_Q_finite, Qabs_sgnQ_nonneg.
  2:{ apply Qmult_le_0_compat; [by rewrite <- (Zle_Qle 0)|].
      apply Qlt_le_weak, bpow_pos. }
  destruct (Z.le_gt_cases 0 e) as [He|He].
  - replace (Z.max e 0) with e by lia. replace (Z.max (- e) 0) with 0 by lia.
    rewrite inject_Z_mult, <- bpow_inject by done.
    change (inject_Z (2 ^ 0)) with 1%Q. field.
  - replace (Z.max e 0) with 0 by lia. replace (Z.max (- e) 0) with (- e) by lia.
    rewrite Z.pow_0_r, Z.mul_1_r, <- bpow_inject by lia.
    replace e with (0 - - e) at 1 by lia. rewrite bpow_sub, bpow_0.
    pose proof (bpow_pos (- e)). field. lra.
Qed.

Lemma to_Q_sgn_abs s m e :
  (Float.to_Q (S754_finite s m e)
   == sgnQ s (Qabs (Float.to_Q (S754_finite s m e))))%Q.
Proof.
  rewrite to_Q_finite at 1. apply sgnQ_comp.
  rewrite to_Q_finite, Qabs_sgnQ_nonneg; [reflexivity|].
  apply Qmult_le_0_compat; [by rewrite <- (Zle_Qle 0)|].
  apply Qlt_le_weak, bpow_pos.
Qed.

(** The calibration value read back from its text: finite, and within six
    parts in ten millions of the value written. *)
Lemma decimal7_close x v :
  Float.is_finite x = true -> decimal7 x v ->
  (Qabs (Float.to_Q x) <= bpow 1000)%Q ->
  Float.is_finite v = true /\
  (Qabs (Float.to_Q v - Float.to_Q x)
   <= (6 # 10000000) * Qabs (Float.to_Q x) + bpow (-1073))%Q.
Proof.
  intros Hx Hd Hmag. pose proof (bpow_pos (-1073)) as Heta.
  destruct x as [s|s| |s m e]; try discriminate; cbn [decimal7] in Hd.
  { subst v. split; [done|]. change (Float.to_Q (S754_zero s)) with 0%Q.
    assert (E : (0 - 0 == 0)%Q) by ring. rewrite E.
    change (Qabs 0) with 0%Q. lra. }
  destruct Hd as (d & e10 & Hd & Hw & ->).
  assert (Hd0 : 0 < d) by lia.
  pose proof (decimal_value_pos d (e10 - 6) Hd0) as HD.
  assert (Hdd : 0 < 2 ^ Z.max (- e) 0) by (apply Z.pow_pos_nonneg; lia).
  pose proof (half_unit_close _ _ _ _ Hdd (proj1 Hd) Hw) as Hh.
  rewrite <- (to_Q_abs_ratio s) in Hh.
  destruct (decimal_to_float_rounded s d (e10 - 6) Hd0) as [H1 H2].
  set (v := py.decimal_to_float s d (e10 - 6)) in *.
  set (DEC := decimal_value d (e10 - 6)) in *.
  set (X := Float.to_Q (S754_finite s m e)) in *.
  set (A := Qabs X) in *.
  assert (HA0 : (0 <= A)%Q) by apply Qabs_nonneg.
  apply Qabs_Qle_condition in Hh. destruct Hh as [Hh1 Hh2].
  assert (Hfin : Float.is_finite v = true).
  { apply H1.
    assert (H2A : (DEC <= 2 * bpow 1000)%Q).
    { set (B := bpow 1000) in *. lra. }
    eapply Qle_lt_trans; [exact H2A|].
    rewrite <- bpow_succ. by apply bpow_lt. }
  split; [exact Hfin|].
  specialize (H2 Hfin). unfold rounded in H2.
  set (V := Float.to_Q v) in *. set (W := sgnQ s DEC) in *.
  assert (HX : (X == sgnQ s A)%Q) by apply to_Q_sgn_abs.
  pose proof (Qabs_tri3 V W X) as T1.
  assert (T2 : (Qabs (W - X) == Qabs (DEC - A))%Q).
  { subst W. rewrite HX. apply Qabs_sgnQ. }
  pose proof (Qabs_le_add V W) as T3.
  assert (T4 : (Qabs W == DEC)%Q) by (apply Qabs_sgnQ_nonneg; lra).
  assert (T5 : (Qabs (DEC - A) <= (1 # 2000000) * DEC)%Q).
  { apply Qabs_Qle_condition.
    assert (E : (DEC - A == - (A - DEC))%Q) by ring. rewrite E.
    split; lra. }
  assert (He : (bpow (1 - 53) == 1 # 4503599627370496)%Q) by reflexivity.
  assert (Hn : (bpow (-1073) == 2 * bpow (3 - 1024 - 53))%Q).
  { rewrite <- bpow_succ. reflexivity. }
  rewrite He in H2. rewrite T2 in T1. rewrite T4 in T3.
  set (aV := Qabs V) in *. set (e1 := Qabs (V - W)) in *.
  set (e2 := Qabs (DEC - A)) in *. set (e3 := Qabs (V - X)) in *.
  set (n1 := bpow (3 - 1024 - 53)) in *. set (n2 := bpow (-1073)) in *.
  pose proof (bpow_pos (3 - 1024 - 53)) as Hn1. fold n1 in Hn1.
  lra.
Qed.

Lemma Qabs_mul_le a b c :
  (Qabs a <= c)%Q -> (Qabs (a * b) <= c * Qabs b)%Q.
Proof.
  intros H. rewrite Qabs_Qmult. apply Qmult_le_compat_r; [exact H|].
  apply Qabs_nonneg.
Qed.

Lemma Qabs_div_error q d s b :
  ~ (s == 0)%Q -> (Qabs (q - d / s) <= b)%Q ->
  (Qabs (q * s - d) <= b * Qabs s)%Q.
Proof.
  intros Hs H.
  assert (E : (q * s - d == (q - d / s) * s)%Q) by (field; exact Hs).
  rewrite E. by apply Qabs_mul_le.
Qed.

Lemma Qabs_sum6 a b c d e f :
  (Qabs (a + b + c + d + e + f)
   <= Qabs a + Qabs b + Qabs c + Qabs d + Qabs e + Qabs f)%Q.
Proof.
  repeat (eapply Qle_trans; [apply Qabs_triangle|];
          apply Qplus_le_compat; [|apply Qle_refl]).
  apply Qle_refl.
Qed.

Lemma Qabs_lt_both q a : (- a < q)%Q -> (q < a)%Q -> (Qabs q < a)%Q.
Proof. intros H1 H2. apply Qabs_case; intros _; lra. Qed.

Lemma finite_nonzero r :
  Float.is_finite r = true -> ~ (Float.to_Q r == 0)%Q ->
  exists s m e, r = S754_finite s m e.
Proof.
  destruct r as [s|s| |s m e]; try discriminate.
  - intros _ H. by destruct H.
  - intros _ _. by eexists _, _, _.
Qed.

Lemma uint16_to_float32_valid v :
  is_uint16 v = true ->
  Float.is_finite (np.uint16_to_float32 v) = true /\
  Float.valid Fmt.binary32 (np.uint16_to_float32 v) = true /\
  (Float.to_Q (np.uint16_to_float32 v) == inject_Z v)%Q.
Proof.
  intros Hv. destruct (default_forward v Hv) as (_ & Hf & Hq).
  split; [exact Hf|]. split; [|exact Hq].
  by destruct (binary_normalize_rounded 24 128 prec32 emax32 v 0) as [_ H];
    apply H.
Qed.

Lemma calibration_in_range_spec slope offset :
  calibration_in_range slope offset = true ->
  Float.is_finite slope = true /\ Float.is_finite offset = true /\
  (bpow (-100) <= Qabs (Float.to_Q slope))%Q /\
  (Qabs (Float.to_Q slope) <= bpow 100)%Q /\
  (Qabs (Float.to_Q offset) <= 262144 * Qabs (Float.to_Q slope))%Q.
Proof.
  unfold calibration_in_range. intros H.
  apply andb_true_iff in H as [H H4]. apply andb_true_iff in H as [H H3].
  apply andb_true_iff in H as [H1 H2].
  apply Qle_bool_iff in H2, H3, H4.
  split; [|by repeat split].
  destruct slope as [s|s| |s m e]; try reflexivity; exfalso;
    change (Qabs (Float.to_Q _)) with 0%Q in H2; by apply H2.
Qed.

Lemma stored_in_range_spec slope offset x :
  stored_in_range slope offset x = true ->
  Float.is_finite (quotient Fmt.binary32 slope offset x) = true /\
  (-1 < Float.to_Q (quotient Fmt.binary32 slope offset x))%Q /\
  (Float.to_Q (quotient Fmt.binary32 slope offset x) < 65536)%Q.
Proof.
  unfold stored_in_range. cbv zeta. intros H.
  apply andb_true_iff in H as [H Hhi]. apply andb_true_iff in H as [Hf Hlo].
  split; [done|]. split.
  - apply Qnot_le_lt. intros Hc. apply Qle_bool_iff in Hc.
    rewrite Hc in Hlo. discriminate.
  - apply Qnot_le_lt. intros Hc. apply Qle_bool_iff in Hc.
    rewrite Hc in Hhi. discriminate.
Qed.

Lemma to_stored_in_range slope offset x :
  stored_in_range slope offset x = true ->
  let q := Float.to_Q (quotient Fmt.binary32 slope offset x) in
  to_stored Fmt.binary32 slope offset x = Qtrunc q /\
  is_uint16 (Qtrunc q) = true /\
  (Qabs (inject_Z (Qtrunc q)) <= 65535)%Q /\
  (Qabs q <= 65536)%Q /\
  (Qabs (inject_Z (Qtrunc q) - q) <= 1)%Q.
Proof.
  intros Hx q.
  apply stored_in_range_spec in Hx as (Hf & Hlo & Hhi). fold q in Hlo, Hhi.
  pose proof (Qtrunc_range _ Hlo Hhi) as Hr.
  unfold to_stored. set (r := quotient Fmt.binary32 slope offset x) in *.
  destruct (Float.trunc r) as [t|] eqn:Ht; [|destruct r; discriminate].
  pose proof (trunc_to_Q _ _ Ht) as Hq. fold q in Hq. rewrite Hq in *.
  split; [by apply float_to_uint16_small|]. split.
  { unfold is_uint16. apply andb_true_iff. split; apply Z.leb_le; lia. }
  split.
  { rewrite Qabs_inject_Z. change 65535%Q with (inject_Z 65535).
    rewrite <- Zle_Qle. lia. }
  split.
  { apply Qlt_le_weak, Qabs_lt_both; lra. }
  rewrite <- Hq. apply Qlt_le_weak, Qtrunc_close.
Qed.

Lemma Qabs_le_add' a b : (Qabs b <= Qabs a + Qabs (a - b))%Q.
Proof.
  assert (H : (b == a + - (a - b))%Q) by ring.
  rewrite H at 1. eapply Qle_trans; [apply Qabs_triangle|].
  rewrite Qabs_opp. apply Qle_refl.
Qed.

Lemma Qabs_tri4 a b c d :
  (Qabs (a - d) <= Qabs (a - b) + Qabs (b - c) + Qabs (d - c))%Q.
Proof.
  assert (H : (a - d == (a - b) + (b - c) + - (d - c))%Q) by ring.
  rewrite H. eapply Qle_trans; [apply Qabs_triangle|].
  rewrite Qabs_opp. apply Qplus_le_compat; [|apply Qle_refl].
  apply Qabs_triangle.
Qed.

Lemma bpow_100 : (bpow 100 == 1267650600228229401496703205376)%Q.
Proof. reflexivity. Qed.
Lemma bpow_m100 : (bpow (-100) == 1 # 1267650600228229401496703205376)%Q.
Proof. reflexivity. Qed.
Lemma bpow_118 : (bpow 118 == 332306998946228968225951765070086144)%Q.
Proof. reflexivity. Qed.
Lemma bpow_127 : (bpow 127 == 170141183460469231731687303715884105728)%Q.
Proof. reflexivity. Qed.
Lemma eps32 : (bpow (1 - 24) == 1 # 8388608)%Q.
Proof. reflexivity. Qed.
Lemma eta32 :
  (bpow (3 - 128 - 24)
   == 1 # 713623846352979940529142984724747568191373312)%Q.
Proof. reflexivity. Qed.

Ltac norm32 H := unfold rounded in H; rewrite eps32, eta32 in H.

Lemma roundtrip_element slope offset slope' offset' x :
  Float.is_finite slope = true -> Float.is_finite offset = true ->
  (bpow (-100) <= Qabs (Float.to_Q slope))%Q ->
  (Qabs (Float.to_Q slope) <= bpow 100)%Q ->
  (Qabs (Float.to_Q offset) <= 262144 * Qabs (Float.to_Q slope))%Q ->
  decimal7 slope slope' -> decimal7 offset offset' ->
  stored_in_range slope offset x = true ->
  let v := to_stored Fmt.binary32 slope offset x in
  is_uint16 v = true /\
  Float.is_finite (to_physical slope' offset' v) = true /\
  (Qabs (Float.to_Q (to_physical slope' offset' v) - Float.to_Q x)
   <= (3 # 2) * Qabs (Float.to_Q slope))%Q.
Proof.
  intros Hs Ho Hlo Hhi Hoff Hds Hdo Hx v.
  rewrite bpow_m100 in Hlo. rewrite bpow_100 in Hhi.
  assert (H118 : (332306998946228968225951765070086144 <= bpow 1000)%Q).
  { rewrite <- bpow_118. apply bpow_le. lia. }
  assert (Hm1 : (Qabs (Float.to_Q slope) <= bpow 1000)%Q) by lra.
  assert (Hm2 : (Qabs (Float.to_Q offset) <= bpow 1000)%Q) by lra.
  destruct (decimal7_close _ _ Hs Hds Hm1) as [Hs' Hcs].
  destruct (decimal7_close _ _ Ho Hdo Hm2) as [Ho' Hco].
  clear H118 Hm1 Hm2.
  assert (Hn2 : (bpow (-1073)
                 <= 1 # 713623846352979940529142984724747568191373312)%Q).
  { rewrite <- eta32. apply bpow_le. lia. }
  pose proof (bpow_pos (-1073)) as Hn0.
  set (n2 := bpow (-1073)) in *.
  set (sg := Float.to_Q slope) in *. set (ph := Float.to_Q offset) in *.
  set (sg' := Float.to_Q slope') in *. set (ph' := Float.to_Q offset') in *.
  set (A := Qabs sg) in *.
  pose proof (Qabs_nonneg ph) as Hph0.
  pose proof (Qabs_le_add sg' sg) as Tsg. fold A in Tsg.
  pose proof (Qabs_le_add ph' ph) as Tph.
  (* the calibration as float32 *)
  pose proof (scalar32_rounded slope Hs) as HS. cbv zeta in HS.
  pose proof (scalar32_rounded offset Ho) as HO. cbv zeta in HO.
  pose proof (scalar32_rounded slope' Hs') as HS'. cbv zeta in HS'.
  pose proof (scalar32_rounded offset' Ho') as HO'. cbv zeta in HO'.
  fold sg in HS. fold ph in HO. fold sg' in HS'. fold ph' in HO'. fold A in HS.
  set (S := np.scalar Fmt.binary32 slope) in *.
  set (O := np.scalar Fmt.binary32 offset) in *.
  rewrite bpow_127 in HS, HO, HS', HO'.
  destruct HS as [HS1 HS2]. destruct HO as [HO1 HO2].
  destruct HS' as [HS'1 HS'2]. destruct HO' as [HO'1 HO'2].
  assert (HSf : Float.is_finite S = true) by (apply HS1; lra).
  assert (HOf : Float.is_finite O = true) by (apply HO1; lra).
  assert (HS'f : Float.is_finite (np.scalar Fmt.binary32 slope') = true)
    by (apply HS'1; lra).
  assert (HO'f : Float.is_finite (np.scalar Fmt.binary32 offset') = true)
    by (apply HO'1; lra).
  destruct (HS2 HSf) as [HSv RS]. destruct (HO2 HOf) as [HOv RO].
  destruct (HS'2 HS'f) as [HS'v RS']. destruct (HO'2 HO'f) as [HO'v RO'].
  clear HS1 HS2 HO1 HO2 HS'1 HS'2 HO'1 HO'2.
  norm32 RS. norm32 RO. norm32 RS'. norm32 RO'.
  pose proof (Qabs_le_add (Float.to_Q S) sg) as TS. fold A in TS.
  pose proof (Qabs_le_add' (Float.to_Q S) sg) as TS2. fold A in TS2.
  pose proof (Qabs_le_add (Float.to_Q O) ph) as TO.
  pose proof (Qabs_le_add (Float.to_Q (np.scalar Fmt.binary32 slope')) sg')
    as TS'.
  pose proof (Qabs_le_add (Float.to_Q (np.scalar Fmt.binary32 offset')) ph')
    as TO'.
  assert (HSnz : ~ (Float.to_Q S == 0)%Q).
  { intros E. rewrite E in RS, TS2. change (Qabs 0) with 0%Q in RS, TS2. lra. }
  destruct (finite_nonzero S HSf HSnz) as (sS & mS & eS & ES).
  (* the write *)
  pose proof (stored_in_range_spec _ _ _ Hx) as (HQf & _ & _).
  destruct (to_stored_in_range slope offset x Hx) as (Ev & Hu & Hv1 & Hq1 & Hvq).
  fold v in Ev. rewrite Ev. clearbody v. subst v.
  set (Qf := quotient Fmt.binary32 slope offset x) in *.
  set (q := Float.to_Q Qf) in *. set (vz := Qtrunc q) in *.
  assert (EQ : Qf = SFdiv 24 128 (SFsub 24 128 x O) S) by reflexivity.
  rewrite ES in EQ.
  set (D := SFsub 24 128 x O) in *.
  assert (HDf : Float.is_finite D = true).
  { apply (SFdiv_finite_l 24 128 D sS mS eS). by rewrite <- EQ. }
  assert (Hxf : Float.is_finite x = true).
  { by apply (SFsub_finite_l 24 128 x O). }
  destruct (SFsub_rounded 24 128 prec32 emax32 x O Hxf HOf) as [_ RD].
  cbv zeta in RD. fold D in RD. specialize (RD HDf). norm32 RD.
  destruct (SFdiv_rounded 24 128 prec32 emax32 D sS mS eS HDf) as [_ RQ].
  cbv zeta in RQ. rewrite <- EQ, <- ES in RQ. specialize (RQ HQf).
  norm32 RQ. change (Float.to_Q Qf) with q in RQ.
  set (Sq := Float.to_Q S) in *. set (Oq := Float.to_Q O) in *.
  set (Dq := Float.to_Q D) in *. set (X := Float.to_Q x) in *.
  assert (Hb : (Qabs (q - Dq / Sq)
                <= (1 # 128) + (1 # 713623846352979940529142984724747568191373312))%Q).
  { set (t := Qabs (q - Dq / Sq)) in *. lra. }
  apply (Qabs_div_error _ _ _ _ HSnz) in Hb. clear RQ.
  set (W3 := (q * Sq)%Q) in *.
  assert (F3 : (Qabs W3 <= 65536 * Qabs Sq)%Q) by (by apply Qabs_mul_le).
  set (W2 := (inject_Z vz * Sq)%Q).
  assert (F23 : (Qabs (W2 - W3) <= 1 * Qabs Sq)%Q).
  { assert (E : (W2 - W3 == (inject_Z vz - q) * Sq)%Q)
      by (unfold W2, W3; ring).
    rewrite E. by apply Qabs_mul_le. }
  pose proof (Qabs_le_add' W3 Dq) as TD.
  (* the read *)
  destruct (uint16_to_float32_valid vz Hu) as (HVf & HVv & HVq).
  unfold to_physical.
  set (S' := np.scalar Fmt.binary32 slope') in *.
  set (O' := np.scalar Fmt.binary32 offset') in *.
  set (Vf := np.uint16_to_float32 vz) in *.
  set (S'q := Float.to_Q S') in *. set (O'q := Float.to_Q O') in *.
  set (W1 := (inject_Z vz * S'q)%Q).
  assert (F1 : (Qabs W1 <= 65535 * Qabs S'q)%Q) by (by apply Qabs_mul_le).
  assert (F12 : (Qabs (W1 - W2) <= 65535 * Qabs (S'q - Sq))%Q).
  { assert (E : (W1 - W2 == inject_Z vz * (S'q - Sq))%Q)
      by (unfold W1, W2; ring).
    rewrite E. by apply Qabs_mul_le. }
  pose proof (Qabs_tri4 S'q sg' sg Sq) as TSS.
  pose proof (Qabs_tri4 O'q ph' ph Oq) as TOO.
  destruct (SFmul_rounded 24 128 prec32 emax32 Vf S' HVf HS'f HVv HS'v)
    as [HP1 RP].
  cbv zeta in HP1, RP. fold S'q in HP1, RP.
  rewrite HVq in HP1. fold W1 in HP1.
  change (Float.mul Fmt.binary32 Vf S') with (SFmul 24 128 Vf S').
  set (P := SFmul 24 128 Vf S') in *. rewrite bpow_127 in HP1.
  assert (HPf : Float.is_finite P = true) by (apply HP1; lra).
  specialize (RP HPf). norm32 RP. rewrite HVq in RP. fold W1 in RP.
  clear HP1.
  set (Pq := Float.to_Q P) in *.
  pose proof (Qabs_le_add Pq W1) as TP.
  pose proof (Qabs_triangle Pq O'q) as TPO.
  destruct (SFadd_rounded 24 128 prec32 emax32 P O' HPf HO'f) as [HY1 RY].
  cbv zeta in HY1, RY. fold Pq O'q in HY1, RY.
  change (Float.add Fmt.binary32 P O') with (SFadd 24 128 P O').
  set (Y := SFadd 24 128 P O') in *. rewrite bpow_127 in HY1.
  assert (HYf : Float.is_finite Y = true) by (apply HY1; lra).
  specialize (RY HYf). norm32 RY. clear HY1.
  split; [exact Hu|]. split; [exact HYf|].
  set (Yq := Float.to_Q Y) in *.
  pose proof (Qabs_le_add Yq (Pq + O'q)) as TY.
  assert (E : (Yq - X == (Yq - (Pq + O'q)) + (Pq - W1) + (W1 - W2) + (W2 - W3)
                         + (W3 - Dq) + ((Dq - (X - Oq)) + (O'q - Oq)))%Q)
    by ring.
  rewrite E. eapply Qle_trans; [apply Qabs_sum6|].
  pose proof (Qabs_triangle (Dq - (X - Oq)) (O'q - Oq)) as TL.
  lra.
Qed.

Lemma eqb_zero_finite s m e :
  Float.eqb (S754_finite s m e) Float.zero = false.
Proof. by destruct s. Qed.

Lemma roundtrip_elements slope offset slope' offset' buf :
  calibration_in_range slope offset = true ->
  decimal7 slope slope' -> decimal7 offset offset' ->
  Forall (fun x => stored_in_range slope offset x = true) buf ->
  Forall2 (fun x y =>
             Float.is_finite y = true /\
             (Qabs (Float.to_Q y - Float.to_Q x)
              <= (3 # 2) * Qabs (Float.to_Q slope))%Q)
          buf
          (map (to_physical slope' offset')
               (map (to_stored Fmt.binary32 slope offset) buf)).
Proof.
  intros Hc Hs' Ho'.
  apply calibration_in_range_spec in Hc as (Hs & Ho & Hlo & Hhi & Hoff).
  induction 1 as [|x buf Hx _ IH]; cbn [map]; constructor; [|exact IH].
  by destruct (roundtrip_element slope offset slope' offset' x)
    as (_ & Hf & Hb).
Qed.

(** The one-step clause of C7 fails for the calibration of the repository's
    own rescale test, with the stored sample in range: the float32 element
    69.1 written with slope 0.01 and offset 50.0 is stored as 1909 and comes
    back as 69.09, more than one slope below it. *)
Lemma one_step_bound_fails_in_range :
  calibration_in_range py_0_01 py_50 = true /\
  stored_in_range py_0_01 py_50 f32_69_1 = true /\
  ~ rescaled_roundtrip_within 1 (1, 1)%nat [f32_69_1] py_0_01 py_50.
Proof.
  split; [vm_compute; reflexivity|]. split; [vm_compute; reflexivity|].
  intros H. destruct (H "out.tif"%string ∅) as (fs' & back & Hw & Hr & Hb).
  vm_compute in Hw. injection Hw as <-.
  vm_compute in Hr. injection Hr as <-.
  inversion Hb as [|x y l l' [_ Hxy] _]; subst.
  vm_compute in Hxy. apply Hxy. reflexivity.
Qed.

(** C7, amended: for a calibration in range (a finite offset,
    [2^-100 <= |slope| <= 2^100] and [|offset| <= 262144 * |slope|]) and a
    float32 grid every element of which is stored without wrapping (its
    float32 quotient [(x - offset) / slope] is finite and strictly between
    -1 and 65536), the rescaled write succeeds, the rescaled read returns a
    grid of the same shape, and every element read back is finite and within
    [1.5 * |slope|] of the original.  The bound covers the float32 arithmetic
    of both directions and the seven significant digits that the description
    keeps of the slope and of the offset; the one-step bound [|slope|] does
    not hold under these conditions. *)
Theorem rescaled_roundtrip_bound shape buf slope offset :
  (0 < fst shape)%nat -> (0 < snd shape)%nat ->
  length buf = (fst shape * snd shape)%nat ->
  calibration_in_range slope offset = true ->
  Forall (fun x => stored_in_range slope offset x = true) buf ->
  rescaled_roundtrip_within (3 # 2) shape buf slope offset.
Proof.
  intros Hh Hw Hlen Hc Hbuf path fs. destruct shape as [h w].
  cbn [fst snd] in *.
  pose proof (calibration_in_range_spec _ _ Hc) as (Hs & Ho & Hlo & _).
  destruct (finite_calibration_read_back slope offset Hs Ho)
    as (s' & o' & Hcal & Hs' & Ho').
  assert (Hnz : Float.eqb slope Float.zero = false).
  { destruct slope as [s|s| |s m e]; try discriminate;
      [|apply eqb_zero_finite].
    exfalso. change (Qabs (Float.to_Q (S754_zero s))) with 0%Q in Hlo.
    by apply Hlo. }
  exists (<[path := written_file (h, w)
                      (map (to_stored Fmt.binary32 slope offset) buf)
                      slope offset]> fs),
         (map (to_physical s' o')
              (map (to_stored Fmt.binary32 slope offset) buf)).
  split; [|split].
  - rewrite write_result. unfold convert_to_u16.
    cbn [ndarray_dtype dtype_eqb andb negb np.fmt_of]. by rewrite Hnz.
  - unfold written_file. cbn [fst snd].
    apply read_written_rescale; [done|done| | |done].
    + by rewrite !length_map.
    + apply (Forall_map_float_to_uint16
               (quotient Fmt.binary32 slope offset)).
  - by apply roundtrip_elements.
Qed.

Lemma rescaled_roundtrip_bound_witness :
  rescaled_roundtrip_within (3 # 2) (1, 2)%nat [f32_69_1; f32_123_5]
    py_0_01 py_50.
Proof.
  apply rescaled_roundtrip_bound; cbn [fst snd length]; try lia.
  - vm_compute. reflexivity.
  - repeat constructor.
Defined.
